(** * nlp_experiments / german_to_eng_translator

    A shallow embedding of the interactive German-to-English translator:
    the regex word tokenizer ([word_tokenizer.py]), the MyMemory translation
    client ([translation_api.py]), the Ollama example generator
    ([ollama_utils.py]), the speech synthesis dispatcher ([tts_utils.py]) and
    the Streamlit page state machine ([app.py]).

    Python [str] values are lists of Unicode code points.  The parts of the
    Unicode character database that lie outside the ASCII range are kept
    abstract (class [UnicodeDB]); everything the program does on ASCII text
    is computed. *)

From Stdlib Require Import List NArith ZArith Bool Lia String Ascii.
From Stdlib Require DecimalNat.
From stdpp Require Import base option list gmap.
Import ListNotations.

Local Open Scope N_scope.
Local Open Scope list_scope.
Local Set Warnings "-register-all".

(* ===================================================================== *)
(** * Part I: definitions                                                  *)
(* ===================================================================== *)

(** ** Runs of characters *)

Module Runs.

(** The longest prefix of [l] whose elements all satisfy [p]. *)
Fixpoint take_while {A} (p : A -> bool) (l : list A) : list A :=
  match l with
  | x :: l' => if p x then x :: take_while p l' else []
  | [] => []
  end.

(** What is left of [l] after that prefix. *)
Fixpoint drop_while {A} (p : A -> bool) (l : list A) : list A :=
  match l with
  | x :: l' => if p x then drop_while p l' else l
  | [] => []
  end.

End Runs.

(** ** Python strings *)

Module Py.
Import Runs.

(** A [str] is a sequence of code points. *)
Abbreviation str := (list N) (only parsing).

(** ASCII literals of the development: [u "abc"] is the Python string 'abc'. *)
Definition u (s : string) : str :=
  List.map N_of_ascii (list_ascii_of_string s).

(** Truth value of a sequence ([str], [bytes], [list]): [bool(s)]. *)
Definition truthy {A} (s : list A) : bool :=
  match s with [] => false | _ :: _ => true end.

(** Truth value of an optional string ([None] and [''] are false). *)
Definition truthy_opt (o : option str) : bool :=
  match o with Some s => truthy s | None => false end.

(** The non-ASCII part of the Unicode character database, as CPython
    consults it: [Py_UNICODE_ISSPACE], [Py_UNICODE_ISALNUM], full-string
    lowercasing ([str.lower]) and the simple lowercase mapping used by
    [re.IGNORECASE]. *)
Class UnicodeDB := {
  uni_isspace : N -> bool;
  uni_isalnum : N -> bool;
  uni_lower : list N -> list N;
  uni_tolower : N -> N
}.

(** A database with nothing outside ASCII: no further white space or
    alphanumeric character, and no case mapping.  It is enough to run the
    program on ASCII text. *)
Definition ascii_only : UnicodeDB := {|
  uni_isspace := fun _ => false;
  uni_isalnum := fun _ => false;
  uni_lower := fun s => s;
  uni_tolower := fun c => c
|}.

Definition between (lo hi c : N) : bool := (lo <=? c) && (c <=? hi).

Definition is_ascii (c : N) : bool := c <? 128.

Definition ascii_isspace (c : N) : bool :=
  between 9 13 c || between 28 32 c.

Definition ascii_isupper (c : N) : bool := between 65 90 c.
Definition ascii_islower (c : N) : bool := between 97 122 c.
Definition ascii_isdigit (c : N) : bool := between 48 57 c.

Definition ascii_isalnum (c : N) : bool :=
  ascii_isdigit c || ascii_isupper c || ascii_islower c.

Definition ascii_tolower (c : N) : N :=
  if ascii_isupper c then c + 32 else c.

Section WithUnicode.
Context {U : UnicodeDB}.

(** [str.isspace] on one character, also the class [\s] of [re]. *)
Definition is_space (c : N) : bool :=
  if is_ascii c then ascii_isspace c else uni_isspace c.

(** The class [\w] of [re] on [str] patterns: alphanumeric or underscore. *)
Definition is_word (c : N) : bool :=
  if is_ascii c then ascii_isalnum c || (c =? 95) else uni_isalnum c.

(** Simple lowercase of one character ([re.IGNORECASE]). *)
Definition to_lower (c : N) : N :=
  if is_ascii c then ascii_tolower c else uni_tolower c.

(** [s.lower()]: CPython lowers a pure-ASCII string bytewise and any other
    string through the Unicode case mapping of the whole string. *)
Definition lower (s : str) : str :=
  if forallb is_ascii s then List.map ascii_tolower s else uni_lower s.

Definition lstrip (s : str) : str := drop_while is_space s.

Definition rstrip (s : str) : str := rev (lstrip (rev s)).

(** [s.strip()] *)
Definition strip (s : str) : str := rstrip (lstrip s).

End WithUnicode.

(** [s.startswith(p)], returning the remainder. *)
Fixpoint strip_prefix (p s : str) : option str :=
  match p, s with
  | [], _ => Some s
  | a :: p', b :: s' => if a =? b then strip_prefix p' s' else None
  | _ :: _, [] => None
  end.

(** [s.partition(sep)] for a non-empty [sep]: the text before the first
    occurrence of [sep] and the text after it, or [None] when [sep] does
    not occur. *)
Fixpoint cut (sep s : str) : option (str * str) :=
  match strip_prefix sep s with
  | Some rest => Some ([], rest)
  | None =>
      match s with
      | [] => None
      | c :: s' =>
          match cut sep s' with
          | Some (before, after) => Some (c :: before, after)
          | None => None
          end
      end
  end.

(** [sub in s] *)
Definition contains (sub s : str) : bool :=
  match cut sub s with Some _ => true | None => false end.

Fixpoint split_fuel (fuel : nat) (sep s : str) : list str :=
  match fuel with
  | O => [s]
  | S fuel' =>
      match cut sep s with
      | Some (before, after) => before :: split_fuel fuel' sep after
      | None => [s]
      end
  end.

(** [s.split(sep)] for a non-empty [sep]; every cut consumes at least one
    character, so [length s] cuts are enough. *)
Definition split (sep s : str) : list str := split_fuel (List.length s) sep s.

(** [l[0]] of a list that [split] returned (never empty). *)
Definition first (l : list str) : str :=
  match l with x :: _ => x | [] => [] end.

(** [bytes] values. *)
Abbreviation bytes := (list N) (only parsing).

(** Python values as [json.loads] produces them; [VNone] is [None].  Of a
    number the program only ever asks whether it is zero. *)
Inductive pyval : Type :=
| VNone
| VBool (b : bool)
| VNum (nonzero : bool)
| VStr (s : list N)
| VList (l : list pyval)
| VDict (kvs : list (list N * pyval)).

(** The exceptions the program's [try] blocks distinguish, and the one a
    handler raises when it reads a local variable that was never bound. *)
Inductive exn : Type :=
| Timeout
| RequestException
| ValueError
| AttributeError
| TypeError
| UnboundLocalError
| OtherException.

(** A computation that returns or raises. *)
Definition result (A : Type) : Type := exn + A.

Definition ok {A} (a : A) : result A := inr a.
Definition raise {A} (e : exn) : result A := inl e.

Definition rbind {A B} (r : result A) (f : A -> result B) : result B :=
  match r with inl e => inl e | inr a => f a end.

(** [bool(v)] *)
Definition truthy_val (v : pyval) : bool :=
  match v with
  | VNone => false
  | VBool b => b
  | VNum nz => nz
  | VStr s => truthy s
  | VList l => truthy l
  | VDict kvs => truthy kvs
  end.

Definition str_eqb (a b : str) : bool := bool_decide (a = b).

(** [a == b] where [a] is a string. *)
Definition val_eq_str (a : str) (v : pyval) : bool :=
  match v with VStr s => str_eqb a s | _ => false end.

Fixpoint assoc (key : str) (kvs : list (list N * pyval)) : option pyval :=
  match kvs with
  | (k, v) :: kvs' => if str_eqb key k then Some v else assoc key kvs'
  | [] => None
  end.

(** [v.get(key, default)]: only a [dict] has the method. *)
Definition dict_get (key : str) (default : pyval) (v : pyval) : result pyval :=
  match v with
  | VDict kvs => ok (match assoc key kvs with Some x => x | None => default end)
  | _ => raise AttributeError
  end.

(** [needle in v] for a string [needle]: substring test on a [str],
    membership on a [list], key test on a [dict], [TypeError] otherwise. *)
Definition val_contains (needle : str) (v : pyval) : result bool :=
  match v with
  | VStr s => ok (contains needle s)
  | VList l => ok (existsb (val_eq_str needle) l)
  | VDict kvs => ok (match assoc needle kvs with Some _ => true | None => false end)
  | _ => raise TypeError
  end.

(** Calling a [str] method on [v]: only a [str] has it. *)
Definition as_str (v : pyval) : result str :=
  match v with VStr s => ok s | _ => raise AttributeError end.

End Py.

(** ** The fragment of Python's [re] the program uses *)

Module Re.
Import Py.

(** Patterns: the empty pattern, character classes, greedy repetition of
    a class, the assertions [^], [$] and [\b], sequence, alternation and
    groups. *)
Inductive regex : Type :=
| Eps
| Cls (p : N -> bool)
| Star (p : N -> bool)
| Plus (p : N -> bool)
| Bol
| Eol
| WordB
| Seq (r1 r2 : regex)
| Alt (r1 r2 : regex)
| Grp (r : regex).

(** The character before the cursor after reading [m]. *)
Definition last_or (prev : option N) (m : str) : option N :=
  fold_left (fun _ c => Some c) m prev.

Definition push (c : N) (r : str * str) : str * str := (c :: fst r, snd r).

(** All the ways a greedy [p*] can read a prefix of [s], longest first:
    the order in which a backtracking matcher tries them. *)
Fixpoint greedy (p : N -> bool) (s : str) : list (str * str) :=
  match s with
  | c :: s' =>
      if p c then List.map (push c) (greedy p s') ++ [([], s)] else [([], s)]
  | [] => [([], [])]
  end.

(** [$] without [re.MULTILINE]: at the end, or before a final newline. *)
Definition at_end (s : str) : bool :=
  match s with
  | [] => true
  | [c] => c =? 10
  | _ => false
  end.

Section WithUnicode.
Context {U : UnicodeDB}.

Definition opt_word (o : option N) : bool :=
  match o with Some c => is_word c | None => false end.

(** [\b]: exactly one side of the cursor is a word character. *)
Definition word_boundary (prev : option N) (s : str) : bool :=
  xorb (opt_word prev) (opt_word (head s)).

(** [rmatch r prev s]: every match of [r] at the cursor, as (text matched,
    text left), in the priority order of a backtracking matcher; [prev] is
    the character before the cursor ([None] at the start of the string). *)
Fixpoint rmatch (r : regex) (prev : option N) (s : str) : list (str * str) :=
  match r with
  | Eps => [([], s)]
  | Cls p =>
      match s with
      | c :: s' => if p c then [([c], s')] else []
      | [] => []
      end
  | Star p => greedy p s
  | Plus p =>
      match s with
      | c :: s' => if p c then List.map (push c) (greedy p s') else []
      | [] => []
      end
  | Bol => match prev with None => [([], s)] | Some _ => [] end
  | Eol => if at_end s then [([], s)] else []
  | WordB => if word_boundary prev s then [([], s)] else []
  | Seq r1 r2 =>
      flat_map
        (fun r => List.map (fun q => (fst r ++ fst q, snd q))
                    (rmatch r2 (last_or prev (fst r)) (snd r)))
        (rmatch r1 prev s)
  | Alt r1 r2 => rmatch r1 prev s ++ rmatch r2 prev s
  | Grp r => rmatch r prev s
  end.

(** The match the engine reports at the cursor.  After an empty match the
    next search must advance: an empty match at the same place is refused
    and the matcher backtracks into the next alternative. *)
Definition match_at (r : regex) (prev : option N) (s : str) (must_advance : bool)
  : option (str * str) :=
  List.find (fun q => negb must_advance || truthy (fst q)) (rmatch r prev s).

(** [search]: the leftmost match at or after the cursor, as (text skipped,
    text matched, text left). *)
Fixpoint search (r : regex) (prev : option N) (s : str) (must_advance : bool)
  : option (str * str * str) :=
  match match_at r prev s must_advance with
  | Some (m, rest) => Some ([], m, rest)
  | None =>
      match s with
      | [] => None
      | c :: s' =>
          match search r (Some c) s' false with
          | Some (g, m, rest) => Some (c :: g, m, rest)
          | None => None
          end
      end
  end.

(** Successive non-overlapping matches, each with the gap before it, and
    the text after the last match. *)
Fixpoint finditer_fuel (fuel : nat) (r : regex) (prev : option N) (s : str)
    (must_advance : bool) : list (str * str) * str :=
  match fuel with
  | O => ([], s)
  | S fuel' =>
      match search r prev s must_advance with
      | None => ([], s)
      | Some (g, m, rest) =>
          let res := finditer_fuel fuel' r (last_or prev (g ++ m)) rest
                       (negb (truthy m)) in
          ((g, m) :: fst res, snd res)
      end
  end.

(** At most one empty and one non-empty match start at each position. *)
Definition finditer (r : regex) (s : str) : list (str * str) * str :=
  finditer_fuel (2 * List.length s + 2) r None s false.

(** [re.findall(r, s)] for a pattern without groups. *)
Definition findall (r : regex) (s : str) : list str :=
  List.map snd (fst (finditer r s)).

(** [re.split(r, s)] for a pattern [(r0)] whose one group is the whole
    pattern: the gaps, with the text of each match between them. *)
Definition split (r : regex) (s : str) : list str :=
  flat_map (fun h => [fst h; snd h]) (fst (finditer r s)) ++ [snd (finditer r s)].

(** [re.sub(r, repl, s)] for a replacement text without group references. *)
Definition sub (r : regex) (repl s : str) : str :=
  flat_map (fun h => fst h ++ repl) (fst (finditer r s)) ++ snd (finditer r s).

(** [bool(re.search(r, s))] *)
Definition found (r : regex) (s : str) : bool :=
  match search r None s false with Some _ => true | None => false end.

End WithUnicode.

End Re.

(** ** word_tokenizer.py *)

Module WordTokenizer.
Import Py Re.

Section WithUnicode.
Context {U : UnicodeDB}.

(** The pattern [\b\w+\b]. *)
Definition word_re : regex := Seq WordB (Seq (Plus is_word) WordB).

Definition tokenize_sentence (sentence : str) : list str :=
  if negb (truthy sentence) then []
  else findall word_re sentence.

Definition split_sentence_with_delimiters (sentence : str) : list str :=
  if negb (truthy sentence) then []
  else
    let parts := split (Grp word_re) sentence in
    List.filter truthy parts.

End WithUnicode.

End WordTokenizer.

(** ** External services and session state *)

Module Effects.
Import Py.

(** The calls that leave the process: the HTTP request of the translation
    client, the chat request to the local Ollama server, and the two speech
    synthesis back ends. *)
Inductive request : Type :=
| HttpGet (url : list N) (params : list (list N * list N)) (timeout : N)
| OllamaChat (model : list N) (messages : list (list N * list N))
| HfSynthesize (text : list N)
| GttsSynthesize (text lang : list N).

(** What [requests.get] hands back when it does not raise: whether
    [raise_for_status] passes, and what [response.json()] gives. *)
Record http_response : Type := {
  status_ok : bool;
  json_body : result pyval
}.

Definition reply (q : request) : Type :=
  match q with
  | HttpGet _ _ _ => result http_response
  | OllamaChat _ _ => result pyval
  | HfSynthesize _ => result (list N)
  | GttsSynthesize _ _ => result (list N)
  end.

(** A handler of the page: it returns, calls a service and goes on with the
    reply, or reads or writes the session state of type [S]. *)
Inductive prog (S A : Type) : Type :=
| Ret (a : A)
| Call (q : request) (k : reply q -> prog S A)
| Get (k : S -> prog S A)
| Put (s : S) (k : prog S A).

Arguments Ret {S A} a.
Arguments Call {S A} q k.
Arguments Get {S A} k.
Arguments Put {S A} s k.

Fixpoint bind {S A B} (p : prog S A) (f : A -> prog S B) : prog S B :=
  match p with
  | Ret a => f a
  | Call q k => Call q (fun r => bind (k r) f)
  | Get k => Get (fun s => bind (k s) f)
  | Put s k => Put s (bind k f)
  end.

Definition call {S} (q : request) : prog S (reply q) := Call q Ret.
Definition gets {S A} (f : S -> A) : prog S A := Get (fun s => Ret (f s)).
Definition modify {S} (f : S -> S) : prog S unit := Get (fun s => Put (f s) (Ret tt)).

(** The world outside: the reply to the [n]-th call of a run. *)
Definition world : Type := nat -> forall q : request, reply q.

(** The outcome of a run: the value returned, the session state at the end,
    and the calls made, oldest first, each with the session state at the
    moment it was issued. *)
Record outcome (S A : Type) : Type := {
  returned : A;
  final : S;
  calls : list (request * S)
}.

Arguments returned {S A} o.
Arguments final {S A} o.
Arguments calls {S A} o.

Definition logged {S A} (c : request * S) (o : outcome S A) : outcome S A :=
  {| returned := returned o; final := final o; calls := c :: calls o |}.

(** [run w n p s]: run [p] from session state [s] when [n] calls have
    already been made. *)
Fixpoint run {S A} (w : world) (n : nat) (p : prog S A) (s : S) : outcome S A :=
  match p with
  | Ret a => {| returned := a; final := s; calls := [] |}
  | Call q k => logged (q, s) (run w (Datatypes.S n) (k (w n q)) s)
  | Get k => run w n (k s) s
  | Put s' k => run w n k s'
  end.

(** [prog S] with stdpp's monad notations: [x ← p; q] and [p ;; q]. *)
#[export] Instance prog_ret {S} : MRet (prog S) := fun A a => Ret a.
#[export] Instance prog_bind {S} : MBind (prog S) := fun A B f p => bind p f.

End Effects.

(** ** translation_api.py *)

Module TranslationApi.
Import Py Effects.

Definition api_url : str := u "https://api.mymemory.translated.net/get".

(** [response.raise_for_status()]: an [HTTPError] is a [RequestException]. *)
Definition raise_for_status (response : http_response) : result unit :=
  if status_ok response then ok tt else raise RequestException.

Section WithUnicode.
Context {U : UnicodeDB}.

(** The body of the [try] block once [response.json()] has returned [data]. *)
Definition extract_translation (data : pyval) : result pyval :=
  rbind (dict_get (u "responseData") (VDict []) data) (fun response_data =>
  rbind (dict_get (u "translatedText") VNone response_data) (fun translated_text =>
  if truthy_val translated_text then
    rbind (val_contains (u "MYMEMORY WARNING") translated_text) (fun warned =>
    if warned : bool then
      rbind (as_str translated_text) (fun text =>
      ok (VStr (strip (first (split (u " MT ") (first (split (u " NMT") text)))))))
    else ok translated_text)
  else ok VNone)).

(** The [try] block with its [except] clauses, from the reply [r] of
    [requests.get].  Each clause logs and falls through to the final
    [return None].  An exception is named by the first clause that
    catches it, so [ValueError] stands for one that is no
    [RequestException].  The clause for [ValueError] logs [response.text]:
    when [requests.get] itself raised the [ValueError], [response] was
    never bound, and the clause raises an [UnboundLocalError], which leaves
    [translate_text]. *)
Definition translation_of (r : result http_response) : result pyval :=
  match r with
  | inr response =>
      match
        rbind (raise_for_status response) (fun _ =>
        rbind (json_body response) (fun data =>
        extract_translation data))
      with
      | inr translated => ok translated
      | inl Timeout => ok VNone
      | inl RequestException => ok VNone
      | inl ValueError => ok VNone
      | inl _ => ok VNone
      end
  | inl Timeout => ok VNone
  | inl RequestException => ok VNone
  | inl ValueError => raise UnboundLocalError
  | inl _ => ok VNone
  end.

(** [requests.get(api_url, params=params, timeout=10)] *)
Definition translation_request (text_to_translate source_lang target_lang : str)
  : request :=
  let params := [(u "q", text_to_translate);
                 (u "langpair", source_lang ++ u "|" ++ target_lang)] in
  HttpGet api_url params 10.

(** [translate_text] returns a value or raises. *)
Definition translate_text {S} (text_to_translate source_lang target_lang : str)
  : prog S (result pyval) :=
  if negb (truthy text_to_translate) then mret (ok VNone)
  else
    r ← call (translation_request text_to_translate source_lang target_lang);
    mret (translation_of r).

End WithUnicode.

End TranslationApi.

(** ** ollama_utils.py *)

Module OllamaUtils.
Import Py Re Effects.

Definition OLLAMA_MODEL_NAME : str := u "llama3:8b".

Definition newline : str := [10].

(** The user message; 252 is u-umlaut and 228 is a-umlaut. *)
Definition prompt (german_word : str) : str :=
  u "Erstelle EINEN einfachen deutschen Beispielsatz mit dem Wort '"
    ++ german_word ++ u "'." ++ newline
  ++ u "WICHTIG: Der Satz MUSS auf DEUTSCH sein." ++ newline
  ++ u "Antworte NUR auf Deutsch." ++ newline
  ++ u "Der Satz sollte f" ++ [252] ++ u "r Sprachlerner (A1/A2 Niveau) geeignet sein."
  ++ newline
  ++ u "Gib NUR den Satz selbst aus, ohne zus" ++ [228] ++ u "tzliche Erkl" ++ [228]
  ++ u "rungen, Anf" ++ [252] ++ u "hrungszeichen oder Markdown." ++ newline
  ++ u "Beispiel f" ++ [252] ++ u "r 'Buch': Das ist ein interessantes Buch." ++ newline
  ++ u "Beispiel f" ++ [252] ++ u "r 'gehen': Wir gehen heute ins Kino." ++ newline
  ++ u "Beispiel f" ++ [252] ++ u "r 'rot': Mein Lieblingsauto ist rot.".

(** The system message; 246 is o-umlaut. *)
Definition system_message : str :=
  u "Du bist ein Assistent, der EINFACHE deutsche Beispiels" ++ [228]
  ++ u "tze f" ++ [252] ++ u "r deutsche W" ++ [246] ++ u "rter liefert. "
  ++ u "Antworte IMMER NUR mit dem deutschen Satz selbst, sonst nichts.".

(** [ollama.chat(model=OLLAMA_MODEL_NAME, messages=[system, user])] *)
Definition example_request (german_word : str) : request :=
  OllamaChat OLLAMA_MODEL_NAME
    [(u "system", system_message); (u "user", prompt german_word)].

Definition one_of (cs : list N) (c : N) : bool := existsb (N.eqb c) cs.

(** The quote and markdown characters: double quote, backtick, apostrophe and
    asterisk. *)
Definition quote_chars : list N := [34; 96; 39; 42].

(** What [re.IGNORECASE] adds to the letters i and s: dotless i and long s
    (the equivalences table of [sre_compile]). *)
Definition case_equivalents (lo : N) : list N :=
  if lo =? 105 then [305] else if lo =? 115 then [383] else [].

Section WithUnicode.
Context {U : UnicodeDB}.

(** One literal character of a pattern compiled with [re.IGNORECASE]. *)
Definition literal_i (l c : N) : bool :=
  one_of (to_lower l :: case_equivalents (to_lower l)) (to_lower c).

Fixpoint literal_re (w : str) : regex :=
  match w with
  | [] => Eps
  | [l] => Cls (literal_i l)
  | l :: w' => Seq (Cls (literal_i l)) (literal_re w')
  end.

(** The class of the leading run: the quote characters, [>], [-] and
    white space. *)
Definition lead_class (c : N) : bool := one_of (quote_chars ++ [62; 45]) c || is_space c.

(** The class of the trailing run. *)
Definition quote_class (c : N) : bool := one_of quote_chars c.

(** The first pattern: a leading run after optional white space, or a
    trailing run before optional white space. *)
Definition markers_re : regex :=
  Alt (Seq Bol (Seq (Star is_space) (Plus lead_class)))
      (Seq (Plus quote_class) (Seq (Star is_space) Eol)).

(** The second pattern, compiled with [re.IGNORECASE]: the word Beispiel or
    Example, a colon, and the white space around the colon. *)
Definition prefix_re : regex :=
  Seq Bol
    (Seq (Grp (Alt (literal_re (u "Beispiel")) (literal_re (u "Example"))))
       (Seq (Star is_space) (Seq (Cls (N.eqb 58)) (Star is_space)))).

Definition strip_markers (sentence : str) : str :=
  strip (sub markers_re [] sentence).

Definition strip_example_prefix (sentence : str) : str :=
  strip (sub prefix_re [] sentence).

(** The two substitutions of the post-processing, each followed by
    [strip]. *)
Definition clean_sentence (sentence : str) : str :=
  strip_example_prefix (strip_markers sentence).

(** The body of the [try] block once [ollama.chat] has returned.  The two
    checks that follow the cleaning only write to the log. *)
Definition example_of (response : pyval) : result (option str) :=
  rbind (dict_get (u "message") (VDict []) response) (fun message =>
  rbind (dict_get (u "content") (VStr []) message) (fun content =>
  rbind (as_str content) (fun text =>
  let sentence := strip text in
  if negb (truthy sentence) then ok None
  else ok (Some (clean_sentence sentence))))).

(** The [try] block with its [except Exception] clause. *)
Definition example_result (r : result pyval) : option str :=
  match rbind r example_of with
  | inr sentence => sentence
  | inl _ => None
  end.

Definition get_german_example_sentence_ollama {S} (german_word : str)
  : prog S (option str) :=
  if negb (truthy german_word) then mret None
  else
    r ← call (example_request german_word);
    mret (example_result r).

End WithUnicode.

End OllamaUtils.

(** ** What the post-processing is meant to do, in plain list operations *)

Module CleaningSpec.
Import Runs Py OllamaUtils.

Section WithUnicode.
Context {U : UnicodeDB}.

(** A trailing run: quote characters, then white space, up to the end. *)
Definition is_trailing_run (t : str) : bool :=
  match t with
  | c :: _ => quote_class c && forallb is_space (drop_while quote_class t)
  | [] => false
  end.

(** [t] up to its trailing run. *)
Fixpoint without_trailing_run (t : str) : str :=
  if is_trailing_run t then []
  else match t with
       | c :: t' => c :: without_trailing_run t'
       | [] => []
       end.

(** Strip the leading quote, markdown and bullet characters and the
    trailing quote and markdown characters. *)
Definition spec_strip_markers (sentence : str) : str :=
  strip (without_trailing_run (drop_while lead_class sentence)).

(** [s] after a leading [w], compared as [re.IGNORECASE] compares. *)
Fixpoint after_word_i (w s : str) : option str :=
  match w, s with
  | [], _ => Some s
  | l :: w', c :: s' => if literal_i l c then after_word_i w' s' else None
  | _ :: _, [] => None
  end.

(** [s] after a colon and the white space around it. *)
Definition after_colon (s : str) : option str :=
  match drop_while is_space s with
  | c :: s' => if 58 =? c then Some (drop_while is_space s') else None
  | [] => None
  end.

(** [s] after a leading [w], in any casing, and a colon. *)
Definition after_keyword (w s : str) : option str :=
  match after_word_i w s with
  | Some rest => after_colon rest
  | None => None
  end.

(** [s] after a leading 'Beispiel:' or 'Example:'. *)
Definition after_example_prefix (s : str) : option str :=
  match after_keyword (u "Beispiel") s with
  | Some rest => Some rest
  | None => after_keyword (u "Example") s
  end.

(** Strip a leading 'Example:'-style prefix. *)
Definition spec_strip_example_prefix (sentence : str) : str :=
  strip (match after_example_prefix sentence with
         | Some rest => rest
         | None => sentence
         end).

End WithUnicode.

End CleaningSpec.

(** ** tts_utils.py *)

Module TtsUtils.
Import Py Effects.

(** The module-level state fixed at start-up: the configured engine, which
    imports succeeded, and whether the Hugging Face processor and model were
    loaded.  The source sets [TTS_ENGINE = 'huggingface']. *)
Record tts_config : Type := {
  TTS_ENGINE : list N;
  hf_libraries_installed : bool;
  hf_processor : bool;
  hf_model : bool;
  gtts_installed : bool
}.

(** (audio_bytes, audio_format, engine_name) *)
Abbreviation audio := (option (list N) * option (list N) * option (list N))%type
  (only parsing).

Definition no_audio : audio := (None, None, None).

Definition _generate_speech_audio_hf {S} (cfg : tts_config) (text : str)
  : prog S audio :=
  if negb (hf_libraries_installed cfg && hf_processor cfg && hf_model cfg)
     || negb (truthy text)
  then mret no_audio
  else
    r ← call (HfSynthesize text);
    mret (match r with
          | inr audio_bytes =>
              (Some audio_bytes, Some (u "audio/wav"), Some (u "Hugging Face"))
          | inl _ => no_audio
          end).

Definition _generate_speech_audio_gtts {S} (cfg : tts_config) (text lang : str)
  : prog S audio :=
  if negb (gtts_installed cfg && truthy text) then mret no_audio
  else
    r ← call (GttsSynthesize text lang);
    mret (match r with
          | inr audio_bytes => (Some audio_bytes, Some (u "audio/mp3"), Some (u "gTTS"))
          | inl _ => no_audio
          end).

Definition is_none {A} (o : option A) : bool :=
  match o with None => true | Some _ => false end.

(** [engine_name += ' (Fallback)'] when [engine_name] is true. *)
Definition tag_fallback (engine_name : option str) : option str :=
  match engine_name with
  | Some name => if truthy name then Some (name ++ u " (Fallback)") else Some name
  | None => None
  end.

(** The first [if]/[elif] of [generate_speech_audio]: the configured
    engine, when it is ready. *)
Definition primary_audio {S} (cfg : tts_config) (text lang : str) : prog S audio :=
  if str_eqb (TTS_ENGINE cfg) (u "huggingface") && hf_libraries_installed cfg
     && hf_processor cfg && hf_model cfg
  then _generate_speech_audio_hf cfg text
  else if str_eqb (TTS_ENGINE cfg) (u "gtts") && gtts_installed cfg
  then _generate_speech_audio_gtts cfg text lang
  else mret no_audio.

Definition generate_speech_audio {S} (cfg : tts_config) (text lang : str)
  : prog S audio :=
  primary ← primary_audio cfg text lang;
  if is_none (fst (fst primary)) && gtts_installed cfg then
    secondary ← _generate_speech_audio_gtts cfg text lang;
    mret (fst (fst secondary), snd (fst secondary), tag_fallback (snd secondary))
  else mret primary.

Definition is_tts_available (cfg : tts_config) : bool :=
  if str_eqb (TTS_ENGINE cfg) (u "huggingface")
  then hf_libraries_installed cfg && hf_processor cfg && hf_model cfg
  else gtts_installed cfg.

End TtsUtils.

(** ** app.py *)

Module App.
Import Py Effects TranslationApi OllamaUtils TtsUtils WordTokenizer.

(** [st.session_state]: the keys the script initialises, and the key of the
    text area, which exists once the widget has been drawn. *)
Record session : Type := {
  input_sentence : list N;
  word_translation_result : option (list N * pyval);
  sentence_translation_result : pyval;
  active_translation_word : option (list N);
  german_example_sentence_result : option (list N);
  english_example_translation_result : pyval;
  show_word_buttons : bool;
  tts_audio_bytes : option (list N);
  tts_audio_format : option (list N);
  sentence_input_widget : option (list N)
}.

(** The state after the initialisation at the top of the script. *)
Definition initial_session : session := {|
  input_sentence := [];
  word_translation_result := None;
  sentence_translation_result := VNone;
  active_translation_word := None;
  german_example_sentence_result := None;
  english_example_translation_result := VNone;
  show_word_buttons := false;
  tts_audio_bytes := None;
  tts_audio_format := None;
  sentence_input_widget := None
|}.

Definition set_input_sentence (v : list N) (s : session) : session :=
  {| input_sentence := v;
     word_translation_result := word_translation_result s;
     sentence_translation_result := sentence_translation_result s;
     active_translation_word := active_translation_word s;
     german_example_sentence_result := german_example_sentence_result s;
     english_example_translation_result := english_example_translation_result s;
     show_word_buttons := show_word_buttons s;
     tts_audio_bytes := tts_audio_bytes s;
     tts_audio_format := tts_audio_format s;
     sentence_input_widget := sentence_input_widget s |}.

Definition set_word_translation_result (v : option (list N * pyval)) (s : session)
  : session :=
  {| input_sentence := input_sentence s;
     word_translation_result := v;
     sentence_translation_result := sentence_translation_result s;
     active_translation_word := active_translation_word s;
     german_example_sentence_result := german_example_sentence_result s;
     english_example_translation_result := english_example_translation_result s;
     show_word_buttons := show_word_buttons s;
     tts_audio_bytes := tts_audio_bytes s;
     tts_audio_format := tts_audio_format s;
     sentence_input_widget := sentence_input_widget s |}.

Definition set_sentence_translation_result (v : pyval) (s : session) : session :=
  {| input_sentence := input_sentence s;
     word_translation_result := word_translation_result s;
     sentence_translation_result := v;
     active_translation_word := active_translation_word s;
     german_example_sentence_result := german_example_sentence_result s;
     english_example_translation_result := english_example_translation_result s;
     show_word_buttons := show_word_buttons s;
     tts_audio_bytes := tts_audio_bytes s;
     tts_audio_format := tts_audio_format s;
     sentence_input_widget := sentence_input_widget s |}.

Definition set_active_translation_word (v : option (list N)) (s : session) : session :=
  {| input_sentence := input_sentence s;
     word_translation_result := word_translation_result s;
     sentence_translation_result := sentence_translation_result s;
     active_translation_word := v;
     german_example_sentence_result := german_example_sentence_result s;
     english_example_translation_result := english_example_translation_result s;
     show_word_buttons := show_word_buttons s;
     tts_audio_bytes := tts_audio_bytes s;
     tts_audio_format := tts_audio_format s;
     sentence_input_widget := sentence_input_widget s |}.

Definition set_german_example_sentence_result (v : option (list N)) (s : session)
  : session :=
  {| input_sentence := input_sentence s;
     word_translation_result := word_translation_result s;
     sentence_translation_result := sentence_translation_result s;
     active_translation_word := active_translation_word s;
     german_example_sentence_result := v;
     english_example_translation_result := english_example_translation_result s;
     show_word_buttons := show_word_buttons s;
     tts_audio_bytes := tts_audio_bytes s;
     tts_audio_format := tts_audio_format s;
     sentence_input_widget := sentence_input_widget s |}.

Definition set_english_example_translation_result (v : pyval) (s : session)
  : session :=
  {| input_sentence := input_sentence s;
     word_translation_result := word_translation_result s;
     sentence_translation_result := sentence_translation_result s;
     active_translation_word := active_translation_word s;
     german_example_sentence_result := german_example_sentence_result s;
     english_example_translation_result := v;
     show_word_buttons := show_word_buttons s;
     tts_audio_bytes := tts_audio_bytes s;
     tts_audio_format := tts_audio_format s;
     sentence_input_widget := sentence_input_widget s |}.

Definition set_show_word_buttons (v : bool) (s : session) : session :=
  {| input_sentence := input_sentence s;
     word_translation_result := word_translation_result s;
     sentence_translation_result := sentence_translation_result s;
     active_translation_word := active_translation_word s;
     german_example_sentence_result := german_example_sentence_result s;
     english_example_translation_result := english_example_translation_result s;
     show_word_buttons := v;
     tts_audio_bytes := tts_audio_bytes s;
     tts_audio_format := tts_audio_format s;
     sentence_input_widget := sentence_input_widget s |}.

Definition set_tts_audio_bytes (v : option (list N)) (s : session) : session :=
  {| input_sentence := input_sentence s;
     word_translation_result := word_translation_result s;
     sentence_translation_result := sentence_translation_result s;
     active_translation_word := active_translation_word s;
     german_example_sentence_result := german_example_sentence_result s;
     english_example_translation_result := english_example_translation_result s;
     show_word_buttons := show_word_buttons s;
     tts_audio_bytes := v;
     tts_audio_format := tts_audio_format s;
     sentence_input_widget := sentence_input_widget s |}.

Definition set_tts_audio_format (v : option (list N)) (s : session) : session :=
  {| input_sentence := input_sentence s;
     word_translation_result := word_translation_result s;
     sentence_translation_result := sentence_translation_result s;
     active_translation_word := active_translation_word s;
     german_example_sentence_result := german_example_sentence_result s;
     english_example_translation_result := english_example_translation_result s;
     show_word_buttons := show_word_buttons s;
     tts_audio_bytes := tts_audio_bytes s;
     tts_audio_format := v;
     sentence_input_widget := sentence_input_widget s |}.

Definition set_sentence_input_widget (v : option (list N)) (s : session) : session :=
  {| input_sentence := input_sentence s;
     word_translation_result := word_translation_result s;
     sentence_translation_result := sentence_translation_result s;
     active_translation_word := active_translation_word s;
     german_example_sentence_result := german_example_sentence_result s;
     english_example_translation_result := english_example_translation_result s;
     show_word_buttons := show_word_buttons s;
     tts_audio_bytes := tts_audio_bytes s;
     tts_audio_format := tts_audio_format s;
     sentence_input_widget := v |}.

(** [value if value else marker] *)
Definition or_marker (value : pyval) (marker : str) : pyval :=
  if truthy_val value then value else VStr marker.

(** The session after the six assignments that open [handle_word_click]. *)
Definition word_reset (word : list N) (s : session) : session :=
  set_tts_audio_bytes None
    (set_english_example_translation_result VNone
    (set_german_example_sentence_result None
    (set_word_translation_result None
    (set_sentence_translation_result VNone
    (set_active_translation_word (Some word) s))))).

Section WithUnicode.
Context {U : UnicodeDB}.

(** The callback of a word button.  Spinners, columns and log lines leave
    the session state alone and are left out.  An exception that leaves
    [translate_text] leaves the callback at that point, with the session as
    it then is. *)
Definition handle_word_click (word : str) : prog session (result unit) :=
  modify (set_active_translation_word (Some word));;
  modify (set_sentence_translation_result VNone);;
  modify (set_word_translation_result None);;
  modify (set_german_example_sentence_result None);;
  modify (set_english_example_translation_result VNone);;
  modify (set_tts_audio_bytes None);;
  translated ← translate_text word (u "de") (u "en");
  match translated with
  | inl e => mret (raise e)
  | inr english_translation =>
      modify (set_word_translation_result
                (Some (word, or_marker english_translation (u "[Translation Failed]"))));;
      german_example ← get_german_example_sentence_ollama word;
      modify (set_german_example_sentence_result german_example);;
      stored ← gets german_example_sentence_result;
      match stored with
      | Some german_example_to_translate =>
          if truthy german_example_to_translate then
            translated_example ←
              translate_text german_example_to_translate (u "de") (u "en");
            match translated_example with
            | inl e => mret (raise e)
            | inr english_example_translation =>
                modify (set_english_example_translation_result
                          (or_marker english_example_translation
                             (u "[Example Translation Failed]")));;
                mret (ok tt)
            end
          else modify (set_english_example_translation_result VNone);; mret (ok tt)
      | None => modify (set_english_example_translation_result VNone);; mret (ok tt)
      end
  end.

(** The callback of the pronunciation buttons. *)
Definition handle_tts_click (cfg : tts_config) (text_to_speak lang : str)
  : prog session unit :=
  if negb (truthy text_to_speak) then mret tt
  else
    modify (set_tts_audio_bytes None);;
    modify (set_tts_audio_format None);;
    generated ← generate_speech_audio cfg text_to_speak lang;
    let audio_bytes := fst (fst generated) in
    let audio_format := snd (fst generated) in
    if truthy_opt audio_bytes && truthy_opt audio_format then
      modify (set_tts_audio_bytes audio_bytes);;
      modify (set_tts_audio_format audio_format)
    else mret tt.

(** The body of the Translate Full Sentence button.  An exception that
    leaves [translate_text] leaves the body before the result is stored. *)
Definition translate_full_sentence : prog session (result unit) :=
  current_sentence ← gets input_sentence;
  modify (set_active_translation_word None);;
  modify (set_word_translation_result None);;
  modify (set_german_example_sentence_result None);;
  modify (set_english_example_translation_result VNone);;
  modify (set_tts_audio_bytes None);;
  translated ← translate_text current_sentence (u "de") (u "en");
  match translated with
  | inl e => mret (raise e)
  | inr full_translation =>
      modify (set_sentence_translation_result
                (or_marker full_translation (u "[Full Translation Failed]")));;
      mret (ok tt)
  end.

(** The words offered as buttons: the parts of the sentence in which
    [re.search] finds a word character. *)
Definition words_with_original_case (current_sentence : str) : list str :=
  List.filter (Re.found (Re.Cls is_word))
    (split_sentence_with_delimiters current_sentence).

(** One turn of the loop over [words_with_original_case]; the state is
    [(unique_words_tracker, display_words_list)]. *)
Definition dedup_step (st : gmap (list N) (list N) * list (list N)) (word : str)
  : gmap (list N) (list N) * list (list N) :=
  let lower_word := lower word in
  match fst st !! lower_word with
  | None => (<[lower_word := word]> (fst st), snd st ++ [word])
  | Some _ => st
  end.

(** The loop, from the empty tracker and the empty list. *)
Definition dedup_state (words : list (list N))
  : gmap (list N) (list N) * list (list N) :=
  fold_left dedup_step words (∅, []).

Definition display_words_list (words : list (list N)) : list (list N) :=
  snd (dedup_state words).

(** The word buttons drawn for a sentence. *)
Definition word_buttons (current_sentence : str) : list (list N) :=
  display_words_list (words_with_original_case current_sentence).

End WithUnicode.

(** The [on_change] callback of the text area.  Reading the widget key as an
    attribute raises when the key is absent. *)
Definition update_input_state (s : session) : result session :=
  let widget_text := default [] (sentence_input_widget s) in
  if negb (str_eqb (input_sentence s) widget_text) then
    match sentence_input_widget s with
    | None => raise AttributeError
    | Some text =>
        ok (set_tts_audio_bytes None
           (set_show_word_buttons false
           (set_english_example_translation_result VNone
           (set_german_example_sentence_result None
           (set_active_translation_word None
           (set_sentence_translation_result VNone
           (set_word_translation_result None
           (set_input_sentence text s))))))))
    end
  else ok s.

(** The body of the Show Words / Hide Words button. *)
Definition toggle_words (s : session) : session :=
  let s1 := set_show_word_buttons (negb (show_word_buttons s)) s in
  if negb (show_word_buttons s1) then
    set_tts_audio_bytes None
      (set_english_example_translation_result VNone
      (set_german_example_sentence_result None
      (set_word_translation_result None
      (set_active_translation_word None s1))))
  else s1.

(** What the result area shows about the active word. *)
Inductive word_view : Type :=
| NoWordPanel
| Processing (word : list N)
| Translated (word : list N) (english : pyval)
| CouldNotTranslate (word : list N).

(** The word branch of the result area: the stored translation is shown
    only when it was stored for the active word. *)
Definition render_word (s : session) : result word_view :=
  match active_translation_word s with
  | Some original_german_word =>
      if truthy original_german_word then
        match word_translation_result s with
        | Some (translated_word, english_translation) =>
            if str_eqb translated_word original_german_word then
              if truthy_val english_translation then
                rbind (val_contains (u "[Translation Failed]") english_translation)
                  (fun failed =>
                     if failed : bool then ok (CouldNotTranslate original_german_word)
                     else ok (Translated original_german_word english_translation))
              else ok (CouldNotTranslate original_german_word)
            else ok NoWordPanel
        | None => ok (Processing original_german_word)
        end
      else ok NoWordPanel
  | None => ok NoWordPanel
  end.

(** The audio player is drawn when both the bytes and the format are set. *)
Definition audio_shown (s : session) : bool :=
  truthy_opt (tts_audio_bytes s) && truthy_opt (tts_audio_format s).

(** No result of a translation, an example or a synthesis is stored. *)
Definition results_cleared (s : session) : Prop :=
  word_translation_result s = None
  /\ german_example_sentence_result s = None
  /\ english_example_translation_result s = VNone
  /\ sentence_translation_result s = VNone
  /\ tts_audio_bytes s = None.

(** The stored word results belong to the active word: a stored word
    translation was made for the active word, an example is stored only
    beside a word translation, and an example translation only beside an
    example. *)
Definition coherent (s : session) : Prop :=
  (forall a t, word_translation_result s = Some (a, t) ->
               active_translation_word s = Some a)
  /\ (german_example_sentence_result s <> None -> word_translation_result s <> None)
  /\ (english_example_translation_result s <> VNone ->
      german_example_sentence_result s <> None).

(** Two sessions that differ at most in the active word and the results. *)
Definition same_inputs (a b : session) : Prop :=
  input_sentence a = input_sentence b
  /\ show_word_buttons a = show_word_buttons b
  /\ tts_audio_format a = tts_audio_format b
  /\ sentence_input_widget a = sentence_input_widget b.

(** What the user can do on the page. *)
Inductive action : Type :=
| EditSentence (text : list N)
| ToggleWords
| ClickWord (word : list N)
| TranslateFullSentence
| ClickTts (text lang : list N).

Section WithUnicode.
Context {U : UnicodeDB}.

(** One user action against the world [w].  The framework stores the text
    area's new text under the widget key before it calls [on_change].  The
    session outlives a handler that raises: the assignments made up to that
    point stay. *)
Definition perform (cfg : tts_config) (w : world) (a : action) (s : session)
  : result session :=
  match a with
  | EditSentence text => update_input_state (set_sentence_input_widget (Some text) s)
  | ToggleWords => ok (toggle_words s)
  | ClickWord word => ok (final (run w 0 (handle_word_click word) s))
  | TranslateFullSentence => ok (final (run w 0 translate_full_sentence s))
  | ClickTts text lang => ok (final (run w 0 (handle_tts_click cfg text lang) s))
  end.

(** The session states a page can be in. *)
Inductive reachable (cfg : tts_config) : session -> Prop :=
| reachable_initial : reachable cfg initial_session
| reachable_step w a s s' :
    reachable cfg s -> perform cfg w a s = inr s' -> reachable cfg s'.

End WithUnicode.

End App.

(** ** Worlds and states to run the page against *)

Module Scenarios.
Import Py Effects TtsUtils App.

(** Every service is down: each call raises. *)
Definition all_down : world :=
  fun _ q =>
    match q return reply q with
    | HttpGet _ _ _ => inl RequestException
    | OllamaChat _ _ => inl OtherException
    | HfSynthesize _ => inl OtherException
    | GttsSynthesize _ _ => inl OtherException
    end.

(** The JSON document of a MyMemory answer whose translated text is [t]. *)
Definition provider_json (t : list N) : pyval :=
  VDict [(u "responseData", VDict [(u "translatedText", VStr t)])].

(** The translation provider answers every request with the translated
    text [t]; the other services are down. *)
Definition provider_says (t : list N) : world :=
  fun _ q =>
    match q return reply q with
    | HttpGet _ _ _ => inr {| status_ok := true; json_body := inr (provider_json t) |}
    | OllamaChat _ _ => inl OtherException
    | HfSynthesize _ => inl OtherException
    | GttsSynthesize _ _ => inl OtherException
    end.

(** The translation provider answers every request with the JSON value
    [t] as its translated text; the other services are down. *)
Definition provider_sends (t : pyval) : world :=
  fun _ q =>
    match q return reply q with
    | HttpGet _ _ _ =>
        inr {| status_ok := true;
               json_body := inr (VDict [(u "responseData",
                                         VDict [(u "translatedText", t)])]) |}
    | OllamaChat _ _ => inl OtherException
    | HfSynthesize _ => inl OtherException
    | GttsSynthesize _ _ => inl OtherException
    end.

(** The answer of [ollama.chat] whose message content is [content]. *)
Definition chat_reply (content : list N) : pyval :=
  VDict [(u "message", VDict [(u "role", VStr (u "assistant"));
                              (u "content", VStr content)])].

(** The raw model output of the example: a bullet and the quoted sentence
    'Das ist gut.' (34 is the double quote). *)
Definition bulleted_quote : list N := u "- " ++ [34] ++ u "Das ist gut." ++ [34].

(** Only gTTS works, and it returns [mp3]. *)
Definition only_gtts (mp3 : list N) : world :=
  fun _ q =>
    match q return reply q with
    | HttpGet _ _ _ => inl RequestException
    | OllamaChat _ _ => inl OtherException
    | HfSynthesize _ => inl OtherException
    | GttsSynthesize _ _ => inr mp3
    end.

(** The configuration of the source when every import and the model load
    succeeded. *)
Definition all_loaded : tts_config := {|
  TTS_ENGINE := u "huggingface";
  hf_libraries_installed := true;
  hf_processor := true;
  hf_model := true;
  gtts_installed := true
|}.

(** A page that shows the word buttons of the sentence 'Der Hund' while
    the user has typed 'Die Katze' into the text area. *)
Definition editing_session : session := {|
  input_sentence := u "Der Hund";
  word_translation_result := Some (u "Hund", VStr (u "dog"));
  sentence_translation_result := VNone;
  active_translation_word := Some (u "Hund");
  german_example_sentence_result := Some (u "Der Hund bellt.");
  english_example_translation_result := VStr (u "The dog barks.");
  show_word_buttons := true;
  tts_audio_bytes := Some [82; 73; 70; 70];
  tts_audio_format := Some (u "audio/wav");
  sentence_input_widget := Some (u "Die Katze")
|}.

End Scenarios.

(** ** Words and delimiters *)

Module Parts.
Import Py.

Section WithUnicode.
Context {U : UnicodeDB}.

(** A word: a non-empty text of word characters only. *)
Definition is_word_part (part : str) : bool := truthy part && forallb is_word part.

(** A delimiter: a non-empty text without any word character. *)
Definition is_delimiter_part (part : str) : bool :=
  truthy part && negb (existsb is_word part).

(** No two neighbours are both words or both delimiters. *)
Fixpoint alternating (parts : list str) : bool :=
  match parts with
  | a :: rest =>
      match rest with
      | b :: _ => xorb (is_word_part a) (is_word_part b) && alternating rest
      | [] => true
      end
  | [] => true
  end.

(** The matches of a scan, each with the gap before it: every match is a
    word, no gap holds a word character, and a gap that follows a match
    ([after_word]) is not empty. *)
Fixpoint whole_words (after_word : bool) (hits : list (str * str)) : Prop :=
  match hits with
  | (g, m) :: hits' =>
      existsb is_word g = false
      /\ (after_word = true -> g <> [])
      /\ is_word_part m = true
      /\ whole_words true hits'
  | [] => True
  end.

End WithUnicode.

End Parts.

(** ** Pieces of a text *)

Module Text.
Import Py.

(** [r] is a contiguous piece of [s]: [r in s] for strings. *)
Definition part_of (r s : str) : Prop := exists before after, s = before ++ r ++ after.

End Text.

(** ** tts_utils.py: the status line, and the banner app.py draws from it *)

Module TtsStatus.
Import Py TtsUtils.

Definition HF_TTS_MODEL_NAME : str := u "facebook/mms-tts-deu".

(** ['cuda' if torch.cuda.is_available() else 'cpu'] *)
Definition TORCH_DEVICE (cuda_is_available : bool) : str :=
  if cuda_is_available then u "cuda" else u "cpu".

(** The warning sign with its variation selector, and the muted speaker. *)
Definition warning_sign : str := [9888; 65039].
Definition muted_speaker : str := [128263].

Definition get_tts_status (cfg : tts_config) (cuda_is_available : bool) : str :=
  if str_eqb (TTS_ENGINE cfg) (u "huggingface") then
    if hf_libraries_installed cfg && hf_processor cfg && hf_model cfg then
      u "Using Hugging Face TTS model: `" ++ HF_TTS_MODEL_NAME ++ u "` on `"
        ++ TORCH_DEVICE cuda_is_available ++ u "`."
    else if hf_libraries_installed cfg then
      warning_sign ++ u " Hugging Face libraries installed, but model `"
        ++ HF_TTS_MODEL_NAME ++ u "` failed to load. Check logs. Trying fallbacks..."
    else
      warning_sign
        ++ u " Hugging Face TTS selected but required libraries (transformers, torch, soundfile) are not installed. Trying fallbacks..."
  else if str_eqb (TTS_ENGINE cfg) (u "gtts") then
    if gtts_installed cfg then u "Using gTTS for pronunciation."
    else warning_sign ++ u " gTTS selected but not installed (pip install gTTS). TTS disabled."
  else
    muted_speaker
      ++ u " TTS is unavailable. Please install required libraries (gTTS or transformers, torch, soundfile).".

(** The banner under the title: [st.warning] or [st.info]. *)
Inductive banner : Type :=
| Warning (message : list N)
| Info (message : list N).

Definition status_banner (cfg : tts_config) (cuda_is_available : bool) : banner :=
  let tts_status_message := get_tts_status cfg cuda_is_available in
  if contains warning_sign tts_status_message || contains muted_speaker tts_status_message
  then Warning tts_status_message
  else Info tts_status_message.

Definition is_warning (b : banner) : bool :=
  match b with Warning _ => true | Info _ => false end.

End TtsStatus.

(** ** app.py: the result area *)

Module Views.
Import Py TtsUtils App.

(** What the word branch shows about the example sentence. *)
Inductive example_view : Type :=
| NoExamplePanel
| ExampleWithTranslation (german : list N) (english : pyval)
| ExamplePending (german : list N)
| CouldNotGenerate (word : list N).

(** The example part of the word branch.  It is drawn inside the branch
    that has read the stored word translation, a pair, so the two tests of
    [word_translation_result] that guard the caption and the warning are
    true there. *)
Definition render_example (s : session) : example_view :=
  match active_translation_word s with
  | Some original_german_word =>
      if truthy original_german_word then
        match word_translation_result s with
        | Some (translated_word, _) =>
            if str_eqb translated_word original_german_word then
              match german_example_sentence_result s with
              | Some german_example_sentence =>
                  if truthy german_example_sentence then
                    if truthy_val (english_example_translation_result s) then
                      ExampleWithTranslation german_example_sentence
                        (english_example_translation_result s)
                    else ExamplePending german_example_sentence
                  else CouldNotGenerate original_german_word
              | None => CouldNotGenerate original_german_word
              end
            else NoExamplePanel
        | None => NoExamplePanel
        end
      else NoExamplePanel
  | None => NoExamplePanel
  end.

(** What the sentence branch shows. *)
Inductive sentence_view : Type :=
| SentenceTranslation (translation : pyval)
| SentenceError
| SentenceBlank.

(** [hash(v)]: a list or a dictionary cannot be hashed. *)
Definition py_hash (v : pyval) : result unit :=
  match v with
  | VList _ => raise TypeError
  | VDict _ => raise TypeError
  | _ => ok tt
  end.

(** The sentence branch: the translation, unless it contains the text
    '[Failed]'.  Beside the translation stands the pronunciation button when
    speech is available, and its key is built with [hash(translation)]. *)
Definition render_sentence (tts_globally_available : bool) (translation : pyval)
  : result sentence_view :=
  if truthy_val translation then
    rbind (val_contains (u "[Failed]") translation) (fun failed =>
    if negb failed then
      if tts_globally_available then
        rbind (py_hash translation) (fun _ => ok (SentenceTranslation translation))
      else ok (SentenceTranslation translation)
    else if truthy_val translation then ok SentenceError
    else ok SentenceBlank)
  else if truthy_val translation then ok SentenceError
  else ok SentenceBlank.

(** The result area: the word branch when a word is active, the sentence
    branch when a sentence translation is stored, and a hint otherwise. *)
Inductive result_area : Type :=
| WordArea (word : word_view) (example : example_view)
| SentenceArea (sentence : sentence_view)
| HintArea.

(** The keys of the pronunciation buttons of the word branch are built
    from the active word and the example, which are strings: [lower] and
    [hash] accept them. *)
Definition render (cfg : tts_config) (s : session) : result result_area :=
  let tts_globally_available := is_tts_available cfg in
  if truthy_opt (active_translation_word s) then
    rbind (render_word s) (fun word => ok (WordArea word (render_example s)))
  else if truthy_val (sentence_translation_result s) then
    rbind (render_sentence tts_globally_available (sentence_translation_result s))
      (fun sentence => ok (SentenceArea sentence))
  else ok HintArea.

(** The values [in] is defined on. *)
Definition is_container (v : pyval) : bool :=
  match v with
  | VStr _ | VList _ | VDict _ => true
  | _ => false
  end.

(** The session after the assignments of a changed input. *)
Definition input_reset (text : list N) (s : session) : session :=
  set_tts_audio_bytes None
    (set_show_word_buttons false
    (set_english_example_translation_result VNone
    (set_german_example_sentence_result None
    (set_active_translation_word None
    (set_sentence_translation_result VNone
    (set_word_translation_result None
    (set_input_sentence text s))))))).

(** The session after the five assignments that open a full-sentence
    translation. *)
Definition sentence_reset (s : session) : session :=
  set_tts_audio_bytes None
    (set_english_example_translation_result VNone
    (set_german_example_sentence_result None
    (set_word_translation_result None
    (set_active_translation_word None s)))).

(** The session after the two assignments that open a pronunciation
    click. *)
Definition audio_reset (s : session) : session :=
  set_tts_audio_format None (set_tts_audio_bytes None s).

(** What the page keeps true of the stored results. *)
Definition stored_well (s : session) : Prop :=
  (forall a t, word_translation_result s = Some (a, t) ->
               truthy_val t = true /\ is_container t = true)
  /\ (truthy_val (sentence_translation_result s) = true ->
      is_container (sentence_translation_result s) = true)
  /\ (active_translation_word s <> None -> sentence_translation_result s = VNone).

(** The stored audio: bytes are stored only with a format, WAV or MP3,
    and are not empty. *)
Definition audio_well (s : session) : Prop :=
  (tts_audio_bytes s <> None -> audio_shown s = true)
  /\ (tts_audio_format s = None \/ tts_audio_format s = Some (u "audio/wav")
      \/ tts_audio_format s = Some (u "audio/mp3")).

End Views.

(** ** app.py: the panel of word buttons *)

Module WordGrid.
Import Py App.

(** The decimal digits of [str(n)], most significant first. *)
Fixpoint digits (d : Decimal.uint) : list N :=
  match d with
  | Decimal.Nil => []
  | Decimal.D0 d' => 48 :: digits d'
  | Decimal.D1 d' => 49 :: digits d'
  | Decimal.D2 d' => 50 :: digits d'
  | Decimal.D3 d' => 51 :: digits d'
  | Decimal.D4 d' => 52 :: digits d'
  | Decimal.D5 d' => 53 :: digits d'
  | Decimal.D6 d' => 54 :: digits d'
  | Decimal.D7 d' => 55 :: digits d'
  | Decimal.D8 d' => 56 :: digits d'
  | Decimal.D9 d' => 57 :: digits d'
  end.

(** [str(n)] for an index [n]. *)
Definition str_of_nat (n : nat) : str := digits (Nat.to_uint n).

Definition MAX_COLS_PER_ROW : nat := 6.

(** [-(-num_words // MAX_COLS_PER_ROW)]: [//] rounds down, as [Z.div]. *)
Definition num_rows (num_words : nat) : Z :=
  (- ((- Z.of_nat num_words) / Z.of_nat MAX_COLS_PER_ROW))%Z.

(** One [col.button]: its label, its widget key, the word its callback
    passes to [handle_word_click], and whether its type is 'primary'. *)
Record button : Type := {
  label : list N;
  key : list N;
  on_click : list N;
  primary : bool
}.

Section WithUnicode.
Context {U : UnicodeDB}.

Definition word_button (active_translation_word : option str) (word_idx : nat)
    (word_to_display : str) : button :=
  {| label := word_to_display;
     key := u "word_" ++ str_of_nat word_idx ++ u "_" ++ lower word_to_display;
     on_click := word_to_display;
     primary := match active_translation_word with
                | Some active => str_eqb active word_to_display
                | None => false
                end |}.

(** One column of a row.  The state is [word_idx] and the cells of the row
    drawn so far; a column past the last word stays empty.  Indexing the
    list outside its range raises an [IndexError]. *)
Definition draw_col (active_translation_word : option str)
    (display_words_list : list str) (st : nat * list (option button))
  : result (nat * list (option button)) :=
  let word_idx := fst st in
  if (word_idx <? List.length display_words_list)%nat then
    match display_words_list !! word_idx with
    | Some word_to_display =>
        ok (S word_idx,
            snd st ++ [Some (word_button active_translation_word word_idx word_to_display)])
    | None => raise OtherException
    end
  else ok (word_idx, snd st ++ [None]).

(** One row: [st.columns(MAX_COLS_PER_ROW)] and the loop over them. *)
Definition draw_row (active_translation_word : option str)
    (display_words_list : list str) (word_idx : nat)
  : result (nat * list (option button)) :=
  fold_left (fun acc _ => rbind acc (draw_col active_translation_word display_words_list))
    (seq 0 MAX_COLS_PER_ROW) (ok (word_idx, [])).

(** The loop over [range(num_rows)], from [word_idx = 0]. *)
Definition draw_rows (active_translation_word : option str)
    (display_words_list : list str) (rows : list nat)
    (st : result (nat * list (list (option button))))
  : result (nat * list (list (option button))) :=
  fold_left
    (fun acc _ =>
       rbind acc (fun st =>
       rbind (draw_row active_translation_word display_words_list (fst st)) (fun row =>
       ok (fst row, snd st ++ [snd row]))))
    rows st.

Definition word_grid (active_translation_word : option str)
    (display_words_list : list str) : result (list (list (option button))) :=
  let num_words := List.length display_words_list in
  rbind (draw_rows active_translation_word display_words_list
           (seq 0 (Z.to_nat (num_rows num_words))) (ok (O, [])))
    (fun st => ok (snd st)).

(** What is drawn between the two dividers. *)
Inductive words_panel : Type :=
| PanelHidden
| NoWordsFound
| Grid (rows : list (list (option button))).

Definition render_words_panel (s : session) : result words_panel :=
  if show_word_buttons s && truthy (input_sentence s) then
    let display_words_list := word_buttons (input_sentence s) in
    if negb (truthy display_words_list) then ok NoWordsFound
    else rbind (word_grid (active_translation_word s) display_words_list) (fun rows =>
         ok (Grid rows))
  else ok PanelHidden.

(** The button in row [i] and column [j] of a grid, if there is one. *)
Definition button_at (rows : list (list (option button))) (i j : nat) : option button :=
  match rows !! i with
  | Some row => match row !! j with Some c => c | None => None end
  | None => None
  end.

(** The cell of the grid at position [k], counted row by row. *)
Definition cell (active_translation_word : option str) (display_words_list : list str)
    (k : nat) : option button :=
  word_button active_translation_word k <$> display_words_list !! k.

End WithUnicode.

End WordGrid.

(* ===================================================================== *)
(** * Part II: theorems                                                    *)
(* ===================================================================== *)

(** ** Facts about the regex engine *)

Module ReFacts.
Import Py Re.

Lemma greedy_sound p s m rest :
  In (m, rest) (greedy p s) -> s = m ++ rest.
Proof.
  revert m rest. induction s as [|c s IH]; simpl; intros m rest Hin.
  - destruct Hin as [[= <- <-]|[]]. reflexivity.
  - destruct (p c).
    + apply in_app_or in Hin. destruct Hin as [Hin|[[= <- <-]|[]]]; [|reflexivity].
      apply in_map_iff in Hin. destruct Hin as [[m' r'] [[= <- <-] Hin]].
      simpl. f_equal. apply IH, Hin.
    + destruct Hin as [[= <- <-]|[]]. reflexivity.
Qed.

Section WithUnicode.
Context {U : UnicodeDB}.

(** Every match reads a prefix of the text at the cursor. *)
Lemma rmatch_sound r : forall prev s m rest,
  In (m, rest) (rmatch r prev s) -> s = m ++ rest.
Proof.
  induction r as [|p|p|p| | | |r1 IH1 r2 IH2|r1 IH1 r2 IH2|r IH];
    simpl; intros prev s m rest Hin.
  - destruct Hin as [[= <- <-]|[]]. reflexivity.
  - destruct s as [|c s]; [destruct Hin|].
    destruct (p c); [|destruct Hin].
    destruct Hin as [[= <- <-]|[]]. reflexivity.
  - eapply greedy_sound, Hin.
  - destruct s as [|c s]; [destruct Hin|].
    destruct (p c); [|destruct Hin].
    apply in_map_iff in Hin. destruct Hin as [[m' r'] [[= <- <-] Hin]].
    simpl. f_equal. eapply greedy_sound, Hin.
  - destruct prev; [destruct Hin|].
    destruct Hin as [[= <- <-]|[]]. reflexivity.
  - destruct (at_end s); [|destruct Hin].
    destruct Hin as [[= <- <-]|[]]. reflexivity.
  - destruct (word_boundary prev s); [|destruct Hin].
    destruct Hin as [[= <- <-]|[]]. reflexivity.
  - apply in_flat_map in Hin. destruct Hin as [[m1 s1] [H1 H2]].
    apply in_map_iff in H2. destruct H2 as [[m2 s2] [[= <- <-] H2]].
    simpl in *. apply IH1 in H1. apply IH2 in H2. subst. now rewrite app_assoc.
  - apply in_app_or in Hin. destruct Hin as [Hin|Hin]; eauto.
  - eauto.
Qed.

Lemma match_at_sound r prev s adv m rest :
  match_at r prev s adv = Some (m, rest) -> s = m ++ rest.
Proof.
  unfold match_at. intros H. apply find_some in H. destruct H as [H _].
  eapply rmatch_sound, H.
Qed.

Lemma search_sound r : forall s prev adv g m rest,
  search r prev s adv = Some (g, m, rest) -> s = g ++ m ++ rest.
Proof.
  induction s as [|c s IH]; simpl; intros prev adv g m rest H.
  - destruct (match_at r prev [] adv) as [[m' r']|] eqn:E; [|discriminate].
    injection H as <- <- <-. apply match_at_sound in E. exact E.
  - destruct (match_at r prev (c :: s) adv) as [[m' r']|] eqn:E.
    + injection H as <- <- <-. apply match_at_sound in E. exact E.
    + destruct (search r (Some c) s false) as [[[g' m'] r']|] eqn:E'; [|discriminate].
      injection H as <- <- <-. apply IH in E'. simpl. now f_equal.
Qed.

(** The gaps, the matches and the tail, read in order, are the text. *)
Lemma finditer_fuel_concat r : forall fuel prev s adv,
  flat_map (fun h => fst h ++ snd h) (fst (finditer_fuel fuel r prev s adv))
    ++ snd (finditer_fuel fuel r prev s adv) = s.
Proof.
  induction fuel as [|fuel IH]; simpl; intros prev s adv; [reflexivity|].
  destruct (search r prev s adv) as [[[g m] rest]|] eqn:E; [|reflexivity].
  simpl. rewrite <- !app_assoc, IH. symmetry. eapply search_sound, E.
Qed.

Lemma concat_gaps_and_hits (hits : list (list N * list N)) :
  concat (flat_map (fun h => [fst h; snd h]) hits)
  = flat_map (fun h => fst h ++ snd h) hits.
Proof.
  induction hits as [|h l IH]; simpl; [reflexivity|].
  now rewrite IH, <- app_assoc.
Qed.

Lemma concat_split r s : concat (Re.split r s) = s.
Proof.
  unfold Re.split, finditer. rewrite concat_app, concat_gaps_and_hits. simpl.
  rewrite app_nil_r. apply finditer_fuel_concat.
Qed.

(** A search that must advance does not report an empty match where it
    started. *)
Lemma search_advances r prev s m rest :
  search r prev s true = Some ([], m, rest) -> truthy m = true.
Proof.
  destruct s as [|c s]; cbn [search]; unfold match_at;
    destruct (List.find _ (rmatch r prev _)) as [[m' r']|] eqn:E.
  - intros [= <- <-]. apply find_some in E as [_ E]. exact E.
  - discriminate.
  - intros [= <- <-]. apply find_some in E as [_ E]. exact E.
  - destruct (search r (Some c) s false) as [[[g' m'] r']|]; discriminate.
Qed.

(** The fuel of [finditer] is never used up: more fuel gives the same
    matches. *)
Lemma finditer_fuel_enough r : forall fuel prev s adv,
  (2 * length s + (if adv : bool then 1 else 2) <= fuel)%nat ->
  finditer_fuel (S fuel) r prev s adv = finditer_fuel fuel r prev s adv.
Proof.
  induction fuel as [|fuel IH]; intros prev s adv Hfuel.
  - destruct adv; lia.
  - cbn [finditer_fuel]. destruct (search r prev s adv) as [[[g m] rest]|] eqn:E;
      [|reflexivity].
    pose proof (search_sound _ _ _ _ _ _ _ E) as Hs.
    assert (Hlen : length s = (length g + length m + length rest)%nat)
      by (rewrite Hs, !length_app; lia).
    rewrite <- (IH (last_or prev (g ++ m)) rest (negb (truthy m))); [reflexivity|].
    destruct m as [|c m]; cbn [truthy negb length] in *.
    + destruct g as [|d g]; cbn [length] in *.
      * destruct adv; [|lia]. apply search_advances in E. discriminate.
      * destruct adv; lia.
    + destruct adv; lia.
Qed.

Lemma finditer_more_fuel r s extra :
  finditer_fuel (2 * length s + 2 + extra) r None s false = finditer r s.
Proof.
  unfold finditer. induction extra as [|k IH]; [now rewrite Nat.add_0_r|].
  rewrite Nat.add_succ_r, finditer_fuel_enough; [exact IH|]. lia.
Qed.

End WithUnicode.

End ReFacts.

Module TokenizerFacts.
Import Runs Py Re WordTokenizer ReFacts.

Lemma last_or_app prev a b : last_or prev (a ++ b) = last_or (last_or prev a) b.
Proof. unfold last_or. apply fold_left_app. Qed.

Lemma last_or_cons prev c m : last_or prev (c :: m) = last_or (Some c) m.
Proof. reflexivity. Qed.

Section WithUnicode.
Context {U : UnicodeDB}.

(** Of the ways [\w+] can read a run of word characters only the longest
    one ends at a word boundary. *)
Lemma greedy_then_boundary prev : forall s pre,
  opt_word (last_or prev pre) = true ->
  flat_map
    (fun r => List.map (fun q => (fst r ++ fst q, snd q))
                (rmatch WordB (last_or prev (fst r)) (snd r)))
    (List.map (fun r => (pre ++ fst r, snd r)) (greedy is_word s))
  = [(pre ++ take_while is_word s, drop_while is_word s)].
Proof.
  induction s as [|c s IH]; intros pre Hpre.
  - cbn [greedy List.map flat_map fst snd rmatch app].
    rewrite !app_nil_r. unfold word_boundary. rewrite Hpre. simpl.
    now rewrite app_nil_r.
  - cbn [greedy take_while drop_while]. destruct (is_word c) eqn:Hc.
    + rewrite List.map_app, flat_map_app.
      cbn [List.map flat_map fst snd rmatch app].
      rewrite !app_nil_r.
      unfold word_boundary at 2. cbn [head opt_word]. rewrite Hpre, Hc.
      cbn [xorb List.map]. rewrite app_nil_r, List.map_map.
      rewrite (map_ext _ (fun r => ((pre ++ [c]) ++ fst r, snd r))).
      2:{ intros [m r]. cbn [push fst snd]. now rewrite <- app_assoc. }
      rewrite IH.
      * now rewrite <- app_assoc.
      * rewrite last_or_app. exact Hc.
    + cbn [List.map flat_map fst snd rmatch app].
      rewrite !app_nil_r. unfold word_boundary. cbn [head opt_word].
      rewrite Hpre, Hc. simpl. now rewrite app_nil_r.
Qed.

Lemma rmatch_seq r1 r2 prev s :
  rmatch (Seq r1 r2) prev s =
  flat_map
    (fun r => List.map (fun q => (fst r ++ fst q, snd q))
                (rmatch r2 (last_or prev (fst r)) (snd r)))
    (rmatch r1 prev s).
Proof. reflexivity. Qed.

Lemma rmatch_word_run prev s :
  rmatch (Seq (Plus is_word) WordB) prev s =
  match s with
  | c :: s' =>
      if is_word c then [(c :: take_while is_word s', drop_while is_word s')] else []
  | [] => []
  end.
Proof.
  rewrite rmatch_seq. destruct s as [|c s]; [reflexivity|].
  cbn [rmatch]. destruct (is_word c) eqn:Hc; [|reflexivity].
  rewrite (map_ext (push c) (fun r => ([c] ++ fst r, snd r))) by (intros []; reflexivity).
  apply (greedy_then_boundary prev s [c]). exact Hc.
Qed.

(** The matches of [\b\w+\b] at the cursor: none, or the whole run of word
    characters that starts there. *)
Lemma rmatch_word_re prev s :
  rmatch word_re prev s =
  match s with
  | c :: s' =>
      if is_word c && negb (opt_word prev)
      then [(c :: take_while is_word s', drop_while is_word s')]
      else []
  | [] => []
  end.
Proof.
  unfold word_re. rewrite rmatch_seq.
  change (rmatch WordB prev s)
    with (if word_boundary prev s then [(@nil N, s)] else []).
  destruct (word_boundary prev s) eqn:Hb; cbn [flat_map fst snd last_or fold_left].
  - rewrite rmatch_word_run, app_nil_r. destruct s as [|c s]; [reflexivity|].
    unfold word_boundary in Hb. cbn [head opt_word] in Hb.
    destruct (is_word c); [|reflexivity].
    destruct (opt_word prev); [discriminate|]. reflexivity.
  - destruct s as [|c s]; [reflexivity|].
    unfold word_boundary in Hb. cbn [head opt_word] in Hb.
    destruct (is_word c); [|reflexivity].
    destruct (opt_word prev); [reflexivity|discriminate].
Qed.

Lemma head_drop_while_word s : opt_word (head (drop_while is_word s)) = false.
Proof.
  induction s as [|c s IH]; [reflexivity|]. cbn [drop_while].
  destruct (is_word c) eqn:Hc; [exact IH|]. cbn [head opt_word]. exact Hc.
Qed.

(** A search for [\b\w+\b] that does not start inside a word skips
    characters that are no word characters and stops at a whole word. *)
Lemma search_word_re : forall s prev,
  (opt_word prev = true -> opt_word (head s) = false) ->
  match search word_re prev s false with
  | Some (g, m, rest) =>
      existsb is_word g = false /\ existsb is_word m = true
      /\ opt_word (head rest) = false
  | None => existsb is_word s = false
  end.
Proof.
  induction s as [|c s IH]; intros prev Hinv.
  - cbn [search]. unfold match_at. rewrite rmatch_word_re. reflexivity.
  - cbn [search]. unfold match_at. rewrite rmatch_word_re.
    destruct (is_word c) eqn:Hc; cbn [andb].
    + destruct (opt_word prev) eqn:Hp.
      * specialize (Hinv eq_refl). cbn [head opt_word] in Hinv. congruence.
      * cbn [negb List.find fst orb]. repeat split.
        -- cbn [existsb]. now rewrite Hc.
        -- apply head_drop_while_word.
    + cbn [List.find]. specialize (IH (Some c)).
      destruct (search word_re (Some c) s false) as [[[g m] rest]|].
      * destruct IH as (Hg & Hm & Hr); [cbn [opt_word]; congruence|].
        repeat split; [|exact Hm|exact Hr]. cbn [existsb]. now rewrite Hc, Hg.
      * cbn [existsb]. rewrite Hc. apply IH. cbn [opt_word]. congruence.
Qed.

(** All the matches of [\b\w+\b] in a text contain a word character, and
    neither the gaps between them nor the tail contain one. *)
Lemma finditer_word_re : forall fuel s prev,
  (length s < fuel)%nat ->
  (opt_word prev = true -> opt_word (head s) = false) ->
  Forall (fun h => existsb is_word (fst h) = false /\ existsb is_word (snd h) = true)
    (fst (finditer_fuel fuel word_re prev s false))
  /\ existsb is_word (snd (finditer_fuel fuel word_re prev s false)) = false.
Proof.
  induction fuel as [|fuel IH]; intros s prev Hlen Hinv; [lia|].
  cbn [finditer_fuel]. pose proof (search_word_re s prev Hinv) as Hs.
  destruct (search word_re prev s false) as [[[g m] rest]|] eqn:E.
  - destruct Hs as (Hg & Hm & Hr). apply search_sound in E.
    destruct m as [|c m]; [discriminate|]. cbn [truthy negb fst snd].
    destruct (IH rest (last_or prev (g ++ c :: m))) as [Hhits Htail].
    + subst s. rewrite !length_app in Hlen. cbn [length] in Hlen. lia.
    + intros _. exact Hr.
    + split; [|exact Htail]. constructor; [|exact Hhits]. split; assumption.
  - split; [constructor|exact Hs].
Qed.

End WithUnicode.
End TokenizerFacts.

Module TokenizerSpec.
Import Runs Py Re WordTokenizer ReFacts TokenizerFacts.

Section WithUnicode.
Context {U : UnicodeDB}.

(** A group does not change what a pattern matches. *)
Lemma search_grp r : forall s prev adv,
  search (Grp r) prev s adv = search r prev s adv.
Proof.
  induction s as [|c s IH]; intros prev adv; cbn [search]; [reflexivity|].
  rewrite IH. reflexivity.
Qed.

Lemma finditer_fuel_grp r : forall fuel prev s adv,
  finditer_fuel fuel (Grp r) prev s adv = finditer_fuel fuel r prev s adv.
Proof.
  induction fuel as [|fuel IH]; intros prev s adv; cbn [finditer_fuel]; [reflexivity|].
  rewrite search_grp. destruct (search r prev s adv) as [[[g m] rest]|]; [|reflexivity].
  now rewrite IH.
Qed.

(** [re.search] with a one-character class finds a match exactly when some
    character of the text is in the class. *)
Lemma found_cls p : forall s prev,
  match search (Cls p) prev s false with Some _ => true | None => false end
  = existsb p s.
Proof.
  induction s as [|c s IH]; intros prev; [reflexivity|].
  cbn [search existsb]. unfold match_at. cbn [rmatch].
  destruct (p c); [reflexivity|]. cbn [List.find orb].
  rewrite <- (IH (Some c)).
  destruct (search (Cls p) (Some c) s false) as [[[g m] rest]|]; reflexivity.
Qed.

Lemma filter_word_parts (hits : list (list N * list N)) (tail : list N) :
  Forall (fun h => existsb is_word (fst h) = false /\ existsb is_word (snd h) = true) hits ->
  existsb is_word tail = false ->
  List.filter (found (Cls is_word))
    (List.filter truthy (flat_map (fun h => [fst h; snd h]) hits ++ [tail]))
  = List.map snd hits.
Proof.
  intros Hhits Htail. unfold found.
  induction Hhits as [|[g m] hits [Hg Hm] _ IH]; cbn [flat_map app fst snd List.map].
  - destruct tail as [|c t]; [reflexivity|]. cbn [List.filter truthy].
    rewrite found_cls, Htail. reflexivity.
  - assert (Hrest : forall l, List.filter (fun s => match search (Cls is_word) None s false with
                                          | Some _ => true | None => false end)
                      (List.filter truthy (g :: m :: l))
                    = m :: List.filter (fun s => match search (Cls is_word) None s false with
                                          | Some _ => true | None => false end)
                      (List.filter truthy l)).
    { cbn [fst snd] in Hg, Hm. intros l. destruct m as [|c m]; [discriminate|].
      destruct g as [|d g]; cbn [List.filter truthy].
      - now rewrite found_cls, Hm.
      - now rewrite !found_cls, Hg, Hm. }
    rewrite Hrest, IH. reflexivity.
Qed.

End WithUnicode.

(** C1. For every sentence, the empty one included, the parts returned by
    [split_sentence_with_delimiters] concatenate to the sentence, and none
    of them is the empty string. *)
Theorem split_sentence_with_delimiters_lossless {U : UnicodeDB} (sentence : list N) :
  concat (split_sentence_with_delimiters sentence) = sentence
  /\ Forall (fun part => part <> []) (split_sentence_with_delimiters sentence).
Proof.
  unfold split_sentence_with_delimiters. destruct sentence as [|c s]; cbn [truthy negb].
  - split; [reflexivity|constructor].
  - split.
    + rewrite <- (concat_split (Grp word_re) (c :: s)) at 2.
      induction (Re.split (Grp word_re) (c :: s)) as [|part parts IH]; [reflexivity|].
      cbn [List.filter]. destruct part as [|d part]; cbn [truthy concat]; [exact IH|].
      now rewrite IH.
    + apply Forall_forall. intros part Hin.
      apply list_elem_of_In, filter_In in Hin. destruct Hin as [_ Hpart].
      destruct part; [discriminate|easy].
Qed.

(** C10. The parts of [split_sentence_with_delimiters] that contain a word
    character are, in order, the words [tokenize_sentence] returns; this is
    also what the page computes with [re.search] as
    [words_with_original_case]. *)
Theorem word_parts_are_tokens {U : UnicodeDB} (sentence : list N) :
  List.filter (existsb is_word) (split_sentence_with_delimiters sentence)
  = tokenize_sentence sentence
  /\ App.words_with_original_case sentence = tokenize_sentence sentence.
Proof.
  assert (H : List.filter (found (Cls is_word)) (split_sentence_with_delimiters sentence)
              = tokenize_sentence sentence).
  { unfold split_sentence_with_delimiters, tokenize_sentence.
    destruct (negb (truthy sentence)); [reflexivity|].
    unfold Re.split, findall, finditer. rewrite finditer_fuel_grp.
    destruct (finditer_word_re (2 * length sentence + 2) sentence None) as [Hhits Htail];
      [lia|discriminate|].
    apply filter_word_parts; assumption. }
  split; [|exact H]. rewrite <- H. apply filter_ext. intros part.
  unfold found. now rewrite found_cls.
Qed.

End TokenizerSpec.

(** ** Running handlers *)

Module EffectsFacts.
Import Py Effects.

(** Running [p] and then [f]: the calls of [p] come first, and [f] starts
    from the state and the call count [p] left. *)
Lemma run_bind {S A B} (w : world) (p : prog S A) (f : A -> prog S B) :
  forall n s,
    run w n (p ≫= f) s =
    let o1 := run w n p s in
    let o2 := run w (n + length (calls o1)) (f (returned o1)) (final o1) in
    {| returned := returned o2; final := final o2; calls := calls o1 ++ calls o2 |}.
Proof.
  induction p as [a|q k IH|k IH|s' k IH]; intros n s.
  - cbn. rewrite Nat.add_0_r. now destruct (run w n (f a) s).
  - change (run w n (Call q k ≫= f) s)
      with (logged (q, s) (run w (Datatypes.S n) (k (w n q) ≫= f) s)).
    rewrite IH. cbn. now rewrite Nat.add_succ_r.
  - apply (IH s).
  - apply IH.
Qed.

Lemma run_modify {S} (w : world) (f : S -> S) n s :
  run w n (modify f) s = {| returned := tt; final := f s; calls := [] |}.
Proof. reflexivity. Qed.

Lemma run_ret {S A} (w : world) (a : A) n (s : S) :
  run w n (mret a) s = {| returned := a; final := s; calls := [] |}.
Proof. reflexivity. Qed.

End EffectsFacts.

(** ** Facts about Python's string methods *)

Module PyFacts.
Import Runs Py.

Lemma take_drop_while {A} (p : A -> bool) (l : list A) :
  l = take_while p l ++ drop_while p l.
Proof.
  induction l as [|x l IH]; [reflexivity|]. cbn.
  destruct (p x); [|reflexivity]. cbn. now f_equal.
Qed.

Lemma take_while_all {A} (p : A -> bool) (l : list A) :
  forallb p (take_while p l) = true.
Proof.
  induction l as [|x l IH]; [reflexivity|]. cbn.
  destruct (p x) eqn:E; [|reflexivity]. cbn. now rewrite E.
Qed.

Lemma strip_prefix_some p : forall s r, strip_prefix p s = Some r -> s = p ++ r.
Proof.
  induction p as [|a p IH]; intros s r H; cbn in H.
  - now injection H as <-.
  - destruct s as [|b s]; [discriminate|].
    destruct (a =? b) eqn:E; [|discriminate].
    apply N.eqb_eq in E. subst b. cbn. f_equal. now apply IH.
Qed.

Lemma strip_prefix_app p : forall s r y,
  strip_prefix p s = Some r -> strip_prefix p (s ++ y) = Some (r ++ y).
Proof.
  induction p as [|a p IH]; intros s r y H; cbn in H.
  - injection H as <-. reflexivity.
  - destruct s as [|b s]; [discriminate|]. cbn.
    destruct (a =? b); [|discriminate]. now apply IH.
Qed.

(** [cut] finds an occurrence. *)
Lemma cut_some sep : forall s b a, cut sep s = Some (b, a) -> s = b ++ sep ++ a.
Proof.
  induction s as [|c s IH]; intros b a H; cbn in H.
  - destruct (strip_prefix sep []) as [r|] eqn:E; [|discriminate].
    injection H as <- <-. now apply strip_prefix_some in E.
  - destruct (strip_prefix sep (c :: s)) as [r|] eqn:E.
    + injection H as <- <-. now apply strip_prefix_some in E.
    + destruct (cut sep s) as [[b' a']|] eqn:E'; [|discriminate].
      injection H as <- <-. cbn. f_equal. now apply IH.
Qed.

(** A text without [sep] has no part with [sep]. *)
Lemma cut_none_app_l sep : forall x y, cut sep (x ++ y) = None -> cut sep x = None.
Proof.
  induction x as [|c x IH]; intros y H.
  - cbn. destruct (strip_prefix sep []) as [r|] eqn:E; [|reflexivity].
    apply (strip_prefix_app _ _ _ y) in E. cbn [app] in *.
    destruct y; cbn in H; rewrite E in H; discriminate.
  - cbn [app] in H. cbn in *.
    destruct (strip_prefix sep (c :: x)) as [r|] eqn:E.
    + apply (strip_prefix_app _ _ _ y) in E. cbn [app] in E. rewrite E in H. discriminate.
    + destruct (strip_prefix sep (c :: x ++ y)); [discriminate|].
      destruct (cut sep (x ++ y)) as [[b a]|] eqn:E'; [discriminate|].
      now rewrite (IH y E').
Qed.

Lemma cut_none_app_r sep : forall x y, cut sep (x ++ y) = None -> cut sep y = None.
Proof.
  induction x as [|c x IH]; intros y H; [exact H|].
  cbn [app] in H. cbn in H.
  destruct (strip_prefix sep (c :: x ++ y)); [discriminate|].
  destruct (cut sep (x ++ y)) as [[b a]|] eqn:E'; [discriminate|].
  now apply IH.
Qed.

(** The occurrence [cut] finds is the first one. *)
Lemma cut_before sep : sep <> [] ->
  forall s b a, cut sep s = Some (b, a) -> cut sep b = None.
Proof.
  intros Hsep. induction s as [|c s IH]; intros b a H; cbn in H.
  - destruct (strip_prefix sep []) as [r|] eqn:E; [|discriminate].
    injection H as <- <-. destruct sep; [congruence|reflexivity].
  - destruct (strip_prefix sep (c :: s)) as [r|] eqn:E.
    + injection H as <- <-. destruct sep; [congruence|reflexivity].
    + destruct (cut sep s) as [[b' a']|] eqn:E'; [|discriminate].
      injection H as <- <-. pose proof (cut_some _ _ _ _ E') as Hs.
      cbn. rewrite (IH _ _ eq_refl).
      destruct (strip_prefix sep (c :: b')) as [r|] eqn:E2; [|reflexivity].
      apply (strip_prefix_app _ _ _ (sep ++ a')) in E2. cbn [app] in E2.
      rewrite <- Hs in E2. congruence.
Qed.

(** [s.split(sep)[0]] is the text before the first [sep]. *)
Lemma first_split sep s : sep <> [] ->
  contains sep (first (split sep s)) = false
  /\ exists rest, s = first (split sep s) ++ rest.
Proof.
  intros Hsep. unfold split, contains. destruct s as [|c s].
  - cbn. split; [|now exists []]. destruct sep; [congruence|reflexivity].
  - cbn [length split_fuel].
    destruct (cut sep (c :: s)) as [[b a]|] eqn:E; cbn [first].
    + split; [now rewrite (cut_before sep Hsep _ _ _ E)|].
      exists (sep ++ a). now apply cut_some.
    + split; [now rewrite E|]. exists []. now rewrite app_nil_r.
Qed.

(** The fuel of [split] is never used up. *)
Lemma split_fuel_enough sep : sep <> [] ->
  forall fuel s, (length s <= fuel)%nat ->
    split_fuel (S fuel) sep s = split_fuel fuel sep s.
Proof.
  intros Hsep. induction fuel as [|fuel IH]; intros s Hlen.
  - destruct s; [|cbn in Hlen; lia]. cbn. destruct sep; [congruence|reflexivity].
  - cbn [split_fuel]. destruct (cut sep s) as [[b a]|] eqn:E; [|reflexivity].
    rewrite <- IH; [reflexivity|]. apply cut_some in E. subst s.
    rewrite !length_app in Hlen. destruct sep; [congruence|]. cbn [length] in Hlen. lia.
Qed.

Section WithUnicode.
Context {U : UnicodeDB}.

(** [s.strip()] is [s] without white space at both ends. *)
Lemma strip_inside (s : list N) :
  exists ws1 ws2,
    s = ws1 ++ strip s ++ ws2
    /\ forallb is_space ws1 = true /\ forallb is_space ws2 = true.
Proof.
  unfold strip, rstrip, lstrip.
  exists (take_while is_space s),
         (rev (take_while is_space (rev (drop_while is_space s)))).
  split; [|split].
  - rewrite <- rev_app_distr, <- take_drop_while, rev_involutive.
    apply take_drop_while.
  - apply take_while_all.
  - apply forallb_forall. intros x Hin. apply in_rev in Hin.
    revert x Hin. apply forallb_forall, take_while_all.
Qed.

End WithUnicode.
End PyFacts.

(** ** The word buttons *)

Module WordButtons.
Import Py Re WordTokenizer App.

Section WithUnicode.
Context {U : UnicodeDB}.



Lemma dedup_state_snoc words w :
  dedup_state (words ++ [w]) = dedup_step (dedup_state words) w.
Proof. unfold dedup_state. now rewrite fold_left_app. Qed.

(** The tracker holds exactly the lowercase forms seen so far. *)
Lemma tracker_keys (words : list (list N)) (k : list N) :
  fst (dedup_state words) !! k = None <-> k ∉ lower <$> words.
Proof.
  induction words as [|w words IH] using rev_ind.
  - cbn. rewrite lookup_empty. split; [intros _; apply not_elem_of_nil|reflexivity].
  - rewrite dedup_state_snoc, fmap_app, not_elem_of_app. cbn [fmap list_fmap].
    unfold dedup_step.
    destruct (fst (dedup_state words) !! lower w) as [x|] eqn:E; cbn [fst].
    + rewrite IH. split; [|tauto]. intros Hk. split; [exact Hk|].
      intros Hin. apply list_elem_of_singleton in Hin. subst k.
      apply IH in Hk. congruence.
    + destruct (decide (k = lower w)) as [->|Hne].
      * rewrite lookup_insert_eq. split; [discriminate|].
        intros [_ Hn]. exfalso. apply Hn, list_elem_of_singleton. reflexivity.
      * rewrite lookup_insert_ne by congruence. rewrite IH.
        split; [|tauto]. intros Hk. split; [exact Hk|].
        intros Hin. apply list_elem_of_singleton in Hin. congruence.
Qed.

(** A word is appended exactly when no earlier word has its lowercase
    form. *)
Lemma display_words_list_snoc (words : list (list N)) (w : list N) :
  display_words_list (words ++ [w]) =
  if bool_decide (lower w ∈ lower <$> words) then display_words_list words
  else display_words_list words ++ [w].
Proof.
  unfold display_words_list.
  rewrite dedup_state_snoc. unfold dedup_step.
  pose proof (tracker_keys words (lower w)) as Hk.
  destruct (fst (dedup_state words) !! lower w) as [x|] eqn:E.
  - rewrite bool_decide_eq_true_2; [reflexivity|].
    destruct (decide (lower w ∈ lower <$> words)) as [|Hn]; [assumption|].
    apply Hk in Hn. discriminate.
  - rewrite bool_decide_eq_false_2; [reflexivity|]. now apply Hk.
Qed.

(** The buttons carry the same lowercase forms as the words. *)
Lemma display_words_list_keys (words : list (list N)) (k : list N) :
  k ∈ lower <$> display_words_list words <-> k ∈ lower <$> words.
Proof.
  induction words as [|w words IH] using rev_ind; [reflexivity|].
  rewrite display_words_list_snoc, (fmap_app _ words), (elem_of_app (lower <$> words)).
  cbn [fmap list_fmap]. case_bool_decide as Hw.
  - rewrite IH. split; [tauto|]. intros [H|H]; [exact H|].
    apply list_elem_of_singleton in H. now subst k.
  - rewrite fmap_app, elem_of_app, IH. reflexivity.
Qed.

Lemma display_words_list_NoDup (words : list (list N)) :
  NoDup (lower <$> display_words_list words).
Proof.
  induction words as [|w words IH] using rev_ind; [constructor|].
  rewrite display_words_list_snoc. case_bool_decide as Hw; [exact IH|].
  rewrite fmap_app. apply NoDup_app. split; [exact IH|]. split.
  - intros k Hk Hin. apply list_elem_of_singleton in Hin. subst k.
    apply Hw, display_words_list_keys, Hk.
  - apply NoDup_singleton.
Qed.

Lemma display_words_list_sublist (words : list (list N)) :
  sublist (display_words_list words) words.
Proof.
  induction words as [|w words IH] using rev_ind; [constructor|].
  rewrite display_words_list_snoc. case_bool_decide as Hw.
  - now apply sublist_inserts_r.
  - now apply sublist_app.
Qed.

End WithUnicode.

(** C5. The word buttons are deduplicated on the lowercase form of the
    words: a word is kept, in its own casing and in its place, exactly when
    no earlier word has the same lowercase form; so no two buttons share a
    lowercase form and the buttons are a subsequence of the words.  For
    'Der Hund und der Hund' the buttons are Der, Hund, und. *)
Theorem display_words_list_first_seen {U : UnicodeDB} :
  display_words_list [] = []
  /\ (forall (words : list (list N)) (w : list N),
        display_words_list (words ++ [w]) =
        if bool_decide (lower w ∈ lower <$> words) then display_words_list words
        else display_words_list words ++ [w])
  /\ (forall words : list (list N),
        NoDup (lower <$> display_words_list words)
        /\ sublist (display_words_list words) words)
  /\ word_buttons (u "Der Hund und der Hund") = [u "Der"; u "Hund"; u "und"].
Proof.
  split; [reflexivity|]. split; [apply display_words_list_snoc|]. split.
  - intros words. split; [apply display_words_list_NoDup|apply display_words_list_sublist].
  - vm_compute. reflexivity.
Qed.

End WordButtons.

(** ** The translation client *)

Module TranslationSpec.
Import Py Effects TranslationApi EffectsFacts PyFacts Scenarios.

Section WithUnicode.
Context {U : UnicodeDB}.

Lemma run_translate_text_empty {S} (w : world) n (s : S) src tgt :
  run w n (translate_text [] src tgt) s
  = {| returned := inr VNone; final := s; calls := [] |}.
Proof. reflexivity. Qed.

(** A non-empty text costs one request, and the reply decides the result. *)
Lemma run_translate_text {S} (w : world) n (s : S) c text src tgt :
  run w n (translate_text (c :: text) src tgt) s
  = {| returned := translation_of (w n (translation_request (c :: text) src tgt));
       final := s;
       calls := [(translation_request (c :: text) src tgt, s)] |}.
Proof. reflexivity. Qed.

Lemma translation_of_text (response : http_response) (data rd : pyval) (t : list N) :
  status_ok response = true ->
  json_body response = inr data ->
  dict_get (u "responseData") (VDict []) data = inr rd ->
  dict_get (u "translatedText") VNone rd = inr (VStr t) ->
  truthy t = true ->
  translation_of (inr response) =
  inr (VStr (if contains (u "MYMEMORY WARNING") t
             then strip (first (Py.split (u " MT ") (first (Py.split (u " NMT") t))))
             else t)).
Proof.
  intros Hst Hjs Hrd Ht Hne. unfold translation_of, raise_for_status. cbn [rbind].
  rewrite Hst, Hjs. cbn [rbind ok]. unfold extract_translation.
  rewrite Hrd. cbn [rbind]. rewrite Ht. cbn [rbind truthy_val val_contains ok].
  rewrite Hne. destruct (contains (u "MYMEMORY WARNING") t); reflexivity.
Qed.

(** What the warning branch returns: the text at the start of [t], cut
    before the first ' NMT' and the first ' MT ', without the white space
    around it. *)
Lemma warning_cut (t : list N) :
  let r := strip (first (Py.split (u " MT ") (first (Py.split (u " NMT") t)))) in
  contains (u " NMT") r = false /\ contains (u " MT ") r = false
  /\ exists ws rest, t = ws ++ r ++ rest /\ forallb is_space ws = true.
Proof.
  set (a := first (Py.split (u " NMT") t)).
  set (b := first (Py.split (u " MT ") a)). intros r.
  destruct (first_split (u " NMT") t) as [Ha [ra Hta]]; [discriminate|].
  destruct (first_split (u " MT ") a) as [Hb [rb Hab]]; [discriminate|].
  destruct (strip_inside b) as (ws1 & ws2 & Hbr & Hws1 & _).
  fold a in Ha, Hta. fold b in Hb, Hab. fold r in Hbr.
  assert (Hcut : forall sep, contains sep b = false -> contains sep r = false).
  { intros sep. unfold contains. rewrite Hbr at 1.
    destruct (cut sep (ws1 ++ r ++ ws2)) eqn:E; [discriminate|]. intros _.
    apply cut_none_app_r in E. apply cut_none_app_l in E. now rewrite E. }
  split; [|split].
  - apply Hcut. unfold contains in *. rewrite Hab in Ha.
    destruct (cut (u " NMT") (b ++ rb)) eqn:E; [discriminate|].
    apply cut_none_app_l in E. now rewrite E.
  - now apply Hcut.
  - exists ws1, (ws2 ++ rb ++ ra). split; [|exact Hws1].
    rewrite Hta, Hab, Hbr at 1. now rewrite <- !app_assoc.
Qed.

End WithUnicode.

#[local] Existing Instance ascii_only.

(** C3, as the claim states it, fails: a translated text 'Hallo NMT' carries
    no 'MYMEMORY WARNING' and comes back whole. *)
Lemma translate_text_keeps_hallo_nmt :
  returned (run (provider_says (u "Hallo NMT")) 0
              (translate_text (u "Hallo") (u "de") (u "en")) tt)
  = inr (VStr (u "Hallo NMT"))
  /\ VStr (u "Hallo NMT") <> VStr (u "Hallo").
Proof. split; [vm_compute; reflexivity|discriminate]. Qed.

(** C3, amended.  When the translated text of the response is a non-empty
    string [t]: if [t] contains 'MYMEMORY WARNING', [translate_text] returns
    [t] cut before its first ' NMT', then before the first ' MT ', then
    stripped of white space, a text that starts [t] after leading white
    space and contains neither ' NMT' nor ' MT '; otherwise it returns [t]
    unchanged.  So 'Hallo NMT MYMEMORY WARNING' gives 'Hallo', and 'Hallo NMT'
    gives 'Hallo NMT'. *)
Theorem translate_text_strips_marked_warning {U : UnicodeDB} :
  (forall (response : http_response) (data rd : pyval) (t : list N),
     status_ok response = true ->
     json_body response = inr data ->
     dict_get (u "responseData") (VDict []) data = inr rd ->
     dict_get (u "translatedText") VNone rd = inr (VStr t) ->
     truthy t = true ->
     exists r,
       translation_of (inr response) = inr (VStr r)
       /\ if contains (u "MYMEMORY WARNING") t
          then r = strip (first (Py.split (u " MT ") (first (Py.split (u " NMT") t))))
               /\ contains (u " NMT") r = false /\ contains (u " MT ") r = false
               /\ exists ws rest, t = ws ++ r ++ rest /\ forallb is_space ws = true
          else r = t)
  /\ (forall (S : Type) (s : S) (w : world) (n : nat) (c : N) (text src tgt : list N),
        returned (run w n (translate_text (c :: text) src tgt) s)
        = translation_of (w n (translation_request (c :: text) src tgt)))
  /\ translation_of
       (inr {| status_ok := true;
               json_body := inr (provider_json (u "Hallo NMT MYMEMORY WARNING")) |})
     = inr (VStr (u "Hallo"))
  /\ translation_of
       (inr {| status_ok := true; json_body := inr (provider_json (u "Hallo NMT")) |})
     = inr (VStr (u "Hallo NMT")).
Proof.
  split; [|split; [|split]].
  - intros response data rd t Hst Hjs Hrd Ht Hne.
    rewrite (translation_of_text response data rd t Hst Hjs Hrd Ht Hne).
    eexists. split; [reflexivity|].
    destruct (contains (u "MYMEMORY WARNING") t); [|reflexivity].
    split; [reflexivity|]. apply warning_cut.
  - reflexivity.
  - vm_compute. reflexivity.
  - vm_compute. reflexivity.
Qed.

(** The amended C3 at the marked text 'Hallo NMT MYMEMORY WARNING'. *)
Lemma translate_text_strips_marked_warning_witness :
  exists r,
    translation_of
      (inr {| status_ok := true;
              json_body := inr (provider_json (u "Hallo NMT MYMEMORY WARNING")) |})
    = inr (VStr r)
    /\ if contains (u "MYMEMORY WARNING") (u "Hallo NMT MYMEMORY WARNING")
       then r = strip (first (Py.split (u " MT ")
                        (first (Py.split (u " NMT") (u "Hallo NMT MYMEMORY WARNING")))))
            /\ contains (u " NMT") r = false /\ contains (u " MT ") r = false
            /\ exists ws rest, u "Hallo NMT MYMEMORY WARNING" = ws ++ r ++ rest
                               /\ forallb is_space ws = true
       else r = u "Hallo NMT MYMEMORY WARNING".
Proof.
  apply (proj1 (@translate_text_strips_marked_warning ascii_only)
           {| status_ok := true;
              json_body := inr (provider_json (u "Hallo NMT MYMEMORY WARNING")) |}
           (provider_json (u "Hallo NMT MYMEMORY WARNING"))
           (VDict [(u "translatedText", VStr (u "Hallo NMT MYMEMORY WARNING"))])
           (u "Hallo NMT MYMEMORY WARNING"));
    reflexivity.
Defined.

(** C7. [translate_text] returns [None] for the empty text without any
    call, and, for a non-empty text, makes one request and returns [None],
    and does not raise, when the request times out, when it fails with a
    network error, when the HTTP status is an error, when the body is not
    JSON, and when the JSON object lacks [responseData] or its
    [translatedText].  Of the exceptions [requests.get] can raise only a
    [ValueError] is not turned into [None]: the clause that catches it reads
    the response, which is not bound then, and an [UnboundLocalError] leaves
    [translate_text]. *)
Theorem translate_text_failure_is_none {U : UnicodeDB} :
  (forall (S : Type) (w : world) (n : nat) (s : S) (src tgt : list N),
     run w n (translate_text [] src tgt) s
     = {| returned := inr VNone; final := s; calls := [] |})
  /\ (forall (S : Type) (w : world) (n : nat) (s : S) (c : N) (text src tgt : list N),
        run w n (translate_text (c :: text) src tgt) s
        = {| returned := translation_of (w n (translation_request (c :: text) src tgt));
             final := s;
             calls := [(translation_request (c :: text) src tgt, s)] |})
  /\ translation_of (inl Timeout) = inr VNone
  /\ translation_of (inl RequestException) = inr VNone
  /\ (forall e : exn, e <> ValueError -> translation_of (inl e) = inr VNone)
  /\ translation_of (inl ValueError) = inl UnboundLocalError
  /\ (forall body : result pyval,
        translation_of (inr {| status_ok := false; json_body := body |}) = inr VNone)
  /\ (forall e : exn,
        translation_of (inr {| status_ok := true; json_body := inl e |}) = inr VNone)
  /\ (forall kvs : list (list N * pyval),
        assoc (u "responseData") kvs = None ->
        translation_of (inr {| status_ok := true; json_body := inr (VDict kvs) |})
        = inr VNone)
  /\ (forall kvs kvs' : list (list N * pyval),
        assoc (u "responseData") kvs = Some (VDict kvs') ->
        assoc (u "translatedText") kvs' = None ->
        translation_of (inr {| status_ok := true; json_body := inr (VDict kvs) |})
        = inr VNone).
Proof.
  split; [reflexivity|]. split; [reflexivity|]. split; [reflexivity|].
  split; [reflexivity|]. split; [intros [] H; try reflexivity; now destruct H|].
  split; [reflexivity|]. split; [reflexivity|]. split; [now intros []|]. split.
  - intros kvs H. unfold translation_of, raise_for_status, extract_translation, dict_get.
    cbn [rbind status_ok json_body ok]. rewrite H. reflexivity.
  - intros kvs kvs' H H'.
    unfold translation_of, raise_for_status, extract_translation, dict_get.
    cbn [rbind status_ok json_body ok]. rewrite H. cbn [rbind]. rewrite H'. reflexivity.
Qed.

(** C7 at the JSON object [{}], which has no [responseData]. *)
Lemma translate_text_failure_is_none_witness :
  translation_of (inr {| status_ok := true; json_body := inr (VDict []) |}) = inr VNone.
Proof.
  destruct (@translate_text_failure_is_none ascii_only)
    as (_ & _ & _ & _ & _ & _ & _ & _ & H & _).
  apply (H []). reflexivity.
Defined.

End TranslationSpec.

(** ** Speech synthesis *)

Module TtsSpec.
Import Py Effects TtsUtils EffectsFacts Scenarios.

Section Backends.
Context {S : Type} (cfg : tts_config) (w : world) (n : nat) (s : S) (text lang : list N).

(** The Hugging Face back end makes no call when it is not ready or the text
    is empty, and one call otherwise; it leaves the session alone. *)
Lemma run_hf :
  run w n (_generate_speech_audio_hf cfg text) s =
  if negb (hf_libraries_installed cfg && hf_processor cfg && hf_model cfg)
     || negb (truthy text)
  then {| returned := no_audio; final := s; calls := [] |}
  else {| returned :=
            match w n (HfSynthesize text) with
            | inr audio_bytes =>
                (Some audio_bytes, Some (u "audio/wav"), Some (u "Hugging Face"))
            | inl _ => no_audio
            end;
          final := s;
          calls := [(HfSynthesize text, s)] |}.
Proof.
  unfold _generate_speech_audio_hf.
  destruct (negb (hf_libraries_installed cfg && hf_processor cfg && hf_model cfg)
            || negb (truthy text)); reflexivity.
Qed.

Lemma run_gtts :
  run w n (_generate_speech_audio_gtts cfg text lang) s =
  if negb (gtts_installed cfg && truthy text)
  then {| returned := no_audio; final := s; calls := [] |}
  else {| returned :=
            match w n (GttsSynthesize text lang) with
            | inr audio_bytes => (Some audio_bytes, Some (u "audio/mp3"), Some (u "gTTS"))
            | inl _ => no_audio
            end;
          final := s;
          calls := [(GttsSynthesize text lang, s)] |}.
Proof.
  unfold _generate_speech_audio_gtts.
  destruct (negb (gtts_installed cfg && truthy text)); reflexivity.
Qed.

(** A back end gives audio with its format and its name, or nothing. *)
Lemma gtts_all_or_nothing :
  returned (run w n (_generate_speech_audio_gtts cfg text lang) s) = no_audio
  \/ exists b, returned (run w n (_generate_speech_audio_gtts cfg text lang) s)
               = (Some b, Some (u "audio/mp3"), Some (u "gTTS")).
Proof.
  rewrite run_gtts. destruct (negb (gtts_installed cfg && truthy text)); [now left|].
  cbn [returned]. destruct (w n (GttsSynthesize text lang)); [now left|right; eauto].
Qed.

Lemma hf_all_or_nothing :
  returned (run w n (_generate_speech_audio_hf cfg text) s) = no_audio
  \/ exists b, returned (run w n (_generate_speech_audio_hf cfg text) s)
               = (Some b, Some (u "audio/wav"), Some (u "Hugging Face")).
Proof.
  rewrite run_hf.
  destruct (negb (hf_libraries_installed cfg && hf_processor cfg && hf_model cfg)
            || negb (truthy text)); [now left|].
  cbn [returned]. destruct (w n (HfSynthesize text)); [now left|right; eauto].
Qed.

Lemma primary_all_or_nothing :
  returned (run w n (primary_audio cfg text lang) s) = no_audio
  \/ exists b f e, returned (run w n (primary_audio cfg text lang) s)
                   = (Some b, Some f, Some e).
Proof.
  unfold primary_audio.
  destruct (str_eqb (TTS_ENGINE cfg) (u "huggingface") && hf_libraries_installed cfg
            && hf_processor cfg && hf_model cfg).
  - destruct hf_all_or_nothing as [H|[b H]]; [now left|right; eauto].
  - destruct (str_eqb (TTS_ENGINE cfg) (u "gtts") && gtts_installed cfg).
    + destruct gtts_all_or_nothing as [H|[b H]]; [now left|right; eauto].
    + now left.
Qed.

(** [generate_speech_audio], step by step. *)
Lemma run_generate_speech_audio :
  let p := run w n (primary_audio cfg text lang) s in
  let f := run w (n + length (calls p)) (_generate_speech_audio_gtts cfg text lang)
             (final p) in
  run w n (generate_speech_audio cfg text lang) s =
  if is_none (fst (fst (returned p))) && gtts_installed cfg
  then {| returned := (fst (fst (returned f)), snd (fst (returned f)),
                       tag_fallback (snd (returned f)));
          final := final f;
          calls := calls p ++ calls f |}
  else p.
Proof.
  intros p f. unfold generate_speech_audio. rewrite run_bind. fold p. cbv zeta.
  destruct (is_none (fst (fst (returned p))) && gtts_installed cfg).
  - rewrite run_bind. fold f. cbn. now rewrite app_nil_r.
  - cbn. rewrite app_nil_r. now destruct p.
Qed.

Lemma primary_final : final (run w n (primary_audio cfg text lang) s) = s.
Proof.
  unfold primary_audio.
  destruct (str_eqb (TTS_ENGINE cfg) (u "huggingface") && hf_libraries_installed cfg
            && hf_processor cfg && hf_model cfg).
  - rewrite run_hf.
    now destruct (negb (hf_libraries_installed cfg && hf_processor cfg && hf_model cfg)
                  || negb (truthy text)).
  - destruct (str_eqb (TTS_ENGINE cfg) (u "gtts") && gtts_installed cfg); [|reflexivity].
    rewrite run_gtts. now destruct (negb (gtts_installed cfg && truthy text)).
Qed.

End Backends.

(** C6. [generate_speech_audio] runs the configured primary back end
    first.  If that gives audio, its result is returned.  If it gives none
    (it failed or is not available) and gTTS is installed, gTTS is run next
    and its result is returned, with the engine name of a success tagged
    'gTTS (Fallback)'.  The result is [(None, None, None)] only if the
    primary back end gave none and gTTS is not installed or gave none. *)
Theorem generate_speech_audio_falls_back (S : Type) (cfg : tts_config) (w : world)
    (n : nat) (s : S) (text lang : list N) :
  let p := run w n (primary_audio cfg text lang) s in
  let f := run w (n + length (calls p)) (_generate_speech_audio_gtts cfg text lang) s in
  let o := run w n (generate_speech_audio cfg text lang) s in
  (exists later, calls o = calls p ++ later)
  /\ (TTS_ENGINE cfg = u "huggingface" ->
      hf_libraries_installed cfg && hf_processor cfg && hf_model cfg = true ->
      truthy text = true ->
      calls p = [(HfSynthesize text, s)]
      /\ returned p = match w n (HfSynthesize text) with
                      | inr audio_bytes =>
                          (Some audio_bytes, Some (u "audio/wav"), Some (u "Hugging Face"))
                      | inl _ => no_audio
                      end)
  /\ (fst (fst (returned p)) <> None -> o = p)
  /\ (fst (fst (returned p)) = None -> gtts_installed cfg = true ->
      returned o = (fst (fst (returned f)), snd (fst (returned f)),
                    tag_fallback (snd (returned f)))
      /\ calls o = calls p ++ calls f
      /\ (truthy text = true ->
          calls f = [(GttsSynthesize text lang, s)]
          /\ returned o = match w (n + length (calls p))%nat (GttsSynthesize text lang) with
                          | inr audio_bytes =>
                              (Some audio_bytes, Some (u "audio/mp3"),
                               Some (u "gTTS (Fallback)"))
                          | inl _ => no_audio
                          end))
  /\ (returned o = no_audio ->
      returned p = no_audio /\ (gtts_installed cfg = false \/ returned f = no_audio)).
Proof.
  intros p f o.
  pose proof (run_generate_speech_audio cfg w n s text lang) as Ho. cbv zeta in Ho.
  rewrite (primary_final cfg w n s text lang) in Ho. fold p f o in Ho.
  split; [|split; [|split; [|split]]].
  - rewrite Ho. destruct (is_none _ && _); cbn [calls]; [eauto|].
    exists []. now rewrite app_nil_r.
  - intros He Hready Hne. subst p. unfold primary_audio.
    unfold str_eqb. rewrite He, bool_decide_eq_true_2 by reflexivity.
    apply andb_true_iff in Hready as [Hready Hm]. apply andb_true_iff in Hready as [Hl Hp].
    rewrite Hl, Hp, Hm. cbn [andb]. rewrite run_hf, Hl, Hp, Hm, Hne. cbn.
    split; reflexivity.
  - intros Hsome. rewrite Ho. destruct (fst (fst (returned p))); [reflexivity|congruence].
  - intros Hnone Hg. rewrite Ho, Hnone, Hg. cbn [is_none andb returned calls].
    split; [reflexivity|]. split; [reflexivity|]. intros Hne. subst f.
    rewrite run_gtts, Hg, Hne. cbn. split; [reflexivity|].
    now destruct (w (n + length (calls p))%nat (GttsSynthesize text lang)).
  - intros Habs. rewrite Ho in Habs.
    destruct (primary_all_or_nothing cfg w n s text lang) as [Hp|(b & fm & e & Hp)];
      fold p in Hp; rewrite Hp in Habs; cbn [fst is_none andb] in Habs.
    + split; [exact Hp|]. destruct (gtts_installed cfg); [right|now left].
      cbn [returned] in Habs.
      destruct (gtts_all_or_nothing cfg w (n + length (calls p)) s text lang)
        as [Hf|[b Hf]]; fold f in Hf; [exact Hf|].
      rewrite Hf in Habs. discriminate.
    + rewrite Hp in Habs. discriminate.
Qed.

(** C6 when the Hugging Face model is loaded but fails and gTTS works: the
    MP3 bytes of gTTS come back under the name 'gTTS (Fallback)'. *)
Lemma generate_speech_audio_falls_back_witness :
  returned (run (only_gtts [73; 68; 51]) 0
              (generate_speech_audio all_loaded (u "Hund") (u "de")) tt)
  = (Some [73; 68; 51], Some (u "audio/mp3"), Some (u "gTTS (Fallback)")).
Proof.
  apply (proj1 (proj2 (proj2 (proj2
           (generate_speech_audio_falls_back unit all_loaded (only_gtts [73; 68; 51])
              0 tt (u "Hund") (u "de")))))); reflexivity.
Defined.

End TtsSpec.

(** ** The page state machine *)

Module AppSpec.
Import Py Effects TranslationApi OllamaUtils TtsUtils App EffectsFacts Scenarios TtsSpec.

(** The cases of a click: the translation of the word, the example, and
    the translation of the example. *)
Ltac click_cases :=
  destruct (translation_of _) as [?e|?t];
  [|destruct (example_result _) as [[|?d ?ex]|];
    [|destruct (translation_of _) as [?e|?t]|]].


Section WithUnicode.
Context {U : UnicodeDB}.

(** A click on a non-empty word, call by call.  Where [translate_text]
    raises, the click ends there. *)
Lemma run_handle_word_click (w : world) (n : nat) (c : N) (rest : list N) (s : session) :
  let word := c :: rest in
  let s1 := word_reset word s in
  let q1 := translation_request word (u "de") (u "en") in
  let q2 := example_request word in
  run w n (handle_word_click word) s =
  match translation_of (w n q1) with
  | inl e => {| returned := inl e; final := s1; calls := [(q1, s1)] |}
  | inr english_translation =>
      let s2 := set_word_translation_result
                  (Some (word, or_marker english_translation (u "[Translation Failed]")))
                  s1 in
      let example := example_result (w (S n) q2) in
      let s3 := set_german_example_sentence_result example s2 in
      match example with
      | Some (d :: ex) =>
          let q3 := translation_request (d :: ex) (u "de") (u "en") in
          match translation_of (w (S (S n)) q3) with
          | inl e =>
              {| returned := inl e; final := s3;
                 calls := [(q1, s1); (q2, s2); (q3, s3)] |}
          | inr english_example_translation =>
              {| returned := inr tt;
                 final := set_english_example_translation_result
                            (or_marker english_example_translation
                               (u "[Example Translation Failed]")) s3;
                 calls := [(q1, s1); (q2, s2); (q3, s3)] |}
          end
      | _ =>
          {| returned := inr tt;
             final := set_english_example_translation_result VNone s3;
             calls := [(q1, s1); (q2, s2)] |}
      end
  end.
Proof.
  cbv zeta. unfold handle_word_click.
  cbn -[translation_of example_result or_marker translation_request example_request u].
  destruct (translation_of (w n (translation_request (c :: rest) (u "de") (u "en"))))
    as [e|english_translation];
    cbn -[translation_of example_result or_marker translation_request example_request u];
    [reflexivity|].
  destruct (example_result (w (S n) (example_request (c :: rest)))) as [[|d ex]|];
    cbn -[translation_of example_result or_marker translation_request example_request u];
    try reflexivity.
  destruct (translation_of _) as [e|english_example_translation]; reflexivity.
Qed.

(** A click on the empty word makes no call. *)
Lemma run_handle_word_click_empty (w : world) (n : nat) (s : session) :
  run w n (handle_word_click []) s =
  {| returned := inr tt;
     final := set_english_example_translation_result VNone
                (set_german_example_sentence_result None
                   (set_word_translation_result
                      (Some ([], VStr (u "[Translation Failed]"))) (word_reset [] s)));
     calls := [] |}.
Proof. reflexivity. Qed.

Lemma word_reset_same_inputs word a b :
  same_inputs a b -> word_reset word a = word_reset word b.
Proof.
  intros (H1 & H2 & H3 & H4). destruct a, b. cbn in H1, H2, H3, H4. subst.
  reflexivity.
Qed.

(** The click does not read the old results. *)
Lemma handle_word_click_same_inputs (w : world) n word a b :
  same_inputs a b ->
  run w n (handle_word_click word) a = run w n (handle_word_click word) b.
Proof.
  intros H. destruct word as [|c rest].
  - rewrite !run_handle_word_click_empty. now rewrite (word_reset_same_inputs [] a b H).
  - rewrite !run_handle_word_click. cbv zeta.
    now rewrite (word_reset_same_inputs (c :: rest) a b H).
Qed.

(** At every call of a click, and at its end, the active word is the
    clicked word and a stored word translation is one for that word. *)
Lemma handle_word_click_states (w : world) n word s :
  let o := run w n (handle_word_click word) s in
  Forall (fun s' => active_translation_word s' = Some word
                    /\ (word_translation_result s' = None
                        \/ exists t, word_translation_result s' = Some (word, t))
                    /\ sentence_translation_result s' = VNone
                    /\ tts_audio_bytes s' = None)
    (List.map snd (calls o) ++ [final o]).
Proof.
  assert (Hone : forall s', active_translation_word s' = Some word ->
            (word_translation_result s' = None
             \/ exists t, word_translation_result s' = Some (word, t)) ->
            sentence_translation_result s' = VNone -> tts_audio_bytes s' = None ->
            active_translation_word s' = Some word
            /\ (word_translation_result s' = None
                \/ exists t, word_translation_result s' = Some (word, t))
            /\ sentence_translation_result s' = VNone
            /\ tts_audio_bytes s' = None) by (intros; repeat split; assumption).
  destruct word as [|c rest]; cbv zeta.
  - rewrite run_handle_word_click_empty. cbn [calls final List.map app].
    apply List.Forall_cons; [|apply List.Forall_nil].
    apply Hone; try reflexivity. right. eexists. reflexivity.
  - rewrite run_handle_word_click. cbv zeta.
    click_cases; cbn [calls final List.map app snd];
      repeat (apply List.Forall_cons; [apply Hone; try reflexivity|]);
      try apply List.Forall_nil;
      first [now left | right; eexists; reflexivity].
Qed.

(** The first call of a click is issued from a session without results. *)
Lemma handle_word_click_first_call (w : world) n word s q s' :
  head (calls (run w n (handle_word_click word) s)) = Some (q, s') ->
  s' = word_reset word s
  /\ active_translation_word s' = Some word /\ results_cleared s'.
Proof.
  destruct word as [|c rest].
  - rewrite run_handle_word_click_empty. discriminate.
  - rewrite run_handle_word_click. cbv zeta.
    click_cases; cbn [calls head]; intros [= <- <-]; repeat split.
Qed.

Lemma run_modify_then {A} (w : world) n (f : session -> session)
    (k : prog session A) s :
  run w n (modify f ;; k) s = run w n k (f s).
Proof. reflexivity. Qed.

(** Synthesis leaves the session alone. *)
Lemma generate_speech_audio_final {S} cfg (w : world) n (s : S) text lang :
  final (run w n (generate_speech_audio cfg text lang) s) = s.
Proof.
  pose proof (run_generate_speech_audio cfg w n s text lang) as H. cbv zeta in H.
  rewrite H. destruct (is_none _ && _); [|apply primary_final].
  cbn [final]. rewrite run_gtts.
  destruct (negb (gtts_installed cfg && truthy text)); apply primary_final.
Qed.

(** A pronunciation click changes the audio fields only. *)
Lemma handle_tts_click_final cfg (w : world) n text lang s :
  exists b f,
    final (run w n (handle_tts_click cfg text lang) s)
    = set_tts_audio_format f (set_tts_audio_bytes b s).
Proof.
  unfold handle_tts_click. destruct text as [|c text]; cbn [truthy negb].
  - exists (tts_audio_bytes s), (tts_audio_format s). now destruct s.
  - rewrite !run_modify_then, run_bind. cbv zeta. rewrite generate_speech_audio_final. cbn [final].
    destruct (truthy_opt _ && truthy_opt _); cbn [run final mbind prog_bind bind modify];
      eexists _, _; destruct s; reflexivity.
Qed.

(** A full-sentence translation drops the word results and writes the
    sentence result. *)
Lemma translate_full_sentence_final (w : world) n s :
  exists t,
    final (run w n translate_full_sentence s)
    = set_sentence_translation_result t
        (set_tts_audio_bytes None
        (set_english_example_translation_result VNone
        (set_german_example_sentence_result None
        (set_word_translation_result None
        (set_active_translation_word None s))))).
Proof.
  unfold translate_full_sentence. destruct (input_sentence s) as [|c text] eqn:E.
  - eexists. cbn -[u or_marker]. rewrite E. cbn -[u or_marker]. reflexivity.
  - cbn -[u or_marker translation_of translation_request]. rewrite E.
    cbn -[u or_marker translation_of translation_request].
    destruct (translation_of _) as [e|t];
      cbn -[u or_marker translation_of translation_request].
    + exists (sentence_translation_result s). now destruct s.
    + eexists. reflexivity.
Qed.

Lemma coherent_ext (a b : session) :
  active_translation_word a = active_translation_word b ->
  word_translation_result a = word_translation_result b ->
  german_example_sentence_result a = german_example_sentence_result b ->
  english_example_translation_result a = english_example_translation_result b ->
  coherent a -> coherent b.
Proof. unfold coherent. intros -> -> -> ->. trivial. Qed.

Lemma coherent_no_word (s : session) :
  word_translation_result s = None ->
  german_example_sentence_result s = None ->
  english_example_translation_result s = VNone ->
  coherent s.
Proof.
  unfold coherent. intros -> -> ->. repeat split; congruence.
Qed.

Lemma handle_word_click_coherent (w : world) n word s :
  coherent (final (run w n (handle_word_click word) s)).
Proof.
  destruct word as [|c rest].
  - rewrite run_handle_word_click_empty. cbn [final]. unfold coherent. cbn.
    repeat split; congruence.
  - rewrite run_handle_word_click. cbv zeta.
    click_cases; cbn [final]; unfold coherent; cbn; repeat split; congruence.
Qed.

(** Every session the page can reach is coherent. *)
Lemma reachable_coherent cfg (s : session) : reachable cfg s -> coherent s.
Proof.
  induction 1 as [|w a s s' _ IH Hstep].
  - now apply coherent_no_word.
  - destruct a as [text| |word| |text lang]; cbn [perform] in Hstep; unfold ok in Hstep.
    + unfold update_input_state, ok in Hstep. cbn [sentence_input_widget
        set_sentence_input_widget default input_sentence] in Hstep.
      destruct (negb _); injection Hstep as <-.
      * now apply coherent_no_word.
      * revert IH. now apply coherent_ext.
    + injection Hstep as <-. unfold toggle_words.
      destruct (show_word_buttons s); cbn [negb show_word_buttons set_show_word_buttons].
      * now apply coherent_no_word.
      * revert IH. now apply coherent_ext.
    + assert (E : final (run w 0 (handle_word_click word) s) = s') by congruence.
      rewrite <- E. apply handle_word_click_coherent.
    + assert (E : final (run w 0 translate_full_sentence s) = s') by congruence.
      rewrite <- E. destruct (translate_full_sentence_final w 0 s) as [t ->].
      now apply coherent_no_word.
    + assert (E : final (run w 0 (handle_tts_click cfg text lang) s) = s') by congruence.
      rewrite <- E. destruct (handle_tts_click_final cfg w 0 text lang s) as (b & f & ->).
      revert IH. now apply coherent_ext.
Qed.

(** The result area shows a translation only for the active word. *)
Lemma render_word_translated (s : session) word t :
  render_word s = inr (Translated word t) ->
  active_translation_word s = Some word /\ word_translation_result s = Some (word, t).
Proof.
  unfold render_word.
  destruct (active_translation_word s) as [a|]; [|discriminate].
  destruct (truthy a); [|discriminate].
  destruct (word_translation_result s) as [[a' t']|]; [|discriminate].
  unfold str_eqb. case_bool_decide as Ha; [|discriminate]. subst a'.
  destruct (truthy_val t'); [|discriminate].
  destruct (val_contains (u "[Translation Failed]") t') as [e|[]]; cbn [rbind];
    [discriminate|discriminate|]. now intros [= <- <-].
Qed.

Lemma handle_word_click_stored (w : world) n word s :
  word_translation_result (final (run w n (handle_word_click word) s))
  = match returned (run w n (translate_text word (u "de") (u "en")) (word_reset word s)) with
    | inr t => Some (word, or_marker t (u "[Translation Failed]"))
    | inl _ => None
    end
  /\ show_word_buttons (final (run w n (handle_word_click word) s)) = show_word_buttons s.
Proof.
  destruct word as [|c rest].
  - rewrite run_handle_word_click_empty. split; reflexivity.
  - rewrite run_handle_word_click. cbv zeta.
    rewrite TranslationSpec.run_translate_text. cbn [returned].
    click_cases; split; reflexivity.
Qed.

End WithUnicode.

#[local] Existing Instance ascii_only.

(** C4. A click on [word] first makes [word] the active word and clears
    the word translation, both example fields, the sentence translation and
    the audio bytes: the first request of the click is issued from that
    state, at every request and at the end the active word is [word] and a
    stored translation is one for [word], and the run does not depend on the
    results of the session it started from.  So every session the page can
    reach is coherent, and the result area shows a translation only when it
    was stored for the active word. *)
Theorem handle_word_click_clears_stale_results {U : UnicodeDB} :
  (forall (w : world) (n : nat) (word : list N) (s : session),
     let o := run w n (handle_word_click word) s in
     (forall q s', head (calls o) = Some (q, s') ->
                   s' = word_reset word s
                   /\ active_translation_word s' = Some word /\ results_cleared s')
     /\ Forall (fun s' => active_translation_word s' = Some word
                          /\ (word_translation_result s' = None
                              \/ exists t, word_translation_result s' = Some (word, t))
                          /\ sentence_translation_result s' = VNone
                          /\ tts_audio_bytes s' = None)
          (List.map snd (calls o) ++ [final o])
     /\ audio_shown (final o) = false
     /\ (forall s0, same_inputs s0 s -> run w n (handle_word_click word) s0 = o))
  /\ (forall (cfg : TtsUtils.tts_config) (s : session), reachable cfg s -> coherent s)
  /\ (forall (s : session) (word : list N) (t : pyval),
        render_word s = inr (Translated word t) ->
        active_translation_word s = Some word
        /\ word_translation_result s = Some (word, t)).
Proof.
  split; [|split].
  - intros w n word s o. split; [|split; [|split]].
    + intros q s'. apply handle_word_click_first_call.
    + exact (handle_word_click_states w n word s).
    + pose proof (handle_word_click_states w n word s) as H. cbv zeta in H. fold o in H.
      apply Forall_app in H as [_ H]. apply Forall_cons in H as [(_ & _ & _ & H) _].
      unfold audio_shown. now rewrite H.
    + intros s0 H. now apply handle_word_click_same_inputs.
  - apply @reachable_coherent.
  - apply render_word_translated.
Qed.

(** C4 on a page that still holds the results of 'Hund' when 'Der' is
    clicked: the first request leaves from a session without results. *)
Lemma handle_word_click_clears_stale_results_witness :
  active_translation_word (word_reset (u "Der") editing_session) = Some (u "Der")
  /\ results_cleared (word_reset (u "Der") editing_session).
Proof.
  apply (proj1 (proj1 (@handle_word_click_clears_stale_results ascii_only)
                  (provider_says (u "the")) 0%nat (u "Der") editing_session)
           (translation_request (u "Der") (u "de") (u "en"))
           (word_reset (u "Der") editing_session)).
  reflexivity.
Defined.

(** C9. The word translation is stored before the example is asked for
    and nothing later in the click touches it: at the end of the click the
    session holds the translation of the clicked word (or the failure marker
    when the translation itself failed), whatever the replies to the example
    request and to the request for its translation are, also where the
    translation of the example raises, and the result area shows a
    translation that succeeded.  Nothing is stored only where the
    translation of the word itself raised. *)
Theorem word_translation_survives_example_failure {U : UnicodeDB}
    (w : world) (n : nat) (word : list N) (s : session) :
  let o := run w n (handle_word_click word) s in
  let t := returned (run w n (translate_text word (u "de") (u "en")) (word_reset word s)) in
  word_translation_result (final o)
  = match t with
    | inr v => Some (word, or_marker v (u "[Translation Failed]"))
    | inl _ => None
    end
  /\ (forall v : pyval,
        t = inr v -> truthy_val v = true ->
        word_translation_result (final o) = Some (word, v))
  /\ (forall w' : world,
        w' n (translation_request word (u "de") (u "en"))
        = w n (translation_request word (u "de") (u "en")) ->
        word_translation_result (final (run w' n (handle_word_click word) s))
        = word_translation_result (final o))
  /\ (forall text : list N,
        t = inr (VStr text) -> truthy text = true -> truthy word = true ->
        contains (u "[Translation Failed]") text = false ->
        render_word (final o) = inr (Translated word (VStr text))).
Proof.
  intros o t. destruct (handle_word_click_stored w n word s) as [Hw _].
  fold o t in Hw. split; [exact Hw|]. split; [|split].
  - intros v Ht Hv. rewrite Hw, Ht. unfold or_marker. now rewrite Hv.
  - intros w' Hsame. rewrite Hw.
    destruct (handle_word_click_stored w' n word s) as [Hw' _]. rewrite Hw'.
    subst t. destruct word as [|c rest]; [reflexivity|].
    rewrite !TranslationSpec.run_translate_text. cbn [returned]. now rewrite Hsame.
  - intros text Ht Htext Hword Hc.
    pose proof (handle_word_click_states w n word s) as H. cbv zeta in H. fold o in H.
    apply Forall_app in H as [_ H]. apply Forall_cons in H as [(Ha & _) _].
    unfold render_word. rewrite Ha, Hword, Hw, Ht. unfold or_marker, str_eqb.
    cbn [truthy_val]. rewrite Htext, bool_decide_eq_true_2 by reflexivity.
    cbn [truthy_val val_contains ok rbind]. rewrite Htext. cbn [rbind]. now rewrite Hc.
Qed.

(** C9 when the provider translates 'Hund' as 'dog' and Ollama is down:
    the page shows the translation. *)
Lemma word_translation_survives_example_failure_witness :
  render_word (final (run (provider_says (u "dog")) 0
                       (handle_word_click (u "Hund")) initial_session))
  = inr (Translated (u "Hund") (VStr (u "dog"))).
Proof.
  apply (proj2 (proj2 (proj2
           (@word_translation_survives_example_failure ascii_only
              (provider_says (u "dog")) 0%nat (u "Hund") initial_session)))
           (u "dog")); reflexivity.
Defined.

(** C2, as the claim states it, fails: on a page that shows the word
    buttons, a changed input hides them. *)
Lemma update_input_state_hides_words :
  exists s',
    update_input_state editing_session = inr s'
    /\ show_word_buttons editing_session = true
    /\ show_word_buttons s' = false.
Proof. eexists. split; [reflexivity|]. split; reflexivity. Qed.

(** C2, amended.  When the text of the text area differs from the stored
    sentence, the input-changed transition stores the text, clears the word
    translation, both example results, the sentence translation, the active
    word and the audio bytes, and sets the words-visible flag to false; when
    the text is the stored sentence it changes nothing.  The toggle action
    flips the flag and, when that hides the panel, clears the active word,
    the word translation, both example results and the audio bytes.  A word
    click, a full-sentence translation and a pronunciation click leave the
    flag as it is. *)
Theorem update_input_state_resets {U : UnicodeDB} :
  (forall (s : session) (text : list N),
     sentence_input_widget s = Some text -> text <> input_sentence s ->
     exists s',
       update_input_state s = inr s'
       /\ input_sentence s' = text
       /\ results_cleared s'
       /\ active_translation_word s' = None
       /\ show_word_buttons s' = false
       /\ tts_audio_format s' = tts_audio_format s
       /\ sentence_input_widget s' = sentence_input_widget s)
  /\ (forall s : session,
        sentence_input_widget s = Some (input_sentence s) -> update_input_state s = inr s)
  /\ (forall s : session,
        show_word_buttons (toggle_words s) = negb (show_word_buttons s)
        /\ (show_word_buttons s = false -> toggle_words s = set_show_word_buttons true s)
        /\ (show_word_buttons s = true ->
            active_translation_word (toggle_words s) = None
            /\ word_translation_result (toggle_words s) = None
            /\ german_example_sentence_result (toggle_words s) = None
            /\ english_example_translation_result (toggle_words s) = VNone
            /\ tts_audio_bytes (toggle_words s) = None
            /\ sentence_translation_result (toggle_words s) = sentence_translation_result s
            /\ input_sentence (toggle_words s) = input_sentence s))
  /\ (forall (cfg : TtsUtils.tts_config) (w : world) (n : nat) (s : session)
             (word text lang : list N),
        show_word_buttons (final (run w n (handle_word_click word) s)) = show_word_buttons s
        /\ show_word_buttons (final (run w n translate_full_sentence s)) = show_word_buttons s
        /\ show_word_buttons (final (run w n (handle_tts_click cfg text lang) s))
           = show_word_buttons s).
Proof.
  split; [|split; [|split]].
  - intros s text Hw Hne. unfold update_input_state. rewrite Hw. cbn [default from_option].
    unfold str_eqb. rewrite bool_decide_eq_false_2 by (intros H; apply Hne; now symmetry).
    cbn [negb].
    eexists. split; [reflexivity|]. repeat split. exact Hw.
  - intros s Hw. unfold update_input_state. rewrite Hw. cbn [default from_option].
    unfold str_eqb. now rewrite bool_decide_eq_true_2.
  - intros s. unfold toggle_words. destruct (show_word_buttons s) eqn:E; cbn;
      repeat split; intros; try reflexivity; try discriminate.
  - intros cfg w n s word text lang. split; [|split].
    + apply handle_word_click_stored.
    + now destruct (translate_full_sentence_final w n s) as [t ->].
    + now destruct (handle_tts_click_final cfg w n text lang s) as (b & f & ->).
Qed.

(** The amended C2 on the page that shows the buttons of 'Der Hund' while
    the text area holds 'Die Katze'. *)
Lemma update_input_state_resets_witness :
  exists s',
    update_input_state editing_session = inr s'
    /\ input_sentence s' = u "Die Katze"
    /\ results_cleared s'
    /\ active_translation_word s' = None
    /\ show_word_buttons s' = false
    /\ tts_audio_format s' = tts_audio_format editing_session
    /\ sentence_input_widget s' = sentence_input_widget editing_session.
Proof.
  apply (proj1 (@update_input_state_resets ascii_only) editing_session (u "Die Katze"));
    [reflexivity|discriminate].
Defined.

End AppSpec.

(** ** Greedy repetition and backtracking *)

Module GreedyFacts.
Import Runs Py Re PyFacts ReFacts TokenizerFacts.

Lemma drop_while_all {A} (p : A -> bool) (m rest : list A) :
  forallb p m = true -> drop_while p (m ++ rest) = drop_while p rest.
Proof.
  induction m as [|x m IH]; [reflexivity|]. cbn. intros H.
  apply andb_true_iff in H as [Hx Hm]. rewrite Hx. now apply IH.
Qed.

Lemma take_while_all_app {A} (p : A -> bool) (m rest : list A) :
  forallb p m = true -> take_while p (m ++ rest) = m ++ take_while p rest.
Proof.
  induction m as [|x m IH]; [reflexivity|]. cbn. intros H.
  apply andb_true_iff in H as [Hx Hm]. rewrite Hx. f_equal. now apply IH.
Qed.

Lemma forallb_drop_while {A} (p : A -> bool) (l : list A) :
  forallb p l = true <-> drop_while p l = [].
Proof.
  induction l as [|x l IH]; [easy|]. cbn. destruct (p x); cbn; [exact IH|easy].
Qed.

(** With no filter, the engine reports the first match in priority order. *)
Lemma match_at_head {U : UnicodeDB} r prev s :
  match_at r prev s false = head (rmatch r prev s).
Proof. unfold match_at. now destruct (rmatch r prev s). Qed.

Lemma flat_map_head {A B} (f : A -> list B) (x : A) (l : list A) :
  f x <> [] -> head (flat_map f (x :: l)) = head (f x).
Proof. cbn. destruct (f x); [congruence|reflexivity]. Qed.

Lemma flat_map_nil {A B} (f : A -> list B) (l : list A) :
  (forall x, In x l -> f x = []) -> flat_map f l = [].
Proof.
  induction l as [|x l IH]; [reflexivity|]. intros H. cbn.
  rewrite (H x) by now left. apply IH. intros y Hy. apply H. now right.
Qed.

(** Every way [p*] can read is a run of [p] characters. *)
Lemma greedy_all p : forall s m rest,
  In (m, rest) (greedy p s) -> forallb p m = true.
Proof.
  induction s as [|c s IH]; cbn; intros m rest Hin.
  - destruct Hin as [[= <- <-]|[]]. reflexivity.
  - destruct (p c) eqn:Hc.
    + apply in_app_or in Hin. destruct Hin as [Hin|[[= <- <-]|[]]]; [|reflexivity].
      apply in_map_iff in Hin. destruct Hin as [[m' r'] [[= <- <-] Hin]].
      cbn. rewrite Hc. eapply IH, Hin.
    + destruct Hin as [[= <- <-]|[]]. reflexivity.
Qed.

(** A greedy repetition tries the longest run first; every other way stops
    before a character it could have read. *)
Lemma greedy_longest_first p : forall s,
  exists others,
    greedy p s = (take_while p s, drop_while p s) :: others
    /\ forall m rest, In (m, rest) others ->
         exists c rest', rest = c :: rest' /\ p c = true.
Proof.
  induction s as [|c s (others & Hg & Ho)]; cbn.
  - exists []. split; [reflexivity|]. intros m rest [].
  - destruct (p c) eqn:Hc.
    + exists (List.map (push c) others ++ [([], c :: s)]). rewrite Hg. split; [reflexivity|].
      intros m rest Hin. apply in_app_or in Hin. destruct Hin as [Hin|[[= <- <-]|[]]].
      * apply in_map_iff in Hin. destruct Hin as [[m' r'] [[= <- <-] Hin]].
        eapply Ho, Hin.
      * eauto.
    + exists []. split; [reflexivity|]. intros m rest [].
Qed.

End GreedyFacts.

(** ** The two substitutions of the example generator *)

Module CleaningFacts.
Import Runs Py Re OllamaUtils CleaningSpec PyFacts ReFacts TokenizerFacts GreedyFacts.

Section WithUnicode.
Context {U : UnicodeDB}.

Lemma quote_class_cases c :
  quote_class c = true -> c = 34 \/ c = 96 \/ c = 39 \/ c = 42.
Proof.
  unfold quote_class, one_of, quote_chars. cbn [existsb].
  destruct (N.eqb_spec c 34); [tauto|]. destruct (N.eqb_spec c 96); [tauto|].
  destruct (N.eqb_spec c 39); [tauto|]. destruct (N.eqb_spec c 42); [tauto|].
  discriminate.
Qed.

Lemma quote_not_space c : quote_class c = true -> is_space c = false.
Proof. intros H. destruct (quote_class_cases c H) as [->|[->|[->| ->]]]; reflexivity. Qed.

Lemma quote_is_lead c : quote_class c = true -> lead_class c = true.
Proof. intros H. destruct (quote_class_cases c H) as [->|[->|[->| ->]]]; reflexivity. Qed.

Lemma space_is_lead c : is_space c = true -> lead_class c = true.
Proof. intros H. unfold lead_class. rewrite H. apply orb_true_r. Qed.

Lemma at_end_spaces t : at_end t = true -> drop_while is_space t = [].
Proof.
  destruct t as [|c [|d t]]; cbn; try easy.
  intros H. apply N.eqb_eq in H. now subst c.
Qed.

(** [\s*$]: white space up to the end, and nothing else. *)
Lemma rmatch_spaces_eol prev t :
  (drop_while is_space t = [] ->
   head (rmatch (Seq (Star is_space) Eol) prev t) = Some (t, []))
  /\ (drop_while is_space t <> [] -> rmatch (Seq (Star is_space) Eol) prev t = []).
Proof.
  rewrite rmatch_seq. change (rmatch (Star is_space) prev t) with (greedy is_space t).
  split; intros Ht.
  - destruct (greedy_longest_first is_space t) as (others & -> & _).
    rewrite Ht. rewrite flat_map_head; cbn [fst snd rmatch at_end]; [|discriminate].
    cbn. rewrite app_nil_r. f_equal. f_equal.
    rewrite (take_drop_while is_space t) at 2. now rewrite Ht, app_nil_r.
  - apply flat_map_nil. intros [m rest] Hin. cbn [fst snd rmatch].
    destruct (at_end rest) eqn:E; [|reflexivity]. exfalso. apply Ht.
    pose proof (greedy_sound _ _ _ _ Hin) as ->.
    rewrite drop_while_all by (eapply greedy_all, Hin). now apply at_end_spaces.
Qed.

(** [quotes+\s*$] matches at the cursor exactly when the text from the
    cursor on is a trailing run, and then it matches all of it. *)
Lemma rmatch_trailing prev s :
  let r := Seq (Plus quote_class) (Seq (Star is_space) Eol) in
  if is_trailing_run s then head (rmatch r prev s) = Some (s, [])
  else rmatch r prev s = [].
Proof.
  cbv zeta. rewrite rmatch_seq. destruct s as [|c s]; [reflexivity|].
  change (rmatch (Plus quote_class) prev (c :: s))
    with (if quote_class c then List.map (push c) (greedy quote_class s) else []).
  cbn [is_trailing_run]. destruct (quote_class c) eqn:Hc; [|reflexivity].
  cbn [andb drop_while]. rewrite Hc.
  destruct (greedy_longest_first quote_class s) as (others & -> & Ho).
  cbn [List.map push fst snd].
  destruct (forallb is_space (drop_while quote_class s)) eqn:Hsp.
  - apply forallb_drop_while in Hsp.
    destruct (rmatch_spaces_eol (last_or prev (c :: take_while quote_class s))
                (drop_while quote_class s)) as [Hh _].
    specialize (Hh Hsp).
    destruct (rmatch (Seq (Star is_space) Eol)
                (last_or prev (c :: take_while quote_class s))
                (drop_while quote_class s)) as [|q l] eqn:E; [discriminate|].
    injection Hh as ->. rewrite flat_map_head; unfold push; cbn [fst snd]; rewrite E;
      [|discriminate].
    cbn. f_equal. f_equal. f_equal. symmetry. apply take_drop_while.
  - apply flat_map_nil. intros [m rest] Hin. cbn [fst snd].
    assert (Hrest : drop_while is_space rest <> []).
    { destruct Hin as [[= <- <-]|Hin].
      - intros H. apply forallb_drop_while in H. congruence.
      - apply in_map_iff in Hin. destruct Hin as [[m' r'] [[= <- <-] Hin]].
        destruct (Ho _ _ Hin) as (d & r'' & -> & Hd). cbn.
        now rewrite (quote_not_space d Hd). }
    destruct (rmatch_spaces_eol (last_or prev m) rest) as [_ Hn].
    now rewrite (Hn Hrest).
Qed.

Lemma head_plus (q : N -> bool) prev c s :
  q c = true ->
  head (List.map (fun q0 : list N * list N => ([] ++ fst q0, snd q0))
          (rmatch (Plus q) prev (c :: s)))
  = Some (c :: take_while q s, drop_while q s).
Proof.
  intros Hc. cbn [rmatch]. rewrite Hc.
  destruct (greedy_longest_first q s) as (others & -> & _). reflexivity.
Qed.

(** [p*q+] where every [p] character is a [q] character: the match is the
    whole run of [q] characters at the cursor. *)
Lemma rmatch_star_plus (p q : N -> bool) :
  (forall c, p c = true -> q c = true) ->
  forall s prev,
    head (rmatch (Seq (Star p) (Plus q)) prev s)
    = match s with
      | c :: _ => if q c then Some (take_while q s, drop_while q s) else None
      | [] => None
      end.
Proof.
  intros Hpq. induction s as [|c s IH]; intros prev; [reflexivity|].
  rewrite rmatch_seq. change (rmatch (Star p) prev (c :: s)) with (greedy p (c :: s)).
  cbn [greedy take_while drop_while]. destruct (p c) eqn:Hp.
  - rewrite (Hpq c Hp). rewrite flat_map_app. cbn [flat_map fst snd last_or fold_left].
    rewrite app_nil_r.
    assert (Hpush : flat_map
              (fun r : list N * list N =>
                 List.map (fun q0 : list N * list N => (fst r ++ fst q0, snd q0))
                   (rmatch (Plus q) (last_or prev (fst r)) (snd r)))
              (List.map (push c) (greedy p s))
            = List.map (push c) (rmatch (Seq (Star p) (Plus q)) (Some c) s)).
    { rewrite rmatch_seq. change (rmatch (Star p) (Some c) s) with (greedy p s).
      induction (greedy p s) as [|[m r] l IHl]; [reflexivity|].
      cbn [List.map flat_map push fst snd]. rewrite List.map_app, IHl. f_equal.
      rewrite List.map_map. apply map_ext. intros [m' r']. reflexivity. }
    rewrite Hpush. specialize (IH (Some c)).
    destruct (rmatch (Seq (Star p) (Plus q)) (Some c) s) as [|x l].
    + cbn [List.map app]. rewrite head_plus by auto. reflexivity.
    + cbn [head] in IH. destruct s as [|d s]; [discriminate|].
      destruct (q d) eqn:Hd; [|discriminate]. injection IH as ->.
      cbn [List.map app head push fst snd take_while drop_while]. now rewrite Hd.
  - cbn [flat_map fst snd last_or fold_left]. rewrite app_nil_r.
    destruct (q c) eqn:Hq; [now apply head_plus|].
    cbn [rmatch]. now rewrite Hq.
Qed.

Lemma head_nil {A} (l : list A) : head l = None -> l = [].
Proof. now destruct l. Qed.

Lemma not_lead_not_trailing c s : lead_class c = false -> is_trailing_run (c :: s) = false.
Proof.
  intros H. cbn [is_trailing_run]. destruct (quote_class c) eqn:Hq; [|reflexivity].
  apply quote_is_lead in Hq. congruence.
Qed.

(** The first pattern at the start of the text: the run of leading
    characters, if there is one. *)
Lemma match_markers_start s :
  match_at markers_re None s false
  = match s with
    | c :: _ =>
        if lead_class c then Some (take_while lead_class s, drop_while lead_class s)
        else None
    | [] => None
    end.
Proof.
  rewrite match_at_head. unfold markers_re.
  change (rmatch (Alt ?a ?b) None s) with (rmatch a None s ++ rmatch b None s).
  rewrite (rmatch_seq Bol). change (rmatch Bol None s) with [(@nil N, s)].
  cbn [flat_map fst snd last_or fold_left]. rewrite app_nil_r.
  pose proof (rmatch_star_plus is_space lead_class space_is_lead s None) as Hl.
  pose proof (rmatch_trailing None s) as Ht. cbv zeta in Ht.
  destruct (rmatch (Seq (Star is_space) (Plus lead_class)) None s) as [|x l].
  - cbn [List.map app]. destruct s as [|c s].
    + cbn [is_trailing_run] in Ht. now rewrite Ht.
    + destruct (lead_class c) eqn:Hc; [discriminate|].
      rewrite (not_lead_not_trailing c s Hc) in Ht. now rewrite Ht.
  - cbn [head] in Hl. destruct s as [|c s]; [discriminate|].
    destruct (lead_class c); [|discriminate]. injection Hl as ->. reflexivity.
Qed.

(** The first pattern after the start of the text: a trailing run. *)
Lemma match_markers_later c0 s :
  match_at markers_re (Some c0) s false
  = if is_trailing_run s then Some (s, []) else None.
Proof.
  rewrite match_at_head. unfold markers_re.
  change (rmatch (Alt ?a ?b) (Some c0) s)
    with (rmatch a (Some c0) s ++ rmatch b (Some c0) s).
  rewrite (rmatch_seq Bol). change (rmatch Bol (Some c0) s) with (@nil (list N * list N)).
  cbn [flat_map app].
  pose proof (rmatch_trailing (Some c0) s) as Ht. cbv zeta in Ht.
  destruct (is_trailing_run s); [exact Ht|now rewrite Ht].
Qed.

Lemma search_markers_later : forall s c0,
  match search markers_re (Some c0) s false with
  | Some (g, m, rest) => g = without_trailing_run s /\ truthy m = true /\ rest = []
  | None => without_trailing_run s = s
  end.
Proof.
  induction s as [|c s IH]; intros c0; cbn [search]; rewrite match_markers_later.
  - reflexivity.
  - cbn [without_trailing_run]. destruct (is_trailing_run (c :: s)); [easy|].
    specialize (IH c). destruct (search markers_re (Some c) s false) as [[[g m] rest]|].
    + destruct IH as (-> & Hm & ->). easy.
    + now rewrite IH.
Qed.

Lemma search_markers_nil prev : search markers_re prev [] false = None.
Proof. destruct prev; reflexivity. Qed.

Lemma last_or_some prev c m : exists d, last_or prev (c :: m) = Some d.
Proof.
  cbn. generalize c. induction m as [|x m IH]; intros c'; cbn; eauto.
Qed.

(** The first substitution removes the leading run and the trailing run. *)
Lemma sub_markers s :
  Re.sub markers_re [] s = without_trailing_run (drop_while lead_class s).
Proof.
  unfold Re.sub, finditer. destruct s as [|c s]; [reflexivity|].
  replace (2 * length (c :: s) + 2)%nat with (S (S (S (S (2 * length s)))))
    by (cbn [length]; lia).
  cbn [finditer_fuel search]. rewrite match_markers_start.
  cbn [drop_while take_while]. destruct (lead_class c) eqn:Hc.
  - cbn [truthy negb app fst snd].
    destruct (last_or_some None c (take_while lead_class s)) as [d ->].
    pose proof (search_markers_later (drop_while lead_class s) d) as Hs.
    destruct (search markers_re (Some d) (drop_while lead_class s) false)
      as [[[g m] rest]|].
    + destruct Hs as (-> & Hm & ->). destruct m as [|e m]; [discriminate|].
      cbn [truthy negb]. rewrite search_markers_nil. cbn. now rewrite !app_nil_r.
    + cbn. now rewrite Hs.
  - pose proof (search_markers_later s c) as Hs.
    cbn [without_trailing_run]. rewrite (not_lead_not_trailing c s Hc).
    destruct (search markers_re (Some c) s false) as [[[g m] rest]|].
    + destruct Hs as (-> & Hm & ->). destruct m as [|e m]; [discriminate|].
      cbn [truthy negb]. rewrite search_markers_nil. cbn. now rewrite !app_nil_r.
    + cbn. now rewrite Hs.
Qed.

(** [strip_markers] does what [spec_strip_markers] says. *)
Lemma strip_markers_spec s : strip_markers s = spec_strip_markers s.
Proof. unfold strip_markers, spec_strip_markers. now rewrite sub_markers. Qed.

End WithUnicode.
End CleaningFacts.

Module PrefixFacts.
Import Runs Py Re OllamaUtils CleaningSpec PyFacts ReFacts TokenizerFacts GreedyFacts
  CleaningFacts.

Section WithUnicode.
Context {U : UnicodeDB}.

(** A literal word of a pattern matches the word at the cursor. *)
Lemma rmatch_literal : forall w prev s,
  rmatch (literal_re w) prev s
  = match after_word_i w s with
    | Some rest => [(firstn (length w) s, rest)]
    | None => []
    end.
Proof.
  induction w as [|l w IH]; intros prev s; [reflexivity|].
  destruct w as [|l2 w].
  - cbn [literal_re rmatch after_word_i length firstn]. destruct s as [|c s]; [reflexivity|].
    now destruct (literal_i l c).
  - change (literal_re (l :: l2 :: w))
      with (Seq (Cls (literal_i l)) (literal_re (l2 :: w))).
    rewrite rmatch_seq. destruct s as [|c s]; [reflexivity|].
    change (after_word_i (l :: l2 :: w) (c :: s))
      with (if literal_i l c then after_word_i (l2 :: w) s else None).
    change (rmatch (Cls (literal_i l)) prev (c :: s))
      with (if literal_i l c then [([c], s)] else []).
    destruct (literal_i l c); [|reflexivity].
    cbn [flat_map fst snd]. rewrite IH, app_nil_r.
    destruct (after_word_i (l2 :: w) s); reflexivity.
Qed.

(** [\s*:\s*]: the colon after optional white space, and the white space
    after it. *)
Lemma rmatch_colon prev s :
  let r := Seq (Star is_space) (Seq (Cls (N.eqb 58)) (Star is_space)) in
  match after_colon s with
  | Some rest => exists m, head (rmatch r prev s) = Some (m, rest)
  | None => rmatch r prev s = []
  end.
Proof.
  cbv zeta. rewrite rmatch_seq. change (rmatch (Star is_space) prev s) with (greedy is_space s).
  destruct (greedy_longest_first is_space s) as (others & -> & Ho).
  unfold after_colon. destruct (drop_while is_space s) as [|c r] eqn:E.
  - apply flat_map_nil. intros [m rest] [[= <- <-]|Hin]; cbn [fst snd]; [reflexivity|].
    destruct (Ho _ _ Hin) as (d & r' & -> & Hd). rewrite rmatch_seq. cbn [rmatch].
    destruct (N.eqb_spec 58 d) as [<-|_]; [discriminate Hd|reflexivity].
  - destruct (N.eqb_spec 58 c) as [<-|Hc].
    + eexists. rewrite flat_map_head; cbn [fst snd]; rewrite rmatch_seq; cbn [rmatch];
        cbn [N.eqb Pos.eqb flat_map fst snd];
        destruct (greedy_longest_first is_space r) as (others' & -> & _);
        [reflexivity|discriminate].
    + apply flat_map_nil. intros [m rest] [[= <- <-]|Hin]; cbn [fst snd].
      * rewrite rmatch_seq. cbn [rmatch]. apply N.eqb_neq in Hc. now rewrite Hc.
      * destruct (Ho _ _ Hin) as (d & r' & -> & Hd). rewrite rmatch_seq. cbn [rmatch].
        destruct (N.eqb_spec 58 d) as [<-|_]; [discriminate Hd|reflexivity].
Qed.

(** A keyword and its colon. *)
Lemma rmatch_keyword w prev s :
  let r := Seq (literal_re w) (Seq (Star is_space) (Seq (Cls (N.eqb 58)) (Star is_space))) in
  match after_keyword w s with
  | Some rest => exists m, head (rmatch r prev s) = Some (m, rest)
  | None => rmatch r prev s = []
  end.
Proof.
  cbv zeta. rewrite rmatch_seq, rmatch_literal. unfold after_keyword.
  destruct (after_word_i w s) as [rest|]; [|reflexivity].
  cbn [flat_map fst snd]. rewrite app_nil_r.
  pose proof (rmatch_colon (last_or prev (firstn (length w) s)) rest) as H. cbv zeta in H.
  destruct (after_colon rest) as [rest'|].
  - destruct H as [m H].
    destruct (rmatch _ (last_or prev (firstn (length w) s)) rest) as [|x l]; [discriminate|].
    injection H as ->. eexists. reflexivity.
  - now rewrite H.
Qed.

Lemma seq_alt (a b r : regex) prev s :
  rmatch (Seq (Grp (Alt a b)) r) prev s = rmatch (Seq a r) prev s ++ rmatch (Seq b r) prev s.
Proof. rewrite !rmatch_seq. cbn [rmatch]. apply flat_map_app. Qed.

Lemma literal_nonempty w s prev m rest :
  w <> [] -> In (m, rest) (rmatch (Seq (literal_re w) (Seq (Star is_space)
                 (Seq (Cls (N.eqb 58)) (Star is_space)))) prev s) ->
  truthy m = true.
Proof.
  intros Hw. rewrite rmatch_seq, rmatch_literal.
  destruct (after_word_i w s) as [r|] eqn:E; [|intros []].
  cbn [flat_map fst snd]. rewrite app_nil_r. intros Hin.
  apply in_map_iff in Hin. destruct Hin as [[m' r'] [[= <- <-] _]].
  destruct w as [|l w]; [congruence|]. destruct s as [|c s]; [discriminate|]. reflexivity.
Qed.

(** The second pattern at the start of the text. *)
Lemma match_prefix_start s :
  match after_example_prefix s with
  | Some rest => exists m, match_at prefix_re None s false = Some (m, rest)
                           /\ truthy m = true
  | None => match_at prefix_re None s false = None
  end.
Proof.
  rewrite match_at_head. unfold prefix_re, after_example_prefix.
  rewrite (rmatch_seq Bol). change (rmatch Bol None s) with [(@nil N, s)].
  cbn [flat_map fst snd last_or fold_left]. rewrite app_nil_r, seq_alt.
  pose proof (rmatch_keyword (u "Beispiel") None s) as HB. cbv zeta in HB.
  pose proof (rmatch_keyword (u "Example") None s) as HE. cbv zeta in HE.
  pose proof (literal_nonempty (u "Beispiel") s None) as NB.
  pose proof (literal_nonempty (u "Example") s None) as NE.
  destruct (after_keyword (u "Beispiel") s) as [rest|].
  - destruct HB as [m HB].
    destruct (rmatch (Seq (literal_re (u "Beispiel")) _) None s) as [|x l]; [discriminate|].
    injection HB as ->. exists ([] ++ m). split; [reflexivity|].
    apply (NB m rest); [discriminate|now left].
  - rewrite HB. cbn [app]. destruct (after_keyword (u "Example") s) as [rest|].
    + destruct HE as [m HE].
      destruct (rmatch (Seq (literal_re (u "Example")) _) None s) as [|x l]; [discriminate|].
      injection HE as ->. exists ([] ++ m). split; [reflexivity|].
      apply (NE m rest); [discriminate|now left].
    + now rewrite HE.
Qed.

Lemma search_prefix_later : forall s c0, search prefix_re (Some c0) s false = None.
Proof.
  induction s as [|c s IH]; intros c0; [reflexivity|].
  cbn [search]. rewrite IH.
  now replace (match_at prefix_re (Some c0) (c :: s) false) with (@None (list N * list N)).
Qed.

(** The second substitution removes a leading keyword with its colon. *)
Lemma sub_prefix s :
  Re.sub prefix_re [] s
  = match after_example_prefix s with Some rest => rest | None => s end.
Proof.
  unfold Re.sub, finditer.
  replace (2 * length s + 2)%nat with (S (S (2 * length s))) by lia.
  pose proof (match_prefix_start s) as H.
  destruct (after_example_prefix s) as [rest|].
  - destruct H as (m & H & Hm). destruct m as [|c m]; [discriminate|].
    assert (Hs : search prefix_re None s false = Some ([], c :: m, rest)).
    { destruct s; cbn [search]; now rewrite H. }
    cbn [finditer_fuel]. rewrite Hs. cbn [truthy negb app].
    destruct (last_or_some None c m) as [d ->]. rewrite search_prefix_later. reflexivity.
  - assert (Hs : search prefix_re None s false = None).
    { destruct s as [|c s]; cbn [search]; rewrite H; [reflexivity|].
      now rewrite search_prefix_later. }
    cbn [finditer_fuel]. now rewrite Hs.
Qed.

Lemma strip_example_prefix_spec s :
  strip_example_prefix s = spec_strip_example_prefix s.
Proof. unfold strip_example_prefix, spec_strip_example_prefix. now rewrite sub_prefix. Qed.

End WithUnicode.
End PrefixFacts.

(** ** The example generator *)

Module OllamaSpec.
Import Runs Py Re Effects OllamaUtils CleaningSpec PyFacts GreedyFacts CleaningFacts
  PrefixFacts Scenarios.

Section WithUnicode.
Context {U : UnicodeDB}.

Lemma drop_while_head {A} (p : A -> bool) (l : list A) x rest :
  drop_while p l = x :: rest -> p x = false.
Proof.
  induction l as [|y l IH]; [discriminate|]. cbn.
  destruct (p y) eqn:E; [exact IH|]. now intros [= <- <-].
Qed.

Lemma without_trailing_run_nil x :
  without_trailing_run x = [] -> x = [] \/ is_trailing_run x = true.
Proof.
  destruct x as [|c x]; [now left|]. cbn [without_trailing_run].
  destruct (is_trailing_run (c :: x)); [now right|discriminate].
Qed.

Lemma without_trailing_run_head x c rest :
  without_trailing_run x = c :: rest -> exists x', x = c :: x'.
Proof.
  destruct x as [|d x]; cbn [without_trailing_run].
  - now destruct (is_trailing_run []).
  - destruct (is_trailing_run (d :: x)); [discriminate|]. intros [= <- <-]. eauto.
Qed.

(** What is left before the trailing run does not end in a quote
    character. *)
Lemma without_trailing_run_last : forall x body c,
  without_trailing_run x = body ++ [c] -> quote_class c = false.
Proof.
  induction x as [|d x IH]; intros body c H.
  - cbn in H. destruct (is_trailing_run []), body; discriminate.
  - cbn [without_trailing_run] in H.
    destruct (is_trailing_run (d :: x)) eqn:E; [now destruct body|].
    destruct body as [|b body]; cbn [app] in H.
    + injection H as <- Hx. destruct (quote_class d) eqn:Hd; [|reflexivity].
      cbn [is_trailing_run drop_while] in E. rewrite Hd in E. cbn [andb] in E.
      destruct (without_trailing_run_nil x Hx) as [->|Ht]; [discriminate|].
      destruct x as [|e x]; [discriminate|]. cbn [is_trailing_run] in Ht.
      apply andb_true_iff in Ht as [_ Ht]. congruence.
    + injection H as <- Hx. now apply (IH body).
Qed.

Lemma rstrip_prefix (y : list N) : exists ws, y = rstrip y ++ ws.
Proof.
  unfold rstrip, lstrip. exists (rev (take_while is_space (rev y))).
  rewrite <- rev_app_distr, <- take_drop_while. now rewrite rev_involutive.
Qed.

(** After the first substitution and [strip] the sentence does not start
    with a quote, markdown, bullet or white-space character. *)
Lemma strip_markers_head s c rest :
  strip_markers s = c :: rest -> lead_class c = false.
Proof.
  rewrite strip_markers_spec. unfold spec_strip_markers, strip. intros H.
  destruct (rstrip_prefix (lstrip (without_trailing_run (drop_while lead_class s))))
    as [ws Hws]. rewrite H in Hws. clear H.
  destruct (without_trailing_run (drop_while lead_class s)) as [|d y] eqn:E;
    [discriminate|].
  destruct (without_trailing_run_head _ _ _ E) as [x' Hx].
  pose proof (drop_while_head _ _ _ _ Hx) as Hd.
  unfold lstrip in Hws. cbn [drop_while] in Hws.
  destruct (is_space d) eqn:Hsp; [apply space_is_lead in Hsp; congruence|].
  now injection Hws as ->.
Qed.

End WithUnicode.

#[local] Existing Instance ascii_only.

(** C8. The post-processing of the model output is two substitutions,
    each followed by [strip].  The first removes the leading run of quote,
    markdown, bullet and white-space characters and the trailing run of quote
    and markdown characters with the white space after it: what it leaves
    does not start with a character of the first kind nor end with one of
    the second.  The second removes a leading 'Beispiel' or 'Example', in
    any casing, with its colon and the white space around the colon.  The
    model output [- "Das ist gut."] becomes [Das ist gut.]. *)
Theorem example_sentence_is_cleaned {U : UnicodeDB} :
  (forall s : list N, strip_markers s = spec_strip_markers s)
  /\ (forall s : list N,
        Re.sub markers_re [] s = without_trailing_run (drop_while lead_class s))
  /\ (forall (s : list N) (c : N) (rest : list N),
        strip_markers s = c :: rest -> lead_class c = false)
  /\ (forall (s body : list N) (c : N),
        Re.sub markers_re [] s = body ++ [c] -> quote_class c = false)
  /\ (forall s : list N, strip_example_prefix s = spec_strip_example_prefix s)
  /\ (forall rest : list N,
        Re.sub prefix_re [] (u "Example:" ++ rest) = drop_while is_space rest
        /\ Re.sub prefix_re [] (u "beispiel :" ++ rest) = drop_while is_space rest)
  /\ (forall s : list N,
        clean_sentence s = spec_strip_example_prefix (spec_strip_markers s))
  /\ example_result (inr (chat_reply bulleted_quote)) = Some (u "Das ist gut.").
Proof.
  split; [apply @strip_markers_spec|]. split; [apply @sub_markers|].
  split; [apply @strip_markers_head|]. split.
  { intros s body c H. rewrite sub_markers in H.
    eapply without_trailing_run_last, H. }
  split; [apply @strip_example_prefix_spec|]. split.
  { intros rest. rewrite !sub_prefix. split; reflexivity. }
  split.
  { intros s. unfold clean_sentence.
    now rewrite strip_example_prefix_spec, strip_markers_spec. }
  vm_compute. reflexivity.
Qed.

(** C8 at the model output [- "Das ist gut."]: what the first step leaves
    starts with the letter D, which is no quote, markdown or bullet
    character. *)
Lemma example_sentence_is_cleaned_witness : lead_class 68 = false.
Proof.
  apply (proj1 (proj2 (proj2 (@example_sentence_is_cleaned ascii_only)))
           bulleted_quote 68 (u "as ist gut.")).
  vm_compute. reflexivity.
Defined.

End OllamaSpec.

(** ** The words and the delimiters of a sentence *)

Module TokenizerRuns.
Import Runs Py Re WordTokenizer Parts ReFacts TokenizerFacts TokenizerSpec PyFacts.

Lemma filter_none {A} (p : A -> bool) (l : list A) :
  existsb p l = false -> List.filter p l = [].
Proof.
  induction l as [|x l IH]; [reflexivity|]. cbn.
  destruct (p x); [discriminate|]. exact IH.
Qed.

Lemma filter_all {A} (p : A -> bool) (l : list A) :
  forallb p l = true -> List.filter p l = l.
Proof.
  induction l as [|x l IH]; [reflexivity|]. cbn.
  destruct (p x); [|discriminate]. cbn. intros H. now rewrite IH.
Qed.

Lemma forallb_not_existsb {A} (p : A -> bool) (l : list A) :
  truthy l = true -> forallb p l = true -> existsb p l = true.
Proof.
  destruct l as [|x l]; [discriminate|]. cbn. intros _ H.
  apply andb_true_iff in H as [-> _]. reflexivity.
Qed.

Section WithUnicode.
Context {U : UnicodeDB}.

(** A search for [\b\w+\b] that does not start inside a word stops at a
    whole run of word characters. *)
Lemma search_word_run : forall s prev,
  (opt_word prev = true -> opt_word (head s) = false) ->
  match search word_re prev s false with
  | Some (g, m, rest) =>
      existsb is_word g = false /\ is_word_part m = true
      /\ opt_word (head rest) = false
  | None => existsb is_word s = false
  end.
Proof.
  induction s as [|c s IH]; intros prev Hinv.
  - cbn [search]. unfold match_at. rewrite rmatch_word_re. reflexivity.
  - cbn [search]. unfold match_at. rewrite rmatch_word_re.
    destruct (is_word c) eqn:Hc; cbn [andb].
    + destruct (opt_word prev) eqn:Hp.
      * specialize (Hinv eq_refl). cbn [head opt_word] in Hinv. congruence.
      * cbn [negb List.find fst orb]. repeat split.
        -- unfold is_word_part. cbn [truthy forallb andb]. rewrite Hc.
           apply take_while_all.
        -- apply head_drop_while_word.
    + cbn [List.find]. specialize (IH (Some c)).
      destruct (search word_re (Some c) s false) as [[[g m] rest]|].
      * destruct IH as (Hg & Hm & Hr); [cbn [opt_word]; congruence|].
        repeat split; [|exact Hm|exact Hr]. cbn [existsb]. now rewrite Hc, Hg.
      * cbn [existsb]. rewrite Hc. apply IH. cbn [opt_word]. congruence.
Qed.

Lemma last_or_word prev g c m :
  forallb is_word (c :: m) = true -> opt_word (last_or prev (g ++ c :: m)) = true.
Proof.
  rewrite last_or_app, last_or_cons. clear prev g.
  revert c. induction m as [|d m IH]; intros c H.
  - cbn in *. now apply andb_true_iff in H as [-> _].
  - rewrite last_or_cons. apply IH. cbn [forallb] in H.
    now apply andb_true_iff in H as [_ H].
Qed.

(** The matches of [\b\w+\b] in a text are whole words with non-empty gaps
    between them, and the text after the last one has no word character. *)
Lemma finditer_whole_words : forall fuel s prev,
  (length s < fuel)%nat ->
  (opt_word prev = true -> opt_word (head s) = false) ->
  whole_words (opt_word prev) (fst (finditer_fuel fuel word_re prev s false))
  /\ existsb is_word (snd (finditer_fuel fuel word_re prev s false)) = false.
Proof.
  induction fuel as [|fuel IH]; intros s prev Hlen Hinv; [lia|].
  cbn [finditer_fuel]. pose proof (search_word_run s prev Hinv) as Hs.
  destruct (search word_re prev s false) as [[[g m] rest]|] eqn:E.
  - destruct Hs as (Hg & Hm & Hr). apply search_sound in E.
    pose proof Hm as Hm'. unfold is_word_part in Hm'.
    apply andb_true_iff in Hm' as [Hne Hall].
    destruct m as [|c m]; [discriminate|]. cbn [truthy negb fst snd].
    destruct (IH rest (last_or prev (g ++ c :: m))) as [Hhits Htail].
    + subst s. rewrite !length_app in Hlen. cbn [length] in Hlen. lia.
    + intros _. exact Hr.
    + split; [|exact Htail]. cbn [whole_words]. repeat split; try assumption.
      * intros Hp ->. specialize (Hinv Hp). subst s. cbn [app head opt_word] in Hinv.
        cbn [forallb] in Hall. apply andb_true_iff in Hall as [Hc _]. congruence.
      * now rewrite (last_or_word prev g c m Hall) in Hhits.
  - split; [exact I|exact Hs].
Qed.

(** The scan of a whole sentence. *)
Lemma finditer_sentence (s : list N) :
  whole_words false (fst (finditer word_re s))
  /\ existsb is_word (snd (finditer word_re s)) = false.
Proof.
  unfold finditer.
  destruct (finditer_whole_words (2 * length s + 2) s None) as [H1 H2];
    [lia|discriminate|]. split; [exact H1|exact H2].
Qed.

Lemma whole_words_tokens b hits :
  whole_words b hits -> Forall (fun t => is_word_part t = true) (List.map snd hits).
Proof.
  revert b. induction hits as [|[g m] hits IH]; intros b H; [constructor|].
  cbn [whole_words] in H. destruct H as (_ & _ & Hm & Hrest).
  constructor; [exact Hm|]. eapply IH, Hrest.
Qed.

Lemma whole_words_filter b hits tail :
  whole_words b hits -> existsb is_word tail = false ->
  List.filter is_word (flat_map (fun h => fst h ++ snd h) hits ++ tail)
  = concat (List.map snd hits).
Proof.
  intros H Htail. revert b H.
  induction hits as [|[g m] hits IH]; intros b H.
  - cbn. now apply filter_none.
  - cbn [whole_words] in H. destruct H as (Hg & _ & Hm & Hrest).
    cbn [flat_map List.map concat fst snd].
    rewrite <- !app_assoc, !List.filter_app, (filter_none _ _ Hg). cbn [app].
    unfold is_word_part in Hm. apply andb_true_iff in Hm as [_ Hm].
    rewrite (filter_all _ _ Hm). f_equal. rewrite <- List.filter_app.
    eapply IH, Hrest.
Qed.

Lemma alternating_cons a b rest :
  alternating (a :: b :: rest)
  = xorb (is_word_part a) (is_word_part b) && alternating (b :: rest).
Proof. reflexivity. Qed.

(** The parts drawn from whole words alternate, and when they come after
    a word they start with a delimiter. *)
Lemma whole_words_alternating hits tail : forall b,
  whole_words b hits -> existsb is_word tail = false ->
  let parts := List.filter truthy (flat_map (fun h => [fst h; snd h]) hits ++ [tail]) in
  alternating parts = true
  /\ Forall (fun p => is_word_part p = true \/ is_delimiter_part p = true) parts
  /\ (b = true -> match parts with p :: _ => is_word_part p = false | [] => True end).
Proof.
  assert (Hdelim : forall g, existsb is_word g = false -> truthy g = true ->
            is_delimiter_part g = true /\ is_word_part g = false).
  { intros g Hg Hne. unfold is_delimiter_part, is_word_part. rewrite Hne, Hg.
    split; [reflexivity|]. cbn [andb].
    destruct (forallb is_word g) eqn:E; [|reflexivity].
    apply forallb_not_existsb in E; [congruence|exact Hne]. }
  induction hits as [|[g m] hits IH]; intros b H Htail; cbv zeta.
  - cbn [flat_map app List.filter]. destruct (truthy tail) eqn:Hne.
    + destruct (Hdelim tail Htail Hne) as [Hd Hw].
      split; [reflexivity|]. split; [constructor; [now right|constructor]|].
      intros _. exact Hw.
    + split; [reflexivity|]. split; [constructor|trivial].
  - cbn [whole_words] in H. destruct H as (Hg & Hgap & Hm & Hrest).
    specialize (IH true Hrest Htail). cbv zeta in IH.
    cbn [flat_map app fst snd List.filter].
    set (rest := List.filter truthy
                   (flat_map (fun h => [fst h; snd h]) hits ++ [tail])) in *.
    destruct IH as (Halt & Hall & Hhead). specialize (Hhead eq_refl).
    assert (Hmne : truthy m = true).
    { unfold is_word_part in Hm. now apply andb_true_iff in Hm as [-> _]. }
    rewrite Hmne.
    assert (Hword : alternating (m :: rest) = true).
    { cbn [alternating]. destruct rest as [|p rest']; [reflexivity|].
      rewrite Hm, Hhead. exact Halt. }
    destruct (truthy g) eqn:Hne.
    + destruct (Hdelim g Hg Hne) as [Hd Hw].
      split; [|split].
      * rewrite alternating_cons, Hw, Hm. exact Hword.
      * constructor; [now right|]. constructor; [now left|exact Hall].
      * intros _. exact Hw.
    + split; [exact Hword|]. split; [constructor; [now left|exact Hall]|].
      intros ->. destruct g; [now specialize (Hgap eq_refl)|discriminate].
Qed.

End WithUnicode.

Section WithUnicode.
Context {U : UnicodeDB}.

Lemma tokens_are_words (sentence : list N) :
  Forall (fun t => is_word_part t = true) (tokenize_sentence sentence).
Proof.
  unfold tokenize_sentence. destruct (negb (truthy sentence)); [constructor|].
  unfold findall. destruct (finditer_sentence sentence) as [H _].
  eapply whole_words_tokens, H.
Qed.

Lemma concat_tokens (sentence : list N) :
  concat (tokenize_sentence sentence) = List.filter is_word sentence.
Proof.
  unfold tokenize_sentence. destruct sentence as [|c s]; [reflexivity|].
  cbn [truthy negb]. unfold findall.
  destruct (finditer_sentence (c :: s)) as [H Htail].
  rewrite <- (whole_words_filter _ _ _ H Htail). f_equal.
  unfold finditer. apply finditer_fuel_concat.
Qed.

Lemma no_tokens (sentence : list N) :
  tokenize_sentence sentence = [] <-> existsb is_word sentence = false.
Proof.
  pose proof (concat_tokens sentence) as Hcat.
  pose proof (tokens_are_words sentence) as Hall. split.
  - intros E. rewrite E in Hcat. cbn in Hcat.
    destruct (existsb is_word sentence) eqn:Hex; [|reflexivity].
    apply existsb_exists in Hex as (c & Hin & Hc).
    assert (Hin' : In c (List.filter is_word sentence)) by (apply filter_In; now split).
    rewrite <- Hcat in Hin'. destruct Hin'.
  - intros Hex. apply filter_none in Hex. rewrite Hex in Hcat.
    destruct (tokenize_sentence sentence) as [|t ts]; [reflexivity|].
    apply Forall_cons_1 in Hall as [Ht _].
    unfold is_word_part in Ht. apply andb_true_iff in Ht as [Hne _].
    destruct t; [discriminate|]. cbn in Hcat. discriminate.
Qed.

End WithUnicode.

(** X1. The words of [tokenize_sentence] are non-empty runs of word
    characters, and put together they are the word characters of the
    sentence, in order: the tokenizer drops every other character and
    nothing else.  It returns no word exactly when the sentence has no word
    character. *)
Theorem tokenize_sentence_words {U : UnicodeDB} (sentence : list N) :
  Forall (fun t => is_word_part t = true) (tokenize_sentence sentence)
  /\ concat (tokenize_sentence sentence) = List.filter is_word sentence
  /\ (tokenize_sentence sentence = [] <-> existsb is_word sentence = false).
Proof.
  split; [apply tokens_are_words|]. split; [apply concat_tokens|apply no_tokens].
Qed.

(** X2. The parts of [split_sentence_with_delimiters] alternate between
    words and delimiters, as its docstring says: each part is either a
    non-empty run of word characters or a non-empty text without any word
    character, and no two neighbours are of the same kind. *)
Theorem split_sentence_with_delimiters_alternates {U : UnicodeDB} (sentence : list N) :
  Forall (fun part => is_word_part part = true \/ is_delimiter_part part = true)
    (split_sentence_with_delimiters sentence)
  /\ alternating (split_sentence_with_delimiters sentence) = true.
Proof.
  unfold split_sentence_with_delimiters.
  destruct (negb (truthy sentence)); [split; [constructor|reflexivity]|].
  unfold Re.split, finditer. rewrite finditer_fuel_grp.
  destruct (finditer_sentence sentence) as [H Htail].
  destruct (whole_words_alternating _ _ false H Htail) as (Halt & Hall & _).
  split; [exact Hall|exact Halt].
Qed.

End TokenizerRuns.

(** ** The example generator as a whole *)

Module OllamaRun.
Import Runs Py Re Effects OllamaUtils CleaningSpec Text PyFacts GreedyFacts CleaningFacts
  PrefixFacts OllamaSpec EffectsFacts Scenarios.

Lemma part_of_refl (s : list N) : part_of s s.
Proof. exists [], []. now rewrite app_nil_r. Qed.

Lemma part_of_trans (a b c : list N) : part_of a b -> part_of b c -> part_of a c.
Proof.
  intros (p1 & q1 & ->) (p2 & q2 & ->). exists (p2 ++ p1), (q1 ++ q2).
  now rewrite <- !app_assoc.
Qed.

Lemma part_of_suffix (pre s : list N) : part_of s (pre ++ s).
Proof. exists pre, []. now rewrite app_nil_r. Qed.

Lemma part_of_prefix (s post : list N) : part_of s (s ++ post).
Proof. now exists [], post. Qed.

Lemma drop_while_fixed {A} (p : A -> bool) (l : list A) :
  match l with x :: _ => p x = false | [] => True end -> drop_while p l = l.
Proof. destruct l as [|x l]; [reflexivity|]. cbn. now intros ->. Qed.

Lemma drop_while_idem {A} (p : A -> bool) (l : list A) :
  drop_while p (drop_while p l) = drop_while p l.
Proof.
  apply drop_while_fixed. destruct (drop_while p l) as [|x r] eqn:E; [trivial|].
  eapply drop_while_head, E.
Qed.

Section WithUnicode.
Context {U : UnicodeDB}.

Lemma part_of_strip (s : list N) : part_of (strip s) s.
Proof. destruct (strip_inside s) as (ws1 & ws2 & H & _). now exists ws1, ws2. Qed.

(** [strip] leaves no white space to strip. *)
Lemma strip_idem (s : list N) : strip (strip s) = strip s.
Proof.
  assert (Hl : lstrip (strip s) = strip s).
  { unfold lstrip. apply drop_while_fixed.
    destruct (strip s) as [|x r] eqn:E; [trivial|].
    unfold strip in E. destruct (rstrip_prefix (lstrip s)) as [ws Hws].
    rewrite E in Hws. unfold lstrip in Hws. cbn [app] in Hws.
    eapply drop_while_head, Hws. }
  unfold strip at 1. rewrite Hl. unfold strip, rstrip, lstrip.
  now rewrite rev_involutive, drop_while_idem.
Qed.

Lemma strip_spaces (s : list N) : forallb is_space s = true -> strip s = [].
Proof.
  intros H. unfold strip, lstrip. apply forallb_drop_while in H. now rewrite H.
Qed.

Lemma without_trailing_run_prefix : forall x, exists t, x = without_trailing_run x ++ t.
Proof.
  induction x as [|c x [t IH]].
  - exists []. reflexivity.
  - cbn [without_trailing_run]. destruct (is_trailing_run (c :: x)).
    + now exists (c :: x).
    + exists t. cbn. now f_equal.
Qed.

Lemma after_word_i_suffix : forall w s rest,
  after_word_i w s = Some rest -> exists pre, s = pre ++ rest.
Proof.
  induction w as [|l w IH]; intros s rest H; cbn [after_word_i] in H.
  - injection H as <-. exists []. reflexivity.
  - destruct s as [|c s]; [discriminate|].
    destruct (literal_i l c); [|discriminate].
    destruct (IH _ _ H) as [pre ->]. now exists (c :: pre).
Qed.

Lemma after_colon_suffix s rest :
  after_colon s = Some rest -> exists pre, s = pre ++ rest.
Proof.
  unfold after_colon. intros H.
  destruct (drop_while is_space s) as [|c s'] eqn:E; [discriminate|].
  destruct (58 =? c); [|discriminate]. injection H as <-.
  exists (take_while is_space s ++ c :: take_while is_space s').
  rewrite <- app_assoc. cbn [app]. rewrite <- take_drop_while, <- E.
  apply take_drop_while.
Qed.

Lemma after_example_prefix_suffix s rest :
  after_example_prefix s = Some rest -> exists pre, s = pre ++ rest.
Proof.
  assert (Hk : forall w, after_keyword w s = Some rest -> exists pre, s = pre ++ rest).
  { intros w H. unfold after_keyword in H.
    destruct (after_word_i w s) as [r|] eqn:E; [|discriminate].
    apply after_word_i_suffix in E as [p1 ->].
    apply after_colon_suffix in H as [p2 ->]. exists (p1 ++ p2).
    now rewrite <- app_assoc. }
  unfold after_example_prefix.
  destruct (after_keyword (u "Beispiel") s) as [r|] eqn:E.
  - intros [= <-]. eapply Hk, E.
  - apply Hk.
Qed.

(** The cleaning trims the two ends of the text and rewrites nothing. *)
Lemma clean_sentence_part (s : list N) : part_of (clean_sentence s) s.
Proof.
  unfold clean_sentence, strip_example_prefix, strip_markers.
  eapply part_of_trans; [apply part_of_strip|]. rewrite sub_prefix.
  eapply part_of_trans; [|eapply part_of_trans; [apply part_of_strip|]].
  - destruct (after_example_prefix _) as [rest|] eqn:E; [|apply part_of_refl].
    apply after_example_prefix_suffix in E as [pre E]. rewrite E.
    apply part_of_suffix.
  - rewrite sub_markers.
    destruct (without_trailing_run_prefix (drop_while lead_class s)) as [t Ht].
    exists (take_while lead_class s), t. rewrite <- Ht. apply take_drop_while.
Qed.

Lemma clean_sentence_stripped (s : list N) :
  strip (clean_sentence s) = clean_sentence s.
Proof. unfold clean_sentence, strip_example_prefix. apply strip_idem. Qed.

(** A non-empty word costs one request, and the reply decides the
    result. *)
Lemma run_get_german_example {S} (w : world) n (s : S) c word :
  run w n (get_german_example_sentence_ollama (c :: word)) s
  = {| returned := example_result (w n (example_request (c :: word)));
       final := s;
       calls := [(example_request (c :: word), s)] |}.
Proof. reflexivity. Qed.

Lemma example_of_chat (kvs kvs' : list (list N * pyval)) (content : list N) :
  assoc (u "message") kvs = Some (VDict kvs') ->
  assoc (u "content") kvs' = Some (VStr content) ->
  example_result (inr (VDict kvs))
  = if truthy (strip content) then Some (clean_sentence (strip content)) else None.
Proof.
  intros Hm Hc. unfold example_result, example_of. cbn [rbind dict_get ok].
  rewrite Hm. cbn [rbind dict_get ok]. rewrite Hc. cbn [rbind as_str ok].
  now destruct (truthy (strip content)).
Qed.

End WithUnicode.

#[local] Existing Instance ascii_only.

(** X3. [get_german_example_sentence_ollama] returns [None] for the empty
    word without any call.  For a non-empty word it sends one chat request,
    to the model [OLLAMA_MODEL_NAME] with the system message and the prompt,
    leaves the session alone, and returns [None] when the call raises, when
    the answer is no dictionary, when its [message] is no dictionary, when
    the [content] is no string, when [message] or [content] is missing, and
    when the content is white space only; in no case does it raise. *)
Theorem example_failure_is_none {U : UnicodeDB} :
  (forall (S : Type) (w : world) (n : nat) (s : S),
     run w n (get_german_example_sentence_ollama []) s
     = {| returned := None; final := s; calls := [] |})
  /\ (forall (S : Type) (w : world) (n : nat) (s : S) (c : N) (word : list N),
        run w n (get_german_example_sentence_ollama (c :: word)) s
        = {| returned := example_result (w n (example_request (c :: word)));
             final := s;
             calls := [(OllamaChat OLLAMA_MODEL_NAME
                          [(u "system", system_message); (u "user", prompt (c :: word))],
                        s)] |})
  /\ (forall e : exn, example_result (inl e) = None)
  /\ (forall v : pyval, (forall kvs, v <> VDict kvs) -> example_result (inr v) = None)
  /\ (forall (kvs : list (list N * pyval)) (m : pyval),
        assoc (u "message") kvs = Some m -> (forall kvs', m <> VDict kvs') ->
        example_result (inr (VDict kvs)) = None)
  /\ (forall kvs : list (list N * pyval),
        assoc (u "message") kvs = None -> example_result (inr (VDict kvs)) = None)
  /\ (forall (kvs kvs' : list (list N * pyval)) (c : pyval),
        assoc (u "message") kvs = Some (VDict kvs') ->
        assoc (u "content") kvs' = Some c -> (forall t, c <> VStr t) ->
        example_result (inr (VDict kvs)) = None)
  /\ (forall kvs kvs' : list (list N * pyval),
        assoc (u "message") kvs = Some (VDict kvs') ->
        assoc (u "content") kvs' = None ->
        example_result (inr (VDict kvs)) = None)
  /\ (forall content : list N,
        forallb is_space content = true ->
        example_result (inr (chat_reply content)) = None).
Proof.
  split; [reflexivity|]. split; [reflexivity|]. split; [reflexivity|].
  split; [|split; [|split; [|split; [|split]]]].
  - intros v Hv. destruct v; try reflexivity. now destruct (Hv kvs).
  - intros kvs m Hm Hd. unfold example_result, example_of. cbn [rbind dict_get ok].
    rewrite Hm. destruct m; try reflexivity. now destruct (Hd kvs0).
  - intros kvs Hm. unfold example_result, example_of. cbn [rbind dict_get ok].
    rewrite Hm. reflexivity.
  - intros kvs kvs' c Hm Hc Hs. unfold example_result, example_of.
    cbn [rbind dict_get ok]. rewrite Hm. cbn [rbind dict_get ok]. rewrite Hc.
    destruct c; try reflexivity. now destruct (Hs s).
  - intros kvs kvs' Hm Hc. unfold example_result, example_of.
    cbn [rbind dict_get ok]. rewrite Hm. cbn [rbind dict_get ok]. rewrite Hc.
    reflexivity.
  - intros content Hsp. unfold chat_reply.
    rewrite (example_of_chat _ [(u "role", VStr (u "assistant"));
                                (u "content", VStr content)] content);
      [|reflexivity|reflexivity].
    now rewrite (strip_spaces content Hsp).
Qed.

(** X3 when the model answers with three blanks. *)
Lemma example_failure_is_none_witness :
  example_result (inr (chat_reply (u "   "))) = None.
Proof.
  destruct (@example_failure_is_none ascii_only) as (_ & _ & _ & _ & _ & _ & _ & _ & H).
  apply H. reflexivity.
Defined.

(** X4. A sentence that [get_german_example_sentence_ollama] returns is a
    contiguous piece of the [content] string of the model's answer: the
    cleaning only trims the two ends and rewrites nothing in between.  The
    sentence has no white space at either end. *)
Theorem example_is_part_of_content {U : UnicodeDB}
    (response : pyval) (sentence : list N) :
  example_result (inr response) = Some sentence ->
  exists (message : pyval) (content : list N),
    dict_get (u "message") (VDict []) response = inr message
    /\ dict_get (u "content") (VStr []) message = inr (VStr content)
    /\ part_of sentence content
    /\ strip sentence = sentence.
Proof.
  unfold example_result, example_of. cbn [rbind].
  destruct (dict_get (u "message") (VDict []) response) as [e|message] eqn:Em;
    [discriminate|]. cbn [rbind].
  destruct (dict_get (u "content") (VStr []) message) as [e|content] eqn:Ec;
    [discriminate|]. cbn [rbind].
  destruct content as [| | |content| |]; try discriminate. cbn [as_str rbind ok].
  destruct (negb (truthy (strip content))); [discriminate|].
  intros [= <-]. exists message, content.
  split; [reflexivity|]. split; [exact Ec|]. split.
  - eapply part_of_trans; [apply clean_sentence_part|apply part_of_strip].
  - apply clean_sentence_stripped.
Qed.

(** X4 at the model output [- "Das ist gut."]. *)
Lemma example_is_part_of_content_witness :
  exists (message : pyval) (content : list N),
    dict_get (u "message") (VDict []) (chat_reply bulleted_quote) = inr message
    /\ dict_get (u "content") (VStr []) message = inr (VStr content)
    /\ part_of (u "Das ist gut.") content
    /\ strip (u "Das ist gut.") = u "Das ist gut.".
Proof.
  apply (@example_is_part_of_content ascii_only (chat_reply bulleted_quote)).
  vm_compute. reflexivity.
Defined.

End OllamaRun.

(** ** Speech synthesis: shape of the result, availability, status *)

Module TtsRun.
Import Py Effects TtsUtils TtsStatus EffectsFacts Scenarios TtsSpec.

Section Backends.
Context {S : Type} (cfg : tts_config) (w : world) (n : nat) (s : S) (text lang : list N).

(** The primary back end, by cases on the configuration. *)
Lemma run_primary :
  run w n (primary_audio cfg text lang) s =
  if str_eqb (TTS_ENGINE cfg) (u "huggingface") && hf_libraries_installed cfg
     && hf_processor cfg && hf_model cfg
  then
    if truthy text
    then {| returned :=
              match w n (HfSynthesize text) with
              | inr audio_bytes =>
                  (Some audio_bytes, Some (u "audio/wav"), Some (u "Hugging Face"))
              | inl _ => no_audio
              end;
            final := s;
            calls := [(HfSynthesize text, s)] |}
    else {| returned := no_audio; final := s; calls := [] |}
  else if str_eqb (TTS_ENGINE cfg) (u "gtts") && gtts_installed cfg && truthy text
  then {| returned :=
            match w n (GttsSynthesize text lang) with
            | inr audio_bytes => (Some audio_bytes, Some (u "audio/mp3"), Some (u "gTTS"))
            | inl _ => no_audio
            end;
          final := s;
          calls := [(GttsSynthesize text lang, s)] |}
  else {| returned := no_audio; final := s; calls := [] |}.
Proof.
  unfold primary_audio.
  assert (Hg : (if str_eqb (TTS_ENGINE cfg) (u "gtts") && gtts_installed cfg
                then run w n (_generate_speech_audio_gtts cfg text lang) s
                else run w n (mret no_audio) s)
               = if str_eqb (TTS_ENGINE cfg) (u "gtts") && gtts_installed cfg && truthy text
                 then {| returned :=
                           match w n (GttsSynthesize text lang) with
                           | inr audio_bytes =>
                               (Some audio_bytes, Some (u "audio/mp3"), Some (u "gTTS"))
                           | inl _ => no_audio
                           end;
                         final := s;
                         calls := [(GttsSynthesize text lang, s)] |}
                 else {| returned := no_audio; final := s; calls := [] |}).
  { destruct (str_eqb (TTS_ENGINE cfg) (u "gtts") && gtts_installed cfg) eqn:E4;
      cbn [andb]; [|reflexivity].
    rewrite run_gtts. apply andb_true_iff in E4 as [_ ->]. cbn [andb].
    now destruct (truthy text). }
  destruct (str_eqb (TTS_ENGINE cfg) (u "huggingface") && hf_libraries_installed cfg
            && hf_processor cfg && hf_model cfg) eqn:E.
  - rewrite run_hf. apply andb_true_iff in E as [E ->]. apply andb_true_iff in E as [E ->].
    apply andb_true_iff in E as [_ ->]. cbn [andb negb orb]. now destruct (truthy text).
  - rewrite <- Hg.
    now destruct (str_eqb (TTS_ENGINE cfg) (u "gtts") && gtts_installed cfg).
Qed.

(** The whole of [generate_speech_audio]: after the primary back end, and
    when that gave nothing, gTTS where it is installed. *)
Lemma run_generate :
  let p := run w n (primary_audio cfg text lang) s in
  run w n (generate_speech_audio cfg text lang) s =
  if is_none (fst (fst (returned p))) && gtts_installed cfg && truthy text
  then {| returned :=
            match w (n + length (calls p))%nat (GttsSynthesize text lang) with
            | inr audio_bytes =>
                (Some audio_bytes, Some (u "audio/mp3"), Some (u "gTTS (Fallback)"))
            | inl _ => no_audio
            end;
          final := s;
          calls := calls p ++ [(GttsSynthesize text lang, s)] |}
  else p.
Proof.
  intros p. pose proof (run_generate_speech_audio cfg w n s text lang) as H.
  cbv zeta in H. rewrite H. fold p.
  assert (Hp : final p = s) by apply primary_final. rewrite Hp.
  destruct (is_none (fst (fst (returned p)))) eqn:Enone; cbn [andb]; [|reflexivity].
  destruct (gtts_installed cfg) eqn:Eg; cbn [andb]; [|reflexivity].
  rewrite run_gtts, Eg. cbn [andb]. destruct (truthy text) eqn:Et; cbn [negb].
  - cbn [returned final calls].
    destruct (w (n + length (calls p))%nat (GttsSynthesize text lang)); reflexivity.
  - cbn [returned final calls fst snd tag_fallback]. rewrite app_nil_r.
    subst p. rewrite run_primary. rewrite Et, andb_false_r.
    now destruct (_ && _ && _ && _).
Qed.

End Backends.

Ltac shape_goal :=
  match goal with
  | |- _ /\ _ => split
  | |- (_ <= _)%nat => cbn [length calls app]; lia
  | |- Forall _ _ =>
      repeat (apply List.Forall_cons; [first [left; reflexivity|right; reflexivity]|]);
      apply List.Forall_nil
  | |- _ = _ => reflexivity
  | |- _ \/ _ =>
      first [ left; reflexivity
            | right; left; eexists; reflexivity
            | right; right; left; eexists; reflexivity
            | right; right; right; eexists; reflexivity ]
  end.

(** What a synthesis returns, what it calls, and that it leaves the session
    alone. *)
Lemma synthesis_shape (S : Type) (cfg : tts_config) (w : world)
    (n : nat) (s : S) (text lang : list N) :
  let o := run w n (generate_speech_audio cfg text lang) s in
  (returned o = no_audio
   \/ (exists b, returned o = (Some b, Some (u "audio/wav"), Some (u "Hugging Face")))
   \/ (exists b, returned o = (Some b, Some (u "audio/mp3"), Some (u "gTTS")))
   \/ (exists b, returned o = (Some b, Some (u "audio/mp3"), Some (u "gTTS (Fallback)"))))
  /\ final o = s
  /\ (length (calls o) <= 2)%nat
  /\ Forall (fun c => c = (HfSynthesize text, s) \/ c = (GttsSynthesize text lang, s))
       (calls o)
  /\ (In (HfSynthesize text, s) (calls o) ->
      TTS_ENGINE cfg = u "huggingface"
      /\ hf_libraries_installed cfg && hf_processor cfg && hf_model cfg = true).
Proof.
  cbv zeta. rewrite run_generate. cbv zeta. rewrite run_primary.
  destruct (str_eqb (TTS_ENGINE cfg) (u "huggingface") && hf_libraries_installed cfg
            && hf_processor cfg && hf_model cfg) eqn:E1.
  - assert (Hready : TTS_ENGINE cfg = u "huggingface"
                     /\ hf_libraries_installed cfg && hf_processor cfg && hf_model cfg
                        = true).
    { rewrite <- !andb_assoc in E1. apply andb_true_iff in E1 as [E1 E2].
      split; [now apply bool_decide_eq_true_1 in E1|]. now rewrite <- !andb_assoc. }
    destruct (truthy text) eqn:Et; cbn [returned calls fst is_none andb no_audio].
    + destruct (w n (HfSynthesize text)) as [e|b]; cbn [fst is_none andb no_audio].
      * destruct (gtts_installed cfg); cbn [andb returned final calls app length].
        -- destruct (w (n + 1)%nat (GttsSynthesize text lang)) as [e'|b'];
             repeat shape_goal; intros _; exact Hready.
        -- repeat shape_goal. intros _; exact Hready.
      * repeat shape_goal. intros _; exact Hready.
    + rewrite andb_false_r. repeat shape_goal. intros [].
  - destruct (str_eqb (TTS_ENGINE cfg) (u "gtts") && gtts_installed cfg && truthy text)
      eqn:E2.
    + apply andb_true_iff in E2 as [E2 Et]. apply andb_true_iff in E2 as [_ Eg].
      rewrite Eg, Et. cbn [returned calls].
      destruct (w n (GttsSynthesize text lang)) as [e|b]; cbn [fst is_none andb no_audio].
      * cbn [returned final calls app length].
        destruct (w (n + 1)%nat (GttsSynthesize text lang)) as [e'|b'];
          repeat shape_goal; intros [[=]|[[=]|[]]].
      * repeat shape_goal. intros [[=]|[]].
    + cbn [returned calls fst is_none andb length app no_audio].
      destruct (gtts_installed cfg && truthy text); cbn [returned final calls].
      * destruct (w (n + 0)%nat (GttsSynthesize text lang)) as [e'|b'];
          repeat shape_goal; intros [[=]|[]].
      * repeat shape_goal. intros [].
Qed.

(** X5. [generate_speech_audio] returns all three of audio bytes, format
    and engine name, or none of them: WAV under the name 'Hugging Face', or
    MP3 under the name 'gTTS' or 'gTTS (Fallback)'.  It leaves the session
    alone and makes at most two calls, each a synthesis of the given text;
    the Hugging Face model is run only where it is the configured engine
    and is loaded. *)
Theorem generate_speech_audio_shape (S : Type) (cfg : tts_config) (w : world)
    (n : nat) (s : S) (text lang : list N) :
  let o := run w n (generate_speech_audio cfg text lang) s in
  (returned o = no_audio
   \/ (exists b, returned o = (Some b, Some (u "audio/wav"), Some (u "Hugging Face")))
   \/ (exists b, returned o = (Some b, Some (u "audio/mp3"), Some (u "gTTS")))
   \/ (exists b, returned o = (Some b, Some (u "audio/mp3"), Some (u "gTTS (Fallback)"))))
  /\ final o = s
  /\ (length (calls o) <= 2)%nat
  /\ Forall (fun c => c = (HfSynthesize text, s) \/ c = (GttsSynthesize text lang, s))
       (calls o)
  /\ (In (HfSynthesize text, s) (calls o) ->
      TTS_ENGINE cfg = u "huggingface"
      /\ hf_libraries_installed cfg && hf_processor cfg && hf_model cfg = true).
Proof. exact (synthesis_shape S cfg w n s text lang). Qed.

Lemma engine_is (cfg : tts_config) (name : list N) :
  TTS_ENGINE cfg = name -> forall other, str_eqb (TTS_ENGINE cfg) other = str_eqb name other.
Proof. now intros ->. Qed.

(** X6. With gTTS as the configured engine, a synthesis that fails is
    tried a second time: a first success is returned under the name 'gTTS'
    after one call; after a first failure gTTS is called again with the same
    text and language, and a success of that call is returned under the name
    'gTTS (Fallback)'. *)
Theorem gtts_engine_tries_twice (S : Type) (cfg : tts_config) (w : world)
    (n : nat) (s : S) (text lang : list N) :
  TTS_ENGINE cfg = u "gtts" -> gtts_installed cfg = true -> truthy text = true ->
  run w n (generate_speech_audio cfg text lang) s =
  match w n (GttsSynthesize text lang) with
  | inr audio_bytes =>
      {| returned := (Some audio_bytes, Some (u "audio/mp3"), Some (u "gTTS"));
         final := s;
         calls := [(GttsSynthesize text lang, s)] |}
  | inl _ =>
      {| returned :=
           match w (Datatypes.S n) (GttsSynthesize text lang) with
           | inr audio_bytes =>
               (Some audio_bytes, Some (u "audio/mp3"), Some (u "gTTS (Fallback)"))
           | inl _ => no_audio
           end;
         final := s;
         calls := [(GttsSynthesize text lang, s); (GttsSynthesize text lang, s)] |}
  end.
Proof.
  intros He Hg Ht. rewrite run_generate. cbv zeta. rewrite run_primary.
  rewrite !(engine_is cfg _ He), Hg, Ht.
  change (str_eqb (u "gtts") (u "huggingface")) with false.
  change (str_eqb (u "gtts") (u "gtts")) with true. cbn [andb].
  destruct (w n (GttsSynthesize text lang)) as [e|b];
    cbn [returned calls fst is_none andb no_audio length app]; [|reflexivity].
  now rewrite Nat.add_1_r.
Qed.

(** X6 when gTTS fails once and then works. *)
Lemma gtts_engine_tries_twice_witness :
  run (fun k q =>
         match q return reply q with
         | GttsSynthesize _ _ =>
             match k with O => inl OtherException | _ => inr [73; 68; 51] end
         | q' => all_down k q'
         end) 0
    (generate_speech_audio
       {| TTS_ENGINE := u "gtts"; hf_libraries_installed := false; hf_processor := false;
          hf_model := false; gtts_installed := true |} (u "Hund") (u "de")) tt
  = {| returned := (Some [73; 68; 51], Some (u "audio/mp3"), Some (u "gTTS (Fallback)"));
       final := tt;
       calls := [(GttsSynthesize (u "Hund") (u "de"), tt);
                 (GttsSynthesize (u "Hund") (u "de"), tt)] |}.
Proof.
  apply (gtts_engine_tries_twice unit
           {| TTS_ENGINE := u "gtts"; hf_libraries_installed := false;
              hf_processor := false; hf_model := false; gtts_installed := true |}
           (fun k q =>
              match q return reply q with
              | GttsSynthesize _ _ =>
                  match k with O => inl OtherException | _ => inr [73; 68; 51] end
              | q' => all_down k q'
              end) 0 tt (u "Hund") (u "de")); reflexivity.
Defined.

(** X7. What [is_tts_available] says about [generate_speech_audio].  Where
    it is true, a synthesis of a non-empty text calls a back end.  Where it
    is false and gTTS is not installed, and for every empty text, no back end
    is called and there is no audio.  It can be false where a synthesis
    works: with the Hugging Face engine configured but not loaded and gTTS
    installed, it is false, and the audio of gTTS is returned. *)
Theorem is_tts_available_and_synthesis (S : Type) (cfg : tts_config) (w : world)
    (n : nat) (s : S) (text lang : list N) :
  let o := run w n (generate_speech_audio cfg text lang) s in
  (is_tts_available cfg = true -> truthy text = true -> calls o <> [])
  /\ (is_tts_available cfg = false -> gtts_installed cfg = false ->
      o = {| returned := no_audio; final := s; calls := [] |})
  /\ (truthy text = false -> o = {| returned := no_audio; final := s; calls := [] |})
  /\ (TTS_ENGINE cfg = u "huggingface" ->
      hf_libraries_installed cfg && hf_processor cfg && hf_model cfg = false ->
      gtts_installed cfg = true -> truthy text = true ->
      is_tts_available cfg = false
      /\ o = {| returned :=
                  match w n (GttsSynthesize text lang) with
                  | inr audio_bytes =>
                      (Some audio_bytes, Some (u "audio/mp3"), Some (u "gTTS (Fallback)"))
                  | inl _ => no_audio
                  end;
                final := s;
                calls := [(GttsSynthesize text lang, s)] |}).
Proof.
  cbv zeta. rewrite run_generate. cbv zeta. rewrite run_primary.
  unfold is_tts_available. rewrite <- !andb_assoc.
  split; [|split; [|split]].
  - intros Ha ->.
    destruct (str_eqb (TTS_ENGINE cfg) (u "huggingface")); cbn [andb].
    + rewrite Ha. cbn [returned calls].
      destruct (is_none _ && _); cbn [calls app]; discriminate.
    + rewrite Ha. cbn [andb].
      destruct (str_eqb (TTS_ENGINE cfg) (u "gtts")); cbn [andb returned calls];
        [destruct (is_none _ && _); cbn [calls app]; discriminate|].
      cbn [fst is_none no_audio calls app]. discriminate.
  - intros Ha Hg. rewrite Hg. cbn [andb]. rewrite !andb_false_r.
    destruct (str_eqb (TTS_ENGINE cfg) (u "huggingface")); cbn [andb].
    + rewrite Ha. reflexivity.
    + reflexivity.
  - intros ->. rewrite !andb_false_r. now destruct (_ && _).
  - intros He Hr Hg Ht. rewrite !(engine_is cfg _ He).
    change (str_eqb (u "huggingface") (u "huggingface")) with true.
    change (str_eqb (u "huggingface") (u "gtts")) with false.
    cbn [andb]. rewrite Hr, Hg, Ht.
    cbn [returned calls fst is_none andb no_audio length app].
    split; [reflexivity|]. now rewrite Nat.add_0_r.
Qed.

(** X7 for the engine of the source when the model failed to load: the
    page is told that speech is not available, and gTTS gives audio. *)
Lemma is_tts_available_and_synthesis_witness :
  is_tts_available
    {| TTS_ENGINE := u "huggingface"; hf_libraries_installed := true;
       hf_processor := false; hf_model := false; gtts_installed := true |} = false
  /\ run (only_gtts [73; 68; 51]) 0
       (generate_speech_audio
          {| TTS_ENGINE := u "huggingface"; hf_libraries_installed := true;
             hf_processor := false; hf_model := false; gtts_installed := true |}
          (u "Hund") (u "de")) tt
     = {| returned := (Some [73; 68; 51], Some (u "audio/mp3"), Some (u "gTTS (Fallback)"));
          final := tt;
          calls := [(GttsSynthesize (u "Hund") (u "de"), tt)] |}.
Proof.
  destruct (is_tts_available_and_synthesis unit
              {| TTS_ENGINE := u "huggingface"; hf_libraries_installed := true;
                 hf_processor := false; hf_model := false; gtts_installed := true |}
              (only_gtts [73; 68; 51]) 0 tt (u "Hund") (u "de")) as (_ & _ & _ & H).
  apply H; reflexivity.
Defined.

(** X8. The banner under the title agrees with [is_tts_available] for the
    two engines the module knows: it is a warning exactly when
    [is_tts_available] is false, and an information line otherwise.  For
    any other engine name the banner is the warning
    that speech is unavailable, with the muted speaker and that text, also
    where gTTS is installed and [is_tts_available] is true. *)
Theorem status_banner_agrees (cfg : tts_config) (cuda_is_available : bool) :
  (TTS_ENGINE cfg = u "huggingface" \/ TTS_ENGINE cfg = u "gtts" ->
   is_warning (status_banner cfg cuda_is_available) = negb (is_tts_available cfg))
  /\ (TTS_ENGINE cfg <> u "huggingface" -> TTS_ENGINE cfg <> u "gtts" ->
      is_warning (status_banner cfg cuda_is_available) = true
      /\ is_tts_available cfg = gtts_installed cfg
      /\ status_banner cfg cuda_is_available
         = Warning
             (muted_speaker
                ++ u " TTS is unavailable. Please install required libraries (gTTS or transformers, torch, soundfile).")).
Proof.
  unfold status_banner, get_tts_status, is_tts_available. cbv zeta. split.
  - intros [He|He]; rewrite !(engine_is cfg _ He).
    + change (str_eqb (u "huggingface") (u "huggingface")) with true. cbv iota.
      destruct (hf_libraries_installed cfg), (hf_processor cfg), (hf_model cfg),
        cuda_is_available; vm_compute; reflexivity.
    + change (str_eqb (u "gtts") (u "huggingface")) with false.
      change (str_eqb (u "gtts") (u "gtts")) with true. cbv iota.
      destruct (gtts_installed cfg); vm_compute; reflexivity.
  - intros H1 H2. unfold str_eqb.
    rewrite !bool_decide_eq_false_2 by assumption.
    split; [vm_compute; reflexivity|]. split; [reflexivity|].
    vm_compute. reflexivity.
Qed.

(** X8 for the configuration of the source when everything is loaded:
    the banner is an information line. *)
Lemma status_banner_agrees_witness :
  is_warning (status_banner all_loaded true) = negb (is_tts_available all_loaded).
Proof.
  destruct (status_banner_agrees all_loaded true) as [H _]. apply H. left. reflexivity.
Defined.

End TtsRun.

(** ** The page: handlers, invariants and the result area *)

Module PageFacts.
Import Py Effects TranslationApi OllamaUtils TtsUtils App Views EffectsFacts Scenarios
  TtsSpec AppSpec TtsRun.

Ltac session_cbn :=
  cbn [input_sentence word_translation_result sentence_translation_result
       active_translation_word german_example_sentence_result
       english_example_translation_result show_word_buttons tts_audio_bytes
       tts_audio_format sentence_input_widget
       set_input_sentence set_word_translation_result set_sentence_translation_result
       set_active_translation_word set_german_example_sentence_result
       set_english_example_translation_result set_show_word_buttons
       set_tts_audio_bytes set_tts_audio_format set_sentence_input_widget
       word_reset sentence_reset input_reset audio_reset initial_session final].

Lemma update_input_state_cases (s : session) :
  update_input_state s =
  match sentence_input_widget s with
  | Some text => if str_eqb (input_sentence s) text then inr s else inr (input_reset text s)
  | None => if str_eqb (input_sentence s) [] then inr s else inl AttributeError
  end.
Proof.
  unfold update_input_state.
  destruct (sentence_input_widget s) as [text|]; cbn [default];
    now destruct (str_eqb (input_sentence s) _).
Qed.

Section WithUnicode.
Context {U : UnicodeDB}.

(** To prove a property of every page, prove it of the first page and
    through each handler. *)
Lemma reachable_by_handlers (cfg : tts_config) (P : session -> Prop) :
  P initial_session ->
  (forall s text, P s -> P (set_sentence_input_widget (Some text) s)) ->
  (forall s text, P s -> sentence_input_widget s = Some text ->
                  input_sentence s <> text -> P (input_reset text s)) ->
  (forall s, P s -> P (toggle_words s)) ->
  (forall w word s, P s -> P (final (run w 0 (handle_word_click word) s))) ->
  (forall w s, P s -> P (final (run w 0 translate_full_sentence s))) ->
  (forall w text lang s, P s -> P (final (run w 0 (handle_tts_click cfg text lang) s))) ->
  forall s, reachable cfg s -> P s.
Proof.
  intros H0 Hw He Ht Hc Hf Ha s Hs.
  induction Hs as [|w a s s' _ IH Hstep]; [exact H0|].
  destruct a as [text| |word| |text lang]; cbn [perform] in Hstep; unfold ok in Hstep.
  - rewrite update_input_state_cases in Hstep.
    cbn [sentence_input_widget set_sentence_input_widget input_sentence] in Hstep.
    unfold str_eqb in Hstep. case_bool_decide as Heq.
    + assert (E : set_sentence_input_widget (Some text) s = s') by congruence.
      rewrite <- E. now apply Hw.
    + assert (E : input_reset text (set_sentence_input_widget (Some text) s) = s')
        by congruence.
      rewrite <- E. apply He; [now apply Hw|reflexivity|exact Heq].
  - assert (E : toggle_words s = s') by congruence. rewrite <- E. now apply Ht.
  - assert (E : final (run w 0 (handle_word_click word) s) = s') by congruence.
    rewrite <- E. now apply Hc.
  - assert (E : final (run w 0 translate_full_sentence s) = s') by congruence.
    rewrite <- E. now apply Hf.
  - assert (E : final (run w 0 (handle_tts_click cfg text lang) s) = s') by congruence.
    rewrite <- E. now apply Ha.
Qed.

(** A full-sentence translation, call by call.  Where [translate_text]
    raises, nothing is stored after the five assignments. *)
Lemma run_translate_full_sentence (w : world) (n : nat) (s : session) :
  let r := run w n (translate_text (input_sentence s) (u "de") (u "en"))
             (sentence_reset s) in
  run w n translate_full_sentence s =
  match returned r with
  | inr full_translation =>
      {| returned := inr tt;
         final := set_sentence_translation_result
                    (or_marker full_translation (u "[Full Translation Failed]"))
                    (sentence_reset s);
         calls := calls r |}
  | inl e => {| returned := inl e; final := sentence_reset s; calls := calls r |}
  end.
Proof.
  cbv zeta. unfold translate_full_sentence. destruct (input_sentence s) as [|c text] eqn:E.
  - cbn -[u or_marker]. rewrite E. cbn -[u or_marker]. reflexivity.
  - cbn -[u or_marker translation_of translation_request]. rewrite E.
    cbn -[u or_marker translation_of translation_request].
    destruct (translation_of _) as [e|full_translation]; reflexivity.
Qed.

(** A pronunciation click on a non-empty text, call by call. *)
Lemma run_handle_tts_click (cfg : tts_config) (w : world) (n : nat)
    (text lang : list N) (s : session) :
  truthy text = true ->
  let g := run w n (generate_speech_audio cfg text lang) (audio_reset s) in
  run w n (handle_tts_click cfg text lang) s =
  {| returned := tt;
     final := if truthy_opt (fst (fst (returned g))) && truthy_opt (snd (fst (returned g)))
              then set_tts_audio_format (snd (fst (returned g)))
                     (set_tts_audio_bytes (fst (fst (returned g))) (audio_reset s))
              else audio_reset s;
     calls := calls g |}.
Proof.
  intros Ht. cbv zeta. unfold handle_tts_click. rewrite Ht. cbn [negb].
  rewrite !run_modify_then, run_bind. cbv zeta.
  rewrite generate_speech_audio_final. fold (audio_reset s).
  destruct (truthy_opt _ && truthy_opt _);
    cbn [run final returned calls mbind prog_bind bind modify mret prog_ret];
    now rewrite app_nil_r.
Qed.

(** What [translate_text] gives: it raises an [UnboundLocalError], and
    then [requests.get] had raised a [ValueError]; or it returns [None]; or
    it returns a string, a list or a dictionary. *)
Lemma translation_of_kind (r : result http_response) :
  (translation_of r = inl UnboundLocalError /\ r = inl ValueError)
  \/ translation_of r = inr VNone
  \/ exists v, translation_of r = inr v /\ is_container v = true.
Proof.
  unfold translation_of.
  destruct r as [e|response]; cbn [rbind];
    [destruct e; first [left; split; reflexivity|right; left; reflexivity]|].
  right.
  destruct (raise_for_status response) as [e|[]]; cbn [rbind]; [left; now destruct e|].
  destruct (json_body response) as [e|data]; cbn [rbind]; [left; now destruct e|].
  unfold extract_translation.
  destruct (dict_get (u "responseData") (VDict []) data) as [e|rd]; cbn [rbind];
    [left; now destruct e|].
  destruct (dict_get (u "translatedText") VNone rd) as [e|t]; cbn [rbind];
    [left; now destruct e|].
  destruct (truthy_val t); [|now left].
  destruct t as [| | |t| |]; cbn [val_contains rbind raise ok as_str];
    try (now left).
  - destruct (contains (u "MYMEMORY WARNING") t); right; eexists; split; reflexivity.
  - destruct (existsb _ _); [now left|right; eexists; split; reflexivity].
  - destruct (assoc _ _); [now left|right; eexists; split; reflexivity].
Qed.

(** A value [translate_text] returned is [None] or a value [in] is defined
    on. *)
Lemma translation_of_container (r : result http_response) (v : pyval) :
  translation_of r = inr v -> truthy_val v = true -> is_container v = true.
Proof.
  intros E Ht. destruct (translation_of_kind r) as [[E' _]|[E'|(v' & E' & Hc)]];
    rewrite E' in E; try discriminate.
  - injection E as <-. discriminate.
  - now injection E as <-.
Qed.

Lemma translate_text_container {S} (w : world) n (s : S) text src tgt (v : pyval) :
  returned (run w n (translate_text text src tgt) s) = inr v ->
  truthy_val v = true -> is_container v = true.
Proof.
  destruct text as [|c text]; [intros [= <-]; discriminate|].
  apply translation_of_container.
Qed.

(** The stored value of a translation: the translation or the marker,
    never false and always a value [in] is defined on. *)
Lemma or_marker_container (v : pyval) (c : N) (marker : list N) :
  (truthy_val v = true -> is_container v = true) ->
  truthy_val (or_marker v (c :: marker)) = true
  /\ is_container (or_marker v (c :: marker)) = true.
Proof.
  intros H. unfold or_marker. destruct (truthy_val v) eqn:E; [|split; reflexivity].
  split; [exact E|now apply H].
Qed.

Lemma val_contains_container (needle : list N) (v : pyval) :
  is_container v = true -> exists b, val_contains needle v = inr b.
Proof. destruct v; try discriminate; intros _; eexists; reflexivity. Qed.

Lemma stored_well_ext (a b : session) :
  word_translation_result a = word_translation_result b ->
  sentence_translation_result a = sentence_translation_result b ->
  active_translation_word a = active_translation_word b ->
  stored_well a -> stored_well b.
Proof. unfold stored_well. intros -> -> ->. trivial. Qed.

Lemma stored_well_intro (s : session) :
  match word_translation_result s with
  | Some (_, t) => truthy_val t = true /\ is_container t = true
  | None => True
  end ->
  (truthy_val (sentence_translation_result s) = true ->
   is_container (sentence_translation_result s) = true) ->
  (active_translation_word s = None \/ sentence_translation_result s = VNone) ->
  stored_well s.
Proof.
  intros Hw Hs Ha. unfold stored_well. split; [|split].
  - intros a t E. now rewrite E in Hw.
  - exact Hs.
  - intros Hn. destruct Ha as [Ha|Ha]; [contradiction|exact Ha].
Qed.

Lemma handle_word_click_stored_well (w : world) n word s :
  stored_well (final (run w n (handle_word_click word) s)).
Proof.
  destruct word as [|c rest].
  - rewrite run_handle_word_click_empty. apply stored_well_intro; session_cbn.
    + split; reflexivity.
    + discriminate.
    + now right.
  - rewrite run_handle_word_click. cbv zeta.
    destruct (translation_of (w n (translation_request (c :: rest) (u "de") (u "en"))))
      as [e|t] eqn:Et.
    + apply stored_well_intro; session_cbn; [exact I|discriminate|now right].
    + pose proof (or_marker_container t 91 (u "Translation Failed]")
                    (translation_of_container _ t Et)) as Hword.
      destruct (example_result _) as [[|d ex]|];
        [|destruct (translation_of
                      (w (S (S n)) (translation_request (d :: ex) (u "de") (u "en"))))
            as [e'|t']|];
        (apply stored_well_intro; session_cbn;
         [exact Hword|discriminate|now right]).
Qed.

Lemma translate_full_sentence_stored_well (w : world) n s :
  stored_well s -> stored_well (final (run w n translate_full_sentence s)).
Proof.
  intros (_ & Hs & _). rewrite run_translate_full_sentence. cbv zeta.
  destruct (returned _) as [e|t] eqn:Et; apply stored_well_intro; session_cbn.
  - exact I.
  - exact Hs.
  - now left.
  - exact I.
  - intros _.
    apply (or_marker_container t 91 (u "Full Translation Failed]")
             (translate_text_container _ _ _ _ _ _ t Et)).
  - now left.
Qed.

(** Every page stores its results well. *)
Lemma reachable_stored_well (cfg : tts_config) (s : session) :
  reachable cfg s -> stored_well s.
Proof.
  apply reachable_by_handlers.
  - apply stored_well_intro; session_cbn; try exact I; [discriminate|now left].
  - intros s0 text. now apply stored_well_ext.
  - intros s0 text _ _ _. apply stored_well_intro; session_cbn; try exact I;
      [discriminate|now left].
  - intros s0 H. unfold toggle_words.
    destruct (show_word_buttons s0); cbn [negb show_word_buttons set_show_word_buttons].
    + destruct H as (_ & H2 & _). apply stored_well_intro; session_cbn; try exact I;
        [exact H2|now left].
    + revert H. now apply stored_well_ext.
  - intros w word s0 _. apply handle_word_click_stored_well.
  - intros w s0. apply translate_full_sentence_stored_well.
  - intros w text lang s0 H.
    destruct (handle_tts_click_final cfg w 0 text lang s0) as (b & f & ->).
    revert H. now apply stored_well_ext.
Qed.

(** On a page that stores its results well the word branch is drawn
    without an error. *)
Lemma render_word_stored_well (s : session) :
  stored_well s -> exists word, render_word s = inr word.
Proof.
  intros (Hw & _ & _). unfold render_word.
  destruct (active_translation_word s) as [a|]; [|eexists; reflexivity].
  destruct (truthy a); [|eexists; reflexivity].
  destruct (word_translation_result s) as [[a' t]|] eqn:Et; [|eexists; reflexivity].
  destruct (str_eqb a' a); [|eexists; reflexivity].
  destruct (Hw a' t eq_refl) as [Ht Hc]. rewrite Ht.
  destruct (val_contains_container (u "[Translation Failed]") t Hc) as [b ->].
  cbn [rbind]. destruct b; eexists; reflexivity.
Qed.

(** On a page that stores its results well the result area raises only
    in the sentence branch, where the key of the pronunciation button is
    built with the hash of a list or a dictionary. *)
Lemma render_raises (cfg : tts_config) (s : session) (e : exn) :
  stored_well s ->
  render cfg s = inl e <->
  e = TypeError
  /\ is_tts_available cfg = true
  /\ active_translation_word s = None
  /\ truthy_val (sentence_translation_result s) = true
  /\ val_contains (u "[Failed]") (sentence_translation_result s) = inr false
  /\ ((exists l, sentence_translation_result s = VList l)
      \/ (exists kvs, sentence_translation_result s = VDict kvs)).
Proof.
  intros Hwell. pose proof Hwell as (_ & Hs & Ha). unfold render.
  destruct (truthy_opt (active_translation_word s)) eqn:Ea.
  - destruct (render_word_stored_well s Hwell) as [word ->]. cbn [rbind ok].
    split; [discriminate|]. intros (_ & _ & Hn & _). rewrite Hn in Ea. discriminate.
  - destruct (truthy_val (sentence_translation_result s)) eqn:Et;
      [|split; [discriminate|intros (_ & _ & _ & [=] & _)]].
    assert (Hn : active_translation_word s = None).
    { destruct (active_translation_word s) as [a|] eqn:E; [|reflexivity].
      rewrite Ha in Et by discriminate. discriminate. }
    specialize (Hs eq_refl). unfold render_sentence. rewrite Et.
    destruct (sentence_translation_result s) as [| | |t|l|kvs]; try discriminate;
      cbn [val_contains rbind ok].
    + destruct (contains (u "[Failed]") t); cbn [negb rbind ok].
      * split; [discriminate|intros (_ & _ & _ & _ & [=] & _)].
      * destruct (is_tts_available cfg); cbn [py_hash rbind ok];
          (split; [discriminate|intros (_ & _ & _ & _ & _ & [[l [=]]|[kvs [=]]])]).
    + destruct (existsb _ l); cbn [negb rbind ok].
      * split; [discriminate|intros (_ & _ & _ & _ & [=] & _)].
      * destruct (is_tts_available cfg); cbn [py_hash rbind ok raise].
        -- split; [intros [= <-]; repeat split; try assumption; left; now exists l|].
           now intros (-> & _).
        -- split; [discriminate|intros (_ & [=] & _)].
    + destruct (assoc _ kvs); cbn [negb rbind ok].
      * split; [discriminate|intros (_ & _ & _ & _ & [=] & _)].
      * destruct (is_tts_available cfg); cbn [py_hash rbind ok raise].
        -- split; [intros [= <-]; repeat split; try assumption; right; now exists kvs|].
           now intros (-> & _).
        -- split; [discriminate|intros (_ & [=] & _)].
Qed.

Lemma audio_well_ext (a b : session) :
  tts_audio_bytes a = tts_audio_bytes b -> tts_audio_format a = tts_audio_format b ->
  audio_well a -> audio_well b.
Proof. unfold audio_well, audio_shown. intros -> ->. trivial. Qed.

Lemma audio_well_cleared (s : session) :
  tts_audio_bytes s = None ->
  (tts_audio_format s = None \/ tts_audio_format s = Some (u "audio/wav")
   \/ tts_audio_format s = Some (u "audio/mp3")) ->
  audio_well s.
Proof. intros Hb Hf. split; [congruence|exact Hf]. Qed.

Lemma handle_tts_click_audio_well cfg (w : world) n text lang s :
  truthy text = true ->
  audio_well (final (run w n (handle_tts_click cfg text lang) s)).
Proof.
  intros Ht. rewrite (run_handle_tts_click cfg w n text lang s Ht). cbv zeta.
  cbn [final].
  destruct (synthesis_shape session cfg w n (audio_reset s) text lang)
    as (Hshape & _). cbv zeta in Hshape.
  destruct Hshape as [E|[[b E]|[[b E]|[b E]]]]; rewrite E; cbn [fst snd truthy_opt no_audio];
    try (apply audio_well_cleared; [reflexivity|now left]);
    destruct b as [|c b]; cbn [truthy andb];
    try (apply audio_well_cleared; [reflexivity|now left]);
    (split; [intros _; reflexivity|cbn; auto]).
Qed.

Lemma reachable_audio_well (cfg : tts_config) (s : session) :
  reachable cfg s -> audio_well s.
Proof.
  apply reachable_by_handlers.
  - apply audio_well_cleared; [reflexivity|now left].
  - intros s0 text. now apply audio_well_ext.
  - intros s0 text [_ H] _ _. apply audio_well_cleared; [reflexivity|exact H].
  - intros s0 [Hb H]. unfold toggle_words.
    destruct (show_word_buttons s0); cbn [negb show_word_buttons set_show_word_buttons].
    + apply audio_well_cleared; [reflexivity|exact H].
    + split; [exact Hb|exact H].
  - intros w word s0 [_ H]. apply audio_well_cleared.
    + pose proof (handle_word_click_states w 0 word s0) as Hs. cbv zeta in Hs.
      apply Forall_app in Hs as [_ Hs]. apply Forall_cons_1 in Hs as [(_ & _ & _ & Hs) _].
      exact Hs.
    + destruct word as [|c rest].
      * rewrite run_handle_word_click_empty. exact H.
      * rewrite run_handle_word_click. cbv zeta. click_cases; exact H.
  - intros w s0 [_ H]. rewrite run_translate_full_sentence. cbv zeta.
    destruct (returned _) as [e|t]; (apply audio_well_cleared; [reflexivity|exact H]).
  - intros w text lang s0 H. destruct (truthy text) eqn:Ht.
    + now apply handle_tts_click_audio_well.
    + destruct text; [|discriminate]. exact H.
Qed.

(** The stored sentence is the text of the text area. *)
Lemma reachable_input (cfg : tts_config) (s : session) :
  reachable cfg s -> input_sentence s = default [] (sentence_input_widget s).
Proof.
  induction 1 as [|w a s s' _ IH Hstep]; [reflexivity|].
  destruct a as [text| |word| |text lang]; cbn [perform] in Hstep; unfold ok in Hstep.
  - rewrite update_input_state_cases in Hstep.
    cbn [sentence_input_widget set_sentence_input_widget input_sentence] in Hstep.
    unfold str_eqb in Hstep. case_bool_decide as Heq.
    + assert (E : set_sentence_input_widget (Some text) s = s') by congruence.
      rewrite <- E. exact Heq.
    + assert (E : input_reset text (set_sentence_input_widget (Some text) s) = s')
        by congruence.
      rewrite <- E. reflexivity.
  - assert (E : toggle_words s = s') by congruence. rewrite <- E.
    unfold toggle_words. now destruct (show_word_buttons s).
  - assert (E : final (run w 0 (handle_word_click word) s) = s') by congruence.
    rewrite <- E. destruct word as [|c rest].
    + rewrite run_handle_word_click_empty. exact IH.
    + rewrite run_handle_word_click. cbv zeta. click_cases; exact IH.
  - assert (E : final (run w 0 translate_full_sentence s) = s') by congruence.
    rewrite <- E, run_translate_full_sentence. cbv zeta.
    destruct (returned _) as [e|t]; exact IH.
  - assert (E : final (run w 0 (handle_tts_click cfg text lang) s) = s') by congruence.
    rewrite <- E.
    destruct (handle_tts_click_final cfg w 0 text lang s) as (b & f & ->). exact IH.
Qed.

End WithUnicode.

#[local] Existing Instance ascii_only.

(** X9. On every page that can be reached the word panel and the sentence
    translation exclude each other: while a word is active no sentence
    translation is stored, and while a sentence translation is stored no
    word is active. *)
Theorem word_and_sentence_exclude {U : UnicodeDB} (cfg : tts_config) (s : session) :
  reachable cfg s ->
  (active_translation_word s <> None -> sentence_translation_result s = VNone)
  /\ (sentence_translation_result s <> VNone -> active_translation_word s = None).
Proof.
  intros H. apply reachable_stored_well in H as (_ & _ & H). split; [exact H|].
  intros Hs. destruct (active_translation_word s) as [a|]; [|reflexivity].
  exfalso. apply Hs, H. discriminate.
Qed.

(** X9 on the page after a click on 'Hund' with every service down. *)
Lemma word_and_sentence_exclude_witness :
  (active_translation_word
     (final (run all_down 0 (handle_word_click (u "Hund")) initial_session)) <> None ->
   sentence_translation_result
     (final (run all_down 0 (handle_word_click (u "Hund")) initial_session)) = VNone)
  /\ (sentence_translation_result
        (final (run all_down 0 (handle_word_click (u "Hund")) initial_session)) <> VNone ->
      active_translation_word
        (final (run all_down 0 (handle_word_click (u "Hund")) initial_session)) = None).
Proof.
  apply (@word_and_sentence_exclude ascii_only all_loaded).
  apply (reachable_step all_loaded all_down (ClickWord (u "Hund")) initial_session).
  - apply reachable_initial.
  - reflexivity.
Defined.

(** X10. On every page that can be reached stored audio can be played:
    audio bytes are stored only together with a format, they are not empty,
    and the stored format is 'audio/wav' or 'audio/mp3' if there is one. *)
Theorem stored_audio_is_playable {U : UnicodeDB} (cfg : tts_config) (s : session) :
  reachable cfg s ->
  (tts_audio_bytes s <> None -> audio_shown s = true)
  /\ (tts_audio_format s = None \/ tts_audio_format s = Some (u "audio/wav")
      \/ tts_audio_format s = Some (u "audio/mp3")).
Proof. apply reachable_audio_well. Qed.

(** X10 on the page after a pronunciation click when only gTTS works. *)
Lemma stored_audio_is_playable_witness :
  (tts_audio_bytes
     (final (run (only_gtts [73; 68; 51]) 0
               (handle_tts_click all_loaded (u "Hund") (u "de")) initial_session)) <> None ->
   audio_shown
     (final (run (only_gtts [73; 68; 51]) 0
               (handle_tts_click all_loaded (u "Hund") (u "de")) initial_session)) = true)
  /\ (tts_audio_format
        (final (run (only_gtts [73; 68; 51]) 0
                  (handle_tts_click all_loaded (u "Hund") (u "de")) initial_session)) = None
      \/ tts_audio_format
           (final (run (only_gtts [73; 68; 51]) 0
                     (handle_tts_click all_loaded (u "Hund") (u "de")) initial_session))
         = Some (u "audio/wav")
      \/ tts_audio_format
           (final (run (only_gtts [73; 68; 51]) 0
                     (handle_tts_click all_loaded (u "Hund") (u "de")) initial_session))
         = Some (u "audio/mp3")).
Proof.
  apply (@stored_audio_is_playable ascii_only all_loaded).
  apply (reachable_step all_loaded (only_gtts [73; 68; 51])
           (ClickTts (u "Hund") (u "de")) initial_session).
  - apply reachable_initial.
  - reflexivity.
Defined.

(** X11. [update_input_state] raises exactly when the key of the text
    area is absent while a sentence is stored, and then an [AttributeError].
    Run a second time it changes nothing.  On a page that can be reached the
    stored sentence is the text of the text area, so there the callback
    neither raises nor changes anything. *)
Theorem update_input_state_edge {U : UnicodeDB} :
  (forall (s : session) (e : exn),
     update_input_state s = inl e <->
     e = AttributeError /\ sentence_input_widget s = None /\ input_sentence s <> [])
  /\ (forall s s' : session,
        update_input_state s = inr s' -> update_input_state s' = inr s')
  /\ (forall (cfg : tts_config) (s : session),
        reachable cfg s ->
        input_sentence s = default [] (sentence_input_widget s)
        /\ update_input_state s = inr s).
Proof.
  split; [|split].
  - intros s e. rewrite update_input_state_cases. unfold str_eqb.
    destruct (sentence_input_widget s) as [text|].
    + case_bool_decide; (split; [discriminate|intros (_ & [=] & _)]).
    + case_bool_decide as Hin.
      * split; [discriminate|]. intros (_ & _ & Hne). contradiction.
      * split; [intros [= <-]; repeat split; assumption|]. now intros (-> & _ & _).
  - intros s s'. rewrite !update_input_state_cases. unfold str_eqb.
    destruct (sentence_input_widget s) as [text|] eqn:Ew.
    + case_bool_decide as Hin; intros [= <-].
      * rewrite Ew. now rewrite bool_decide_eq_true_2.
      * session_cbn. rewrite Ew. now rewrite bool_decide_eq_true_2.
    + case_bool_decide as Hin; [|discriminate]. intros [= <-].
      rewrite Ew. now rewrite bool_decide_eq_true_2.
  - intros cfg s Hs. pose proof (reachable_input cfg s Hs) as Hin. split; [exact Hin|].
    rewrite update_input_state_cases. unfold str_eqb.
    destruct (sentence_input_widget s) as [text|]; cbn [default] in Hin;
      now rewrite bool_decide_eq_true_2.
Qed.

(** X11 on the page the script starts from with a stored sentence and no
    text area drawn yet. *)
Lemma update_input_state_edge_witness :
  update_input_state (set_input_sentence (u "Der Hund") initial_session)
  = inl AttributeError.
Proof.
  destruct (@update_input_state_edge ascii_only) as (H & _ & _).
  apply H. repeat split; discriminate.
Defined.

(** X12. On every page that can be reached the word branch of the result
    area is drawn without an exception: the translation it searches with
    [in] is a string, a list or a dictionary.  The result area as a whole
    raises in one case only, and then a [TypeError]: speech is available, no
    word is active, and the stored sentence translation is a list or a
    dictionary that is not empty and does not hold the text '[Failed]'.  The
    key of the pronunciation button is then built with the hash of the
    translation, and a list or a dictionary has none.  Without speech the
    result area is always drawn. *)
Theorem result_area_is_drawn {U : UnicodeDB} (cfg : tts_config) (s : session) :
  reachable cfg s ->
  (exists word : word_view,
     render_word s = inr word
     /\ (truthy_opt (active_translation_word s) = true ->
         render cfg s = inr (WordArea word (render_example s))))
  /\ (forall e : exn,
        render cfg s = inl e <->
        e = TypeError
        /\ is_tts_available cfg = true
        /\ active_translation_word s = None
        /\ truthy_val (sentence_translation_result s) = true
        /\ val_contains (u "[Failed]") (sentence_translation_result s) = inr false
        /\ ((exists l, sentence_translation_result s = VList l)
            \/ (exists kvs, sentence_translation_result s = VDict kvs)))
  /\ (is_tts_available cfg = false -> exists area : result_area, render cfg s = inr area).
Proof.
  intros H. pose proof (reachable_stored_well cfg s H) as Hwell.
  split; [|split].
  - destruct (render_word_stored_well s Hwell) as [word Hword]. exists word.
    split; [exact Hword|]. intros Ha. unfold render. now rewrite Ha, Hword.
  - intros e. now apply render_raises.
  - intros Hoff. destruct (render cfg s) as [e|area] eqn:E; [|now exists area].
    apply (render_raises cfg s e Hwell) in E as (_ & Hon & _). congruence.
Qed.

(** X12 on the page after the sentence 'Hund' was typed and translated by
    a provider that answers with a list of texts, with speech available:
    the result area raises. *)
Lemma result_area_is_drawn_witness :
  render all_loaded
    (final (run (provider_sends (VList [VStr (u "dog")])) 0 translate_full_sentence
              (input_reset (u "Hund")
                 (set_sentence_input_widget (Some (u "Hund")) initial_session))))
  = inl TypeError.
Proof.
  assert (Hr : reachable all_loaded
                 (final (run (provider_sends (VList [VStr (u "dog")])) 0
                           translate_full_sentence
                           (input_reset (u "Hund")
                              (set_sentence_input_widget (Some (u "Hund"))
                                 initial_session))))).
  { apply (reachable_step all_loaded (provider_sends (VList [VStr (u "dog")]))
             TranslateFullSentence
             (input_reset (u "Hund")
                (set_sentence_input_widget (Some (u "Hund")) initial_session))).
    - apply (reachable_step all_loaded all_down (EditSentence (u "Hund")) initial_session).
      + apply reachable_initial.
      + reflexivity.
    - reflexivity. }
  destruct (@result_area_is_drawn ascii_only all_loaded _ Hr) as (_ & H & _).
  apply H. repeat split. left. eexists. reflexivity.
Defined.

(** X13. The Translate Full Sentence button clears the active word, the
    word translation, both example results and the audio bytes, sends at
    most one request, for the stored sentence, from the session so cleared,
    and stores the translation, or the marker '[Full Translation Failed]'
    when there is none; where [translate_text] raises, nothing is stored
    after the clearing.  The marker does not contain the text '[Failed]' the
    result area looks for: after a failed translation the page shows the
    marker as if it were the translation, and not its error message, with
    speech available or not. *)
Theorem full_translation_failure_is_shown_as_text {U : UnicodeDB}
    (cfg : tts_config) (w : world) (n : nat) (s : session) :
  let o := run w n translate_full_sentence s in
  let r := run w n (translate_text (input_sentence s) (u "de") (u "en"))
             (sentence_reset s) in
  final o = match returned r with
            | inr full_translation =>
                set_sentence_translation_result
                  (or_marker full_translation (u "[Full Translation Failed]"))
                  (sentence_reset s)
            | inl _ => sentence_reset s
            end
  /\ calls o = calls r
  /\ (length (calls o) <= 1)%nat
  /\ (forall v : pyval,
        returned r = inr v -> truthy_val v = false ->
        render cfg (final o)
        = inr (SentenceArea (SentenceTranslation (VStr (u "[Full Translation Failed]")))))
  /\ (forall text : list N,
        returned r = inr (VStr text) -> truthy text = true ->
        render cfg (final o)
        = inr (SentenceArea (if contains (u "[Failed]") text then SentenceError
                             else SentenceTranslation (VStr text)))).
Proof.
  cbv zeta. rewrite run_translate_full_sentence. cbv zeta.
  assert (Hmark : contains (u "[Failed]") (u "[Full Translation Failed]") = false)
    by (vm_compute; reflexivity).
  assert (Htrue : truthy (u "[Full Translation Failed]") = true) by reflexivity.
  split; [|split; [|split; [|split]]].
  - now destruct (returned _).
  - now destruct (returned _).
  - destruct (returned _); cbn [calls]; destruct (input_sentence s); cbn; lia.
  - intros v -> Hf. unfold render, or_marker. session_cbn. rewrite Hf.
    cbn [truthy_opt truthy_val]. rewrite Htrue. unfold render_sentence.
    cbn [truthy_val val_contains rbind ok]. rewrite Htrue, Hmark. cbn [negb].
    now destruct (is_tts_available cfg).
  - intros text -> Hne. unfold render, or_marker. session_cbn.
    cbn [truthy_val truthy_opt]. rewrite Hne. unfold render_sentence.
    cbn [truthy_val val_contains rbind ok]. rewrite Hne.
    destruct (contains (u "[Failed]") text); cbn [negb]; [reflexivity|].
    now destruct (is_tts_available cfg).
Qed.

(** X13 with every service down and speech available. *)
Lemma full_translation_failure_is_shown_as_text_witness :
  render all_loaded
    (final (run all_down 0 translate_full_sentence
              (set_input_sentence (u "Der Hund") initial_session)))
  = inr (SentenceArea (SentenceTranslation (VStr (u "[Full Translation Failed]")))).
Proof.
  destruct (@full_translation_failure_is_shown_as_text ascii_only all_loaded all_down 0
              (set_input_sentence (u "Der Hund") initial_session)) as (_ & _ & _ & H & _).
  apply (H VNone); reflexivity.
Defined.

(** X14. A pronunciation click on the empty text does nothing.  On any
    other text it first clears the stored audio bytes and format and then
    runs the synthesis from that session; it touches no other field.  If the
    synthesis gives bytes that are not empty, they are stored with their
    format, WAV or MP3, and the player is shown; otherwise no audio is left
    on the page, whatever was stored before. *)
Theorem handle_tts_click_replaces_audio {U : UnicodeDB} (cfg : tts_config)
    (w : world) (n : nat) (text lang : list N) (s : session) :
  let o := run w n (handle_tts_click cfg text lang) s in
  let g := run w n (generate_speech_audio cfg text lang) (audio_reset s) in
  (truthy text = false -> o = {| returned := tt; final := s; calls := [] |})
  /\ (truthy text = true ->
      calls o = calls g
      /\ ((exists (c : N) (b f : list N),
             fst (fst (returned g)) = Some (c :: b)
             /\ snd (fst (returned g)) = Some f
             /\ (f = u "audio/wav" \/ f = u "audio/mp3")
             /\ final o = set_tts_audio_format (Some f)
                            (set_tts_audio_bytes (Some (c :: b)) s)
             /\ audio_shown (final o) = true)
          \/ ((fst (fst (returned g)) = None \/ fst (fst (returned g)) = Some [])
              /\ final o = audio_reset s
              /\ audio_shown (final o) = false))).
Proof.
  cbv zeta. split.
  - destruct text; [reflexivity|discriminate].
  - intros Ht. rewrite (run_handle_tts_click cfg w n text lang s Ht). cbv zeta.
    cbn [calls final]. split; [reflexivity|].
    destruct (synthesis_shape session cfg w n (audio_reset s) text lang)
      as (Hshape & _). cbv zeta in Hshape.
    assert (Hset : forall b f, set_tts_audio_format f (set_tts_audio_bytes b (audio_reset s))
                               = set_tts_audio_format f (set_tts_audio_bytes b s))
      by (intros; now destruct s).
    destruct Hshape as [E|[[b E]|[[b E]|[b E]]]]; rewrite E;
      cbn [fst snd truthy_opt no_audio andb];
      try (right; split; [now left|split; reflexivity]);
      (destruct b as [|c b]; cbn [truthy andb];
       [right; split; [now right|split; reflexivity]|]);
      left; exists c, b; eexists; (split; [reflexivity|]); (split; [reflexivity|]);
      (split; [auto|]); (split; [apply Hset|reflexivity]).
Qed.

(** X14 on a page with old audio when every back end is down: the old
    audio is gone. *)
Lemma handle_tts_click_replaces_audio_witness :
  final (run all_down 0 (handle_tts_click all_loaded (u "Katze") (u "de")) editing_session)
  = audio_reset editing_session.
Proof.
  destruct (@handle_tts_click_replaces_audio ascii_only all_loaded all_down 0
              (u "Katze") (u "de") editing_session) as (_ & H).
  destruct (H eq_refl) as (_ & [(c & b & f & E & _)|(_ & E & _)]).
  - vm_compute in E. discriminate E.
  - exact E.
Defined.

(** X15. A click on a word sends at most three requests, in this order:
    the translation of the word, the request for an example, and, only when
    an example that is not empty came back, the translation of the example.
    The example is stored as it came back, and its translation is stored
    beside it, as the translation or as the marker
    '[Example Translation Failed]'; without an example no translation of one
    is stored.  Where [translate_text] raises, the click ends with that
    request and raises too: after the first request no example is stored,
    after the third the example is stored without a translation. *)
Theorem handle_word_click_requests {U : UnicodeDB}
    (w : world) (n : nat) (c : N) (rest : list N) (s : session) :
  let word := c :: rest in
  let o := run w n (handle_word_click word) s in
  let q1 := translation_request word (u "de") (u "en") in
  let example := example_result (w (S n) (example_request word)) in
  match translation_of (w n q1) with
  | inr _ =>
      german_example_sentence_result (final o) = example
      /\ match example with
         | Some (d :: ex) =>
             let q3 := translation_request (d :: ex) (u "de") (u "en") in
             List.map fst (calls o) = [q1; example_request word; q3]
             /\ match translation_of (w (S (S n)) q3) with
                | inr english_example_translation =>
                    returned o = inr tt
                    /\ english_example_translation_result (final o)
                       = or_marker english_example_translation
                           (u "[Example Translation Failed]")
                | inl e =>
                    returned o = inl e
                    /\ english_example_translation_result (final o) = VNone
                end
         | _ =>
             List.map fst (calls o) = [q1; example_request word]
             /\ returned o = inr tt
             /\ english_example_translation_result (final o) = VNone
         end
  | inl e =>
      List.map fst (calls o) = [q1]
      /\ returned o = inl e
      /\ german_example_sentence_result (final o) = None
      /\ english_example_translation_result (final o) = VNone
  end.
Proof.
  cbv zeta. rewrite run_handle_word_click. cbv zeta.
  destruct (translation_of (w n (translation_request (c :: rest) (u "de") (u "en"))))
    as [e|t]; [repeat split|].
  destruct (example_result (w (S n) (example_request (c :: rest)))) as [[|d ex]|];
    [repeat split| |repeat split].
  destruct (translation_of _) as [e|te]; repeat split.
Qed.

End PageFacts.

(** ** The panel of word buttons *)

Module WordGridFacts.
Import Runs Py Re WordTokenizer App Parts WordGrid TokenizerSpec TokenizerRuns WordButtons.

Lemma digits_are_digits (d : Decimal.uint) : Forall (fun c => c <> 95) (digits d).
Proof. induction d; cbn [digits]; constructor; try assumption; discriminate. Qed.

Lemma digits_inj : forall d1 d2, digits d1 = digits d2 -> d1 = d2.
Proof.
  induction d1 as [|d1 IH|d1 IH|d1 IH|d1 IH|d1 IH|d1 IH|d1 IH|d1 IH|d1 IH|d1 IH];
    intros d2 H; destruct d2; cbn [digits] in H; try discriminate H;
    try reflexivity; injection H as H; f_equal; now apply IH.
Qed.

Lemma str_of_nat_inj (i j : nat) : str_of_nat i = str_of_nat j -> i = j.
Proof.
  unfold str_of_nat. intros H. apply digits_inj in H.
  rewrite <- (DecimalNat.Unsigned.of_to i), <- (DecimalNat.Unsigned.of_to j).
  now rewrite H.
Qed.

(** Two texts that agree after prefixes without underscore, each followed
    by an underscore, have the same prefix. *)
Lemma before_underscore : forall a b x y : list N,
  Forall (fun c => c <> 95) a -> Forall (fun c => c <> 95) b ->
  a ++ 95 :: x = b ++ 95 :: y -> a = b.
Proof.
  induction a as [|c a IH]; intros b x y Ha Hb H.
  - destruct b as [|d b]; [reflexivity|]. cbn in H. injection H as H _.
    apply Forall_cons_1 in Hb as [Hd _]. congruence.
  - destruct b as [|d b]; cbn in H; injection H as H1 H2.
    + apply Forall_cons_1 in Ha as [Hc _]. congruence.
    + apply Forall_cons_1 in Ha as [_ Ha]. apply Forall_cons_1 in Hb as [_ Hb].
      subst d. f_equal. eapply IH; eassumption.
Qed.

Section WithUnicode.
Context {U : UnicodeDB}.

Lemma key_inj active i j (v w : list N) :
  key (word_button active i v) = key (word_button active j w) -> i = j.
Proof.
  cbn [key word_button]. intros H. apply app_inv_head in H.
  apply str_of_nat_inj.
  change (u "_" ++ lower v) with (95 :: lower v) in H.
  change (u "_" ++ lower w) with (95 :: lower w) in H.
  eapply before_underscore; [| |exact H]; apply digits_are_digits.
Qed.

Section Grid.
Context (active : option (list N)) (words : list (list N)).

Let n := length words.

Lemma draw_col_cell (p : nat) (cells : list (option button)) :
  draw_col active words (Nat.min p n, cells)
  = inr (Nat.min (S p) n, cells ++ [cell active words p]).
Proof.
  unfold draw_col, cell. cbn [fst snd]. fold n.
  destruct (Nat.ltb_spec (Nat.min p n) n) as [Hlt|Hge].
  - assert (Hp : (p < n)%nat) by lia.
    replace (Nat.min p n) with p by lia. replace (Nat.min (S p) n) with (S p) by lia.
    destruct (lookup_lt_is_Some_2 words p Hp) as [w ->]. reflexivity.
  - assert (Hp : (n <= p)%nat) by lia.
    replace (Nat.min p n) with n by lia. replace (Nat.min (S p) n) with n by lia.
    now rewrite (lookup_ge_None_2 words p Hp).
Qed.

Lemma draw_cols (cols : list nat) : forall (p : nat) (cells : list (option button)),
  fold_left (fun acc _ => rbind acc (draw_col active words)) cols
    (inr (Nat.min p n, cells))
  = inr (Nat.min (p + length cols) n, cells ++ (cell active words <$> seq p (length cols))).
Proof.
  induction cols as [|c cols IH]; intros p cells.
  - cbn [fold_left length seq fmap list_fmap]. now rewrite Nat.add_0_r, app_nil_r.
  - cbn [fold_left rbind length seq fmap list_fmap]. rewrite draw_col_cell, IH.
    rewrite <- app_assoc. cbn [app]. now rewrite Nat.add_succ_r.
Qed.

Lemma draw_row_cells (p : nat) :
  draw_row active words (Nat.min p n)
  = inr (Nat.min (p + 6) n, cell active words <$> seq p 6).
Proof. unfold draw_row, ok. now rewrite draw_cols. Qed.

Lemma draw_rows_cells (rows : list nat) :
  forall (r : nat) (done : list (list (option button))),
  draw_rows active words rows (inr (Nat.min (6 * r) n, done))
  = inr (Nat.min (6 * (r + length rows)) n,
         done ++ ((fun i => cell active words <$> seq (6 * i) 6) <$> seq r (length rows))).
Proof.
  induction rows as [|x rows IH]; intros r done.
  - cbn [draw_rows fold_left length seq fmap list_fmap].
    now rewrite Nat.add_0_r, app_nil_r.
  - unfold draw_rows in *. cbn [fold_left rbind length seq fmap list_fmap fst snd].
    rewrite draw_row_cells. cbn [rbind ok fst snd].
    replace (6 * r + 6)%nat with (6 * S r)%nat by lia.
    rewrite IH, <- app_assoc. cbn [app].
    now replace (S r + length rows)%nat with (r + S (length rows))%nat by lia.
Qed.

(** The grid in closed form: the cell in row [i] and column [j] is the
    cell at position [6 * i + j]. *)
Lemma word_grid_cells :
  word_grid active words
  = inr ((fun i => cell active words <$> seq (6 * i) 6)
           <$> seq 0 (Z.to_nat (num_rows n))).
Proof.
  unfold word_grid. cbv zeta. fold n.
  pose proof (draw_rows_cells (seq 0 (Z.to_nat (num_rows n))) 0 []) as H.
  change (Nat.min (6 * 0) n) with O in H. cbn [app] in H.
  unfold ok. rewrite H. cbn [rbind snd ok]. now rewrite length_seq.
Qed.

Lemma num_rows_least : (n <= 6 * Z.to_nat (num_rows n) < n + 6)%nat.
Proof.
  unfold num_rows, MAX_COLS_PER_ROW.
  pose proof (Z.div_mod (- Z.of_nat n) 6 ltac:(lia)) as Hd.
  pose proof (Z.mod_pos_bound (- Z.of_nat n) 6 ltac:(lia)) as Hm.
  lia.
Qed.

End Grid.

Section Placement.
Context (active : option (list N)) (words : list (list N)).

Let grid : list (list (option button)) :=
  (fun i => cell active words <$> seq (6 * i) 6)
    <$> seq 0 (Z.to_nat (num_rows (length words))).

Lemma grid_length : (length words <= 6 * length grid < length words + 6)%nat.
Proof.
  unfold grid. rewrite length_fmap, length_seq. apply num_rows_least.
Qed.

Lemma grid_rows : Forall (fun row => length row = 6%nat) grid.
Proof.
  unfold grid. apply Forall_fmap, Forall_forall. intros i _. cbn.
  reflexivity.
Qed.

Lemma grid_button_at (i j : nat) (b : button) :
  button_at grid i j = Some b <->
  (j < 6)%nat /\ exists w, words !! (6 * i + j)%nat = Some w
                          /\ b = word_button active (6 * i + j) w.
Proof.
  unfold button_at, grid. rewrite list_lookup_fmap.
  destruct (seq 0 (Z.to_nat (num_rows (length words))) !! i) as [i'|] eqn:Ei;
    cbn [fmap option_fmap option_map].
  - apply lookup_seq in Ei as [-> Hi]. cbn [Nat.add]. rewrite list_lookup_fmap.
    destruct (seq (6 * i) 6 !! j) as [k|] eqn:Ej; cbn [fmap option_fmap option_map].
    + apply lookup_seq in Ej as [-> Hj]. unfold cell.
      destruct (words !! (6 * i + j)%nat) as [w|]; cbn [fmap option_fmap option_map].
      * split.
        -- intros [= <-]. split; [exact Hj|]. now exists w.
        -- intros (_ & w' & [= <-] & ->). reflexivity.
      * split; [discriminate|]. now intros (_ & w' & [=] & _).
    + split; [discriminate|]. intros (Hj & _).
      assert (is_Some (seq (6 * i) 6 !! j)) as [k Hk].
      { apply lookup_lt_is_Some. now rewrite length_seq. }
      congruence.
  - split; [discriminate|]. intros (Hj & w & Hw & _).
    apply lookup_lt_Some in Hw.
    assert (is_Some (seq 0 (Z.to_nat (num_rows (length words))) !! i)) as [k Hk].
    { apply lookup_lt_is_Some. rewrite length_seq.
      pose proof (num_rows_least words). lia. }
    congruence.
Qed.

End Placement.

(** The parts in which [re.search] finds a word character are the words of
    the sentence. *)
Lemma words_are_tokens (sentence : list N) :
  words_with_original_case sentence = tokenize_sentence sentence.
Proof.
  unfold words_with_original_case, split_sentence_with_delimiters, tokenize_sentence.
  destruct (negb (truthy sentence)); [reflexivity|].
  unfold Re.split, findall, finditer. rewrite finditer_fuel_grp.
  destruct (TokenizerFacts.finditer_word_re (2 * length sentence + 2) sentence None)
    as [Hhits Htail]; [lia|discriminate|].
  apply filter_word_parts; assumption.
Qed.

Lemma display_words_list_nil (l : list (list N)) : display_words_list l = [] <-> l = [].
Proof.
  split; [|now intros ->]. intros E. destruct l as [|w l]; [reflexivity|].
  assert (H : lower w ∈ lower <$> display_words_list (w :: l)).
  { apply display_words_list_keys. cbn. left. }
  rewrite E in H. cbn in H. now apply elem_of_nil in H.
Qed.

Lemma word_buttons_nil (sentence : list N) :
  word_buttons sentence = [] <-> existsb is_word sentence = false.
Proof.
  unfold word_buttons. rewrite display_words_list_nil, words_are_tokens.
  apply no_tokens.
Qed.

Lemma word_buttons_NoDup (sentence : list N) : NoDup (word_buttons sentence).
Proof.
  unfold word_buttons. eapply NoDup_fmap_1, display_words_list_NoDup.
Qed.

End WithUnicode.

#[local] Existing Instance ascii_only.

(** X16. The grid of word buttons is drawn without an index error.  It
    has the fewest rows of six columns that hold all the words, and the
    button of the word at index [k] stands in row [k / 6] and column
    [k mod 6]: every word has exactly one button, the buttons stand in the
    order of the words, and a cell holds no button only after the last
    word. *)
Theorem word_grid_places_every_word {U : UnicodeDB}
    (active : option (list N)) (words : list (list N)) :
  exists rows : list (list (option button)),
    word_grid active words = inr rows
    /\ (length words <= 6 * length rows < length words + 6)%nat
    /\ Forall (fun row => length row = 6%nat) rows
    /\ (forall (k : nat) (w : list N),
          words !! k = Some w ->
          button_at rows (k / 6) (k mod 6) = Some (word_button active k w))
    /\ (forall (i j : nat) (b : button),
          button_at rows i j = Some b ->
          (j < 6)%nat
          /\ exists w, words !! (6 * i + j)%nat = Some w
                       /\ b = word_button active (6 * i + j) w).
Proof.
  eexists. split; [apply word_grid_cells|]. split; [apply grid_length|].
  split; [apply grid_rows|]. split.
  - intros k w Hw. apply grid_button_at. split; [now apply Nat.mod_upper_bound|].
    exists w. rewrite <- (Nat.div_mod_eq k 6). now split.
  - intros i j b. apply grid_button_at.
Qed.

(** X17. No two buttons of the grid have the same widget key, whatever
    the words are: a key holds the index of its word before the first
    underscore after 'word_'. *)
Theorem word_button_keys_differ {U : UnicodeDB}
    (active : option (list N)) (words : list (list N))
    (rows : list (list (option button))) (i j i' j' : nat) (b b' : button) :
  word_grid active words = inr rows ->
  button_at rows i j = Some b -> button_at rows i' j' = Some b' ->
  key b = key b' -> i = i' /\ j = j'.
Proof.
  rewrite word_grid_cells. intros [= <-] Hb Hb' Hk.
  apply grid_button_at in Hb as (Hj & w & _ & ->).
  apply grid_button_at in Hb' as (Hj' & w' & _ & ->).
  apply key_inj in Hk. lia.
Qed.

(** X17 for the sentence 'a b A': the button of 'A' in column 2 shares its
    key with no button of another cell. *)
Lemma word_button_keys_differ_witness : 0%nat = 0%nat /\ 2%nat = 2%nat.
Proof.
  apply (@word_button_keys_differ ascii_only None [u "a"; u "b"; u "A"]
           [[Some (word_button None 0 (u "a")); Some (word_button None 1 (u "b"));
             Some (word_button None 2 (u "A")); None; None; None]]
           0 2 0 2 (word_button None 2 (u "A")) (word_button None 2 (u "A")));
    reflexivity.
Defined.

(** X18. A button of the panel is highlighted exactly when its word is
    the active word, and at most one button is: the words of the panel are
    pairwise different. *)
Theorem one_button_is_primary {U : UnicodeDB}
    (active : option (list N)) (sentence : list N)
    (rows : list (list (option button))) :
  word_grid active (word_buttons sentence) = inr rows ->
  (forall (i j : nat) (b : button),
     button_at rows i j = Some b -> (primary b = true <-> active = Some (label b)))
  /\ (forall (i j i' j' : nat) (b b' : button),
        button_at rows i j = Some b -> button_at rows i' j' = Some b' ->
        primary b = true -> primary b' = true -> i = i' /\ j = j').
Proof.
  rewrite word_grid_cells. intros [= <-].
  assert (Hp : forall k w, primary (word_button active k w) = true <-> active = Some w).
  { intros k w. cbn [primary word_button]. destruct active as [a|].
    - unfold str_eqb. rewrite bool_decide_eq_true. split; congruence.
    - split; discriminate. }
  split.
  - intros i j b Hb. apply grid_button_at in Hb as (_ & w & _ & ->). apply Hp.
  - intros i j i' j' b b' Hb Hb' Hpb Hpb'.
    apply grid_button_at in Hb as (Hj & w & Hw & ->).
    apply grid_button_at in Hb' as (Hj' & w' & Hw' & ->).
    apply Hp in Hpb. apply Hp in Hpb'.
    assert (E : w = w') by congruence. subst w'.
    pose proof (NoDup_lookup _ _ _ _ (word_buttons_NoDup sentence) Hw Hw'). lia.
Qed.

(** X18 for 'Der Hund' with the active word 'Hund'. *)
Lemma one_button_is_primary_witness :
  (forall (i j : nat) (b : button),
     button_at [[Some (word_button (Some (u "Hund")) 0 (u "Der"));
                 Some (word_button (Some (u "Hund")) 1 (u "Hund"));
                 None; None; None; None]] i j = Some b ->
     (primary b = true <-> Some (u "Hund") = Some (label b)))
  /\ (forall (i j i' j' : nat) (b b' : button),
        button_at [[Some (word_button (Some (u "Hund")) 0 (u "Der"));
                    Some (word_button (Some (u "Hund")) 1 (u "Hund"));
                    None; None; None; None]] i j = Some b ->
        button_at [[Some (word_button (Some (u "Hund")) 0 (u "Der"));
                    Some (word_button (Some (u "Hund")) 1 (u "Hund"));
                    None; None; None; None]] i' j' = Some b' ->
        primary b = true -> primary b' = true -> i = i' /\ j = j').
Proof.
  apply (@one_button_is_primary ascii_only (Some (u "Hund")) (u "Der Hund")).
  vm_compute. reflexivity.
Defined.

(** X19. The panel of word buttons is drawn without an exception.  It is
    hidden exactly when the flag is off or the sentence is empty; it warns
    that no words were found exactly when the sentence has no word
    character; otherwise it is the grid of the buttons of the sentence, with
    at least one button. *)
Theorem words_panel_cases {U : UnicodeDB} (s : session) :
  exists panel : words_panel,
    render_words_panel s = inr panel
    /\ (panel = PanelHidden <-> show_word_buttons s = false \/ input_sentence s = [])
    /\ (panel = NoWordsFound <->
        show_word_buttons s = true /\ input_sentence s <> []
        /\ existsb is_word (input_sentence s) = false)
    /\ (forall rows, panel = Grid rows ->
        word_grid (active_translation_word s) (word_buttons (input_sentence s)) = inr rows
        /\ exists b, button_at rows 0 0 = Some b).
Proof.
  unfold render_words_panel. cbv zeta.
  destruct (show_word_buttons s) eqn:Eshow; cbn [andb].
  - destruct (input_sentence s) as [|c sentence] eqn:Ein; cbn [truthy].
    + exists PanelHidden. split; [reflexivity|]. split; [split; auto|].
      split; [|discriminate]. split; [discriminate|]. now intros (_ & ? & _).
    + destruct (word_buttons (c :: sentence)) as [|w l] eqn:Ew; cbn [truthy negb].
      * exists NoWordsFound. split; [reflexivity|]. split; [|split].
        -- split; [discriminate|]. intros [|]; discriminate.
        -- split; [|reflexivity]. intros _. repeat split; [discriminate|].
           now apply word_buttons_nil.
        -- discriminate.
      * rewrite word_grid_cells. cbn [rbind ok]. eexists. split; [reflexivity|].
        split; [|split].
        -- split; [discriminate|]. intros [|]; discriminate.
        -- split; [discriminate|]. intros (_ & _ & H).
           apply word_buttons_nil in H. congruence.
        -- intros rows [= <-]. split; [reflexivity|].
           exists (word_button (active_translation_word s) 0 w).
           apply grid_button_at. split; [lia|]. exists w. now split.
  - exists PanelHidden. split; [reflexivity|]. split; [split; auto|].
    split; [|discriminate]. split; [discriminate|]. now intros (? & _).
Qed.

End WordGridFacts.

(** ** What a translation can be, and how a failed click is shown *)

Module ClickFacts.
Import Py Effects TranslationApi OllamaUtils TtsUtils App Views EffectsFacts Scenarios
  AppSpec PageFacts.

#[local] Existing Instance ascii_only.

(** X20. [translate_text] raises in one case only: the text is not empty
    and [requests.get] itself raised a [ValueError]; the handler of that
    exception then reads the response that was never bound, and an
    [UnboundLocalError] leaves the function.  In every other case it returns
    [None], a string, a list or a dictionary, whatever the provider answers,
    and never a number or a truth value: a [translatedText] that is a number
    or [true] makes the search for the warning raise, and the result is
    [None].  A returned string can be empty: a text that starts with ' NMT'
    and carries the warning is cut down to nothing. *)
Theorem translate_text_returns_text {U : UnicodeDB} :
  (forall (S : Type) (w : world) (n : nat) (s : S) (text src tgt : list N) (e : exn),
     returned (run w n (translate_text text src tgt) s) = inl e <->
     e = UnboundLocalError /\ text <> []
     /\ w n (translation_request text src tgt) = inl ValueError)
  /\ (forall (S : Type) (w : world) (n : nat) (s : S) (text src tgt : list N) (v : pyval),
        returned (run w n (translate_text text src tgt) s) = inr v ->
        v = VNone \/ is_container v = true)
  /\ (forall b : bool,
        translation_of
          (inr {| status_ok := true;
                  json_body := inr (VDict [(u "responseData",
                                            VDict [(u "translatedText", VBool b)])]) |})
        = inr VNone
        /\ translation_of
             (inr {| status_ok := true;
                     json_body := inr (VDict [(u "responseData",
                                               VDict [(u "translatedText", VNum b)])]) |})
           = inr VNone)
  /\ (forall rest : list N,
        translation_of
          (inr {| status_ok := true;
                  json_body := inr (provider_json (u " NMT MYMEMORY WARNING" ++ rest)) |})
        = inr (VStr [])).
Proof.
  split; [|split; [|split]].
  - intros S w n s text src tgt e.
    destruct text as [|c text].
    + split; [discriminate|]. now intros (_ & H & _).
    + change (returned (run w n (translate_text (c :: text) src tgt) s))
        with (translation_of (w n (translation_request (c :: text) src tgt))).
      destruct (translation_of_kind (w n (translation_request (c :: text) src tgt)))
        as [[E Hw]|[E|(v & E & _)]]; rewrite E.
      * split; [intros [= <-]; repeat split; [discriminate|exact Hw]|].
        now intros (-> & _).
      * split; [discriminate|]. intros (_ & _ & Hw). rewrite Hw in E. discriminate.
      * split; [discriminate|]. intros (_ & _ & Hw). rewrite Hw in E. discriminate.
  - intros S w n s text src tgt v.
    destruct text as [|c text]; [intros [= <-]; now left|].
    change (returned (run w n (translate_text (c :: text) src tgt) s))
      with (translation_of (w n (translation_request (c :: text) src tgt))).
    intros E.
    destruct (translation_of_kind (w n (translation_request (c :: text) src tgt)))
      as [[E' _]|[E'|(v' & E' & Hc)]]; rewrite E' in E; try discriminate.
    + injection E as <-. now left.
    + injection E as <-. now right.
  - intros []; split; reflexivity.
  - intros rest. reflexivity.
Qed.

(** X21. After a click on a word each part of the word panel reports its
    own failure.  If the translation of the word failed, the panel shows
    that the word could not be translated: the stored marker contains the
    text '[Translation Failed]' the panel looks for.  If no example came
    back, the panel shows that no example could be generated.  If an example
    came back, it is shown with its translation, which is the translation
    the provider gave or the marker '[Example Translation Failed]'.  Where
    [translate_text] raised, the session the click left shows the word as
    being processed, or the example with the caption of a pending
    translation. *)
Theorem word_failures_are_reported {U : UnicodeDB}
    (w : world) (n : nat) (c : N) (rest : list N) (s : session) :
  let word := c :: rest in
  let o := run w n (handle_word_click word) s in
  let t := translation_of (w n (translation_request word (u "de") (u "en"))) in
  let example := example_result (w (S n) (example_request word)) in
  (forall v : pyval,
     t = inr v -> truthy_val v = false ->
     render_word (final o) = inr (CouldNotTranslate word))
  /\ (forall v : pyval,
        t = inr v -> truthy_opt example = false ->
        render_example (final o) = CouldNotGenerate word)
  /\ (forall (v : pyval) (d : N) (ex : list N),
        t = inr v -> example = Some (d :: ex) ->
        match translation_of
                (w (S (S n)) (translation_request (d :: ex) (u "de") (u "en"))) with
        | inr te =>
            render_example (final o)
            = ExampleWithTranslation (d :: ex)
                (if truthy_val te then te else VStr (u "[Example Translation Failed]"))
        | inl _ => render_example (final o) = ExamplePending (d :: ex)
        end)
  /\ (forall e : exn,
        t = inl e ->
        render_word (final o) = inr (Processing word)
        /\ render_example (final o) = NoExamplePanel).
Proof.
  cbv zeta. rewrite run_handle_word_click. cbv zeta.
  assert (Heq : str_eqb (c :: rest) (c :: rest) = true)
    by (unfold str_eqb; now rewrite bool_decide_eq_true_2).
  split; [|split; [|split]].
  - intros v -> Ht.
    destruct (example_result _) as [[|d ex]|];
      [|destruct (translation_of _) as [e'|te]|];
      cbn [final]; unfold render_word;
      session_cbn; cbn [truthy]; rewrite Heq; unfold or_marker; rewrite Ht;
      reflexivity.
  - intros v ->.
    destruct (example_result _) as [[|d ex]|]; try discriminate; intros _;
      cbn [final]; unfold render_example; session_cbn; cbn [truthy]; now rewrite Heq.
  - intros v d ex -> ->.
    destruct (translation_of _) as [e'|te]; cbn [final]; unfold render_example;
      session_cbn; cbn [truthy truthy_val]; rewrite Heq; [reflexivity|].
    unfold or_marker.
    now destruct (truthy_val te) eqn:E; [rewrite E|].
  - intros e ->. cbn [final]. unfold render_word, render_example. session_cbn.
    cbn [truthy]. split; reflexivity.
Qed.

(** X21 with every service down: neither a translation nor an example. *)
Lemma word_failures_are_reported_witness :
  render_word (final (run all_down 0 (handle_word_click (u "Hund")) initial_session))
  = inr (CouldNotTranslate (u "Hund"))
  /\ render_example (final (run all_down 0 (handle_word_click (u "Hund")) initial_session))
     = CouldNotGenerate (u "Hund").
Proof.
  destruct (@word_failures_are_reported ascii_only all_down 0 72 (u "und") initial_session)
    as (H1 & H2 & _).
  split; [apply (H1 VNone)|apply (H2 VNone)]; reflexivity.
Defined.

End ClickFacts.
